(** * Resume RAG pipeline: sanitizer, loader, chunker, vector store, retrieval

    A shallow embedding of the ingestion and retrieval core of the
    repository ([app/ingestion/*.py], [app/retrieval/rag.py]) together
    with the properties stated about it.

    Conventions of the embedding.
    - A Python [str] is a [list ascii]; an [ascii] stands for the code
      point of the same number, so the texts covered are those whose code
      points are below 256.  The character classes ([str.isspace], the
      line boundaries of [str.splitlines], [str.lower], the classes of
      [re]) are the ones CPython uses on that range.
    - A Python [int] is a [Z]; [len] returns a [Z].
    - An exception is a value [Raise e] of the type [result]. *)

From Stdlib Require Import ZArith Ascii String Lia.
From stdpp Require Import base tactics option list strings pretty gmap.

Open Scope Z_scope.
Open Scope list_scope.

(** ** Python values and exceptions *)

Abbreviation pystr := (list ascii) (only parsing).

Definition py (s : string) : pystr := list_ascii_of_string s.
Arguments py : simpl never.

Inductive exn : Set :=
| ValueError
| IndexError
| AssertionError
| AttributeError
| AxisError
| JSONDecodeError
| RuntimeError
| ResponseError
| OSError.

Inductive result (A : Type) : Type :=
| Ok (a : A)
| Raise (e : exn).
Arguments Ok {A} a.
Arguments Raise {A} e.

Global Instance result_ret : MRet result := fun A a => Ok a.

Global Instance result_bind : MBind result := fun A B k r =>
  match r with
  | Ok a => k a
  | Raise e => Raise e
  end.

Definition len {A} (l : list A) : Z := Z.of_nat (length l).

(** Truth value of a sequence: non-empty. *)
Definition truthy {A} (l : list A) : bool :=
  match l with
  | [] => false
  | _ :: _ => true
  end.

Definition is_nil {A} (l : list A) : bool :=
  match l with
  | [] => true
  | _ :: _ => false
  end.

(** The index a slice bound denotes in a sequence of length [n]. *)
Definition slice_index (n i : Z) : Z :=
  if i <? 0 then Z.max 0 (n + i) else Z.min n i.

(** [l[lo:hi]], [l[lo:]] and [l[:hi]]. *)
Definition slice {A} (l : list A) (lo hi : Z) : list A :=
  let a := slice_index (len l) lo in
  let b := slice_index (len l) hi in
  take (Z.to_nat (b - a)) (drop (Z.to_nat a) l).

Definition slice_from {A} (l : list A) (lo : Z) : list A :=
  drop (Z.to_nat (slice_index (len l) lo)) l.

Definition slice_to {A} (l : list A) (hi : Z) : list A :=
  take (Z.to_nat (slice_index (len l) hi)) l.

(** [range(start, stop, step)]. *)
Definition py_range (start stop step : Z) : result (list Z) :=
  if step =? 0 then Raise ValueError
  else
    let count :=
      if 0 <? step then Z.max 0 ((stop - start + step - 1) / step)
      else Z.max 0 ((start - stop - step - 1) / (- step)) in
    Ok ((fun k => start + k * step) <$> seqZ 0 count).

(** ** Characters and strings *)

Definition code (c : ascii) : N := N_of_ascii c.

Definition code_in (lo hi : N) (c : ascii) : bool :=
  ((lo <=? code c) && (code c <=? hi))%N.

(** [str.isspace] on one character. *)
Definition is_space (c : ascii) : bool :=
  code_in 9 13 c || code_in 28 32 c || (code c =? 133)%N || (code c =? 160)%N.

(** The line boundaries of [str.splitlines], the pair [\r\n] apart. *)
Definition is_linebreak (c : ascii) : bool :=
  code_in 10 13 c || code_in 28 30 c || (code c =? 133)%N.

Definition LF : ascii := ascii_of_N 10.
Definition CR : ascii := ascii_of_N 13.

(** [str.lower] on one character. *)
Definition lower_char (c : ascii) : ascii :=
  if code_in 65 90 c || code_in 192 214 c || code_in 216 222 c
  then ascii_of_N (code c + 32)
  else c.

Definition lower (s : pystr) : pystr := lower_char <$> s.

Fixpoint drop_while {A} (p : A -> bool) (l : list A) : list A :=
  match l with
  | [] => []
  | x :: l' => if p x then drop_while p l' else l
  end.

Fixpoint take_while {A} (p : A -> bool) (l : list A) : list A :=
  match l with
  | [] => []
  | x :: l' => if p x then x :: take_while p l' else []
  end.

Definition lstrip (s : pystr) : pystr := drop_while is_space s.
Definition rstrip (s : pystr) : pystr := rev (drop_while is_space (rev s)).
Definition strip (s : pystr) : pystr := rstrip (lstrip s).

Definition str_eqb (a b : pystr) : bool := bool_decide (a = b).

Fixpoint starts_with (p s : pystr) : bool :=
  match p, s with
  | [], _ => true
  | _ :: _, [] => false
  | a :: p', b :: s' => bool_decide (a = b) && starts_with p' s'
  end.

(** [sub in s]. *)
Fixpoint contains (sub s : pystr) : bool :=
  starts_with sub s ||
  match s with
  | [] => false
  | _ :: s' => contains sub s'
  end.

(** [sep.join(parts)]. *)
Fixpoint join (sep : pystr) (parts : list pystr) : pystr :=
  match parts with
  | [] => []
  | [p] => p
  | p :: rest => p ++ sep ++ join sep rest
  end.

(** [s.split(sep)] for a non-empty [sep]: the text is cut at the
    occurrences of [sep] found from left to right, none overlapping the
    one before.  [skip] counts the characters of an occurrence still to
    be passed over; [cur] is the part being read, reversed. *)
Fixpoint split_go (sep : pystr) (skip : nat) (cur : pystr) (s : pystr)
  : list pystr :=
  match s with
  | [] => [rev cur]
  | c :: s' =>
      match skip with
      | S k => split_go sep k cur s'
      | O =>
          if starts_with sep s
          then rev cur :: split_go sep (length sep - 1)%nat [] s'
          else split_go sep 0 (c :: cur) s'
      end
  end.

Definition str_split (s sep : pystr) : result (list pystr) :=
  match sep with
  | [] => Raise ValueError
  | _ :: _ => Ok (split_go sep 0 [] s)
  end.

(** [s.splitlines()]: [cur] is the line being read, reversed; [after_cr]
    tells that the previous character was a carriage return, so that a
    line feed now belongs to the same boundary. *)
Fixpoint splitlines_go (after_cr : bool) (cur : pystr) (s : pystr)
  : list pystr :=
  match s with
  | [] => match cur with
          | [] => []
          | _ :: _ => [rev cur]
          end
  | c :: s' =>
      if after_cr && bool_decide (c = LF) then splitlines_go false cur s'
      else if is_linebreak c
           then rev cur :: splitlines_go (bool_decide (c = CR)) [] s'
           else splitlines_go false (c :: cur) s'
  end.

Definition splitlines (s : pystr) : list pystr := splitlines_go false [] s.

(** ** Chunker ([app/ingestion/chunker.py]) *)

Module Chunker.

Definition DEFAULT_CHUNK_SIZE : Z := 800.
Definition DEFAULT_CHUNK_OVERLAP : Z := 100.

(** The loop state of the separator branch: the chunks closed so far
    and the running chunk. *)
Definition accumulate (sep : pystr) (chunk_size overlap : Z)
    (st : list pystr * pystr) (part : pystr) : list pystr * pystr :=
  let '(chunks, current) := st in
  let piece :=
    if bool_decide (sep ∈ [py (String LF ""); py " "]) then part
    else part ++ sep in
  if len current + len piece <=? chunk_size
  then (chunks, current ++ piece)
  else
    let chunks' :=
      if truthy (strip current) then chunks ++ [strip current]
      else chunks in
    let overlap_start := Z.max 0 (len current - overlap) in
    (chunks', slice_from current overlap_start ++ piece).

Definition close_last (st : list pystr * pystr) : list pystr :=
  let '(chunks, current) := st in
  if truthy (strip current) then chunks ++ [strip current] else chunks.

(** The character fallback: windows [text[i : i + chunk_size]] for [i]
    in [range(0, len(text), chunk_size - overlap)]. *)
Definition window (text : pystr) (chunk_size i : Z) : pystr :=
  slice text i (i + chunk_size).

Definition keep_window (chunks : list pystr) (chunk : pystr) : list pystr :=
  if truthy (strip chunk) then chunks ++ [strip chunk] else chunks.

Definition char_fallback (text : pystr) (chunk_size overlap : Z)
  : result (list pystr) :=
  starts ← py_range 0 (len text) (chunk_size - overlap);
  Ok (foldl keep_window [] (window text chunk_size <$> starts)).

Definition _recursive_split (text : pystr) (separators : list pystr)
    (chunk_size overlap : Z) : result (list pystr) :=
  if negb (truthy text) || negb (truthy (strip text)) then Ok []
  else if len text <=? chunk_size
  then Ok (if truthy (strip text) then [strip text] else [])
  else
    let sep := match separators with
               | s :: _ => s
               | [] => []
               end in
    if truthy sep
    then
      parts ← str_split text sep;
      if 1 <? len parts
      then Ok (close_last (foldl (accumulate sep chunk_size overlap)
                                 ([], []) parts))
      else char_fallback text chunk_size overlap
    else char_fallback text chunk_size overlap.

Definition separators : list pystr :=
  [py (String LF (String LF "")); py (String LF ""); py ". "; py " "; []].

Definition chunk_text (text : pystr) (chunk_size overlap : Z)
  : result (list pystr) :=
  _recursive_split text separators chunk_size overlap.

End Chunker.

(** Re-joining chunks, ignoring the first [overlap] characters of every
    chunk after the first. *)
Definition rejoin {A} (overlap : Z) (chunks : list (list A)) : list A :=
  match chunks with
  | [] => []
  | c :: rest => c ++ concat ((fun ch => slice_from ch overlap) <$> rest)
  end.


(** ** Vector store ([app/ingestion/vector_store.py]) *)

(** The collaborators of the store that are not part of the repository:
    the floating-point arithmetic of numpy, the embedding service and the
    similarity ranking of the FAISS inner-product index. *)
Class Backend : Type := {
  (** a floating-point number *)
  float : Type;
  f_one : float;
  (** [x == 0] *)
  f_is_zero : float -> bool;
  f_div : float -> float -> float;
  f_sub : float -> float -> float;
  (** the score FAISS pads a result row with *)
  f_pad : float;
  (** [np.linalg.norm] of one row *)
  l2_norm : list float -> float;
  (** [ollama.Client(host).embed(model, input)["embeddings"]] *)
  ollama_embed : pystr -> pystr -> list pystr -> result (list (list float));
  (** the stored vectors ranked by inner product with a query, best
      first, as pairs of a position and a score *)
  ip_ranking : list (list float) -> list float -> list (Z * float)
}.

Module VectorStore.

(** *** Metadata *)

(** A metadata value.  A float carries its bit pattern; of a list or
    dict and of any other object only [str(v)] and the truth value are
    kept. *)
Inductive pyval : Type :=
| PNone
| PBool (b : bool)
| PInt (n : Z)
| PFloat (bits : Z)
| PStr (s : pystr)
| PListOrDict (repr : pystr)
| PObject (repr : pystr) (truth : bool).

Abbreviation metadata := (gmap (list ascii) pyval).

(** The value stored for [v] by the cleaning loop of [add_chunks]. *)
Definition clean_value (v : pyval) : pyval :=
  match v with
  | PBool _ | PInt _ | PFloat _ | PStr _ => v
  | PListOrDict repr => PStr repr
  | PNone => PStr []
  | PObject repr truth => PStr (if truth then repr else [])
  end.

Definition clean_metadata (m : metadata) : metadata := clean_value <$> m.

(** [v in strs] for a list of strings. *)
Definition val_in (v : option pyval) (strs : list pystr) : bool :=
  match v with
  | Some (PStr s) => bool_decide (s ∈ strs)
  | _ => false
  end.

Fixpoint pad_to {A} (k : nat) (x : A) (l : list A) : list A :=
  match k with
  | O => []
  | S k' => match l with
            | [] => x :: pad_to k' x []
            | y :: l' => y :: pad_to k' x l'
            end
  end.

(** What a persisted file holds, seen through the library that reads
    it: nothing, content the reader refuses, or content it returns. *)
Inductive persisted (A : Type) : Type :=
| Absent
| Unreadable
| Readable (a : A).
Arguments Absent {A}.
Arguments Unreadable {A}.
Arguments Readable {A} a.

(** The JSON document of the metadata file: an object with optional
    members [chunks] and [metadatas], or another JSON value. *)
Inductive json_doc : Type :=
| JObject (chunks : option (list pystr)) (metadatas : option (list metadata))
| JNotObject.

(** [l[idx]] for an index that is not negative. *)
Definition at_index {A} (l : list A) (idx : Z) : result A :=
  match l !! Z.to_nat idx with
  | Some x => Ok x
  | None => Raise IndexError
  end.

Section WithBackend.
Context {B : Backend}.

Abbreviation vec := (list float).

(** *** The FAISS index and the persisted files *)

Record index : Type := IndexFlatIP_of {
  d : Z;
  xb : list vec
}.

Definition IndexFlatIP (dim : Z) : index := {| d := dim; xb := [] |}.
Definition ntotal (ix : index) : Z := len (xb ix).

(** A two-dimensional array: its rows and [shape[1]]. *)
Record matrix : Type := {
  rows : list vec;
  ncols : Z
}.

(** [np.array(rows, dtype=np.float32)] followed by a use of [axis=1]:
    an empty list gives a one-dimensional array, which has no axis 1,
    and rows of different lengths are refused. *)
Definition np_array (rs : list vec) : result matrix :=
  match rs with
  | [] => Raise AxisError
  | r :: rest =>
      if forallb (fun r' => len r' =? len r) rest
      then Ok {| rows := rs; ncols := len r |}
      else Raise ValueError
  end.

Definition normalize_row (v : vec) : vec :=
  let norm := l2_norm v in
  let norm := if f_is_zero norm then f_one else norm in
  (fun x => f_div x norm) <$> v.

Definition _normalize (vectors : matrix) : matrix :=
  {| rows := normalize_row <$> rows vectors; ncols := ncols vectors |}.

(** [index.add(vectors)] *)
Definition index_add (ix : index) (vectors : matrix) : result index :=
  if ncols vectors =? d ix
  then Ok {| d := d ix; xb := xb ix ++ rows vectors |}
  else Raise AssertionError.

(** [index.search(queries, k)]: one row of exactly [k] candidates per
    query, the best first, padded with the position [-1]. *)
Definition index_search (ix : index) (queries : matrix) (k : Z)
  : result (list (list (Z * float))) :=
  if negb (ncols queries =? d ix) then Raise AssertionError
  else if negb (0 <? k) then Raise AssertionError
  else Ok ((fun q => pad_to (Z.to_nat k) (-1, f_pad) (ip_ranking (xb ix) q))
             <$> rows queries).

(** *** The file system

    What goes wrong, if anything, when one of the two files of the
    store is written or removed: the disk, the permissions and the like
    are not part of the repository. *)

Class FileSystem : Type := {
  (** [faiss.write_index(index, path)] on a file in a given state:
      [None] when the index is written, else the exception raised and
      what the file holds afterwards *)
  write_index : persisted index -> index -> option (exn * persisted index);
  (** [open(path, "w")] followed by [json.dump(doc, f)], likewise *)
  write_json : persisted json_doc -> json_doc
               -> option (exn * persisted json_doc);
  (** [path.unlink()] on a file that exists: [None] when the file is
      removed, else the exception raised, the file staying in place *)
  unlink_index : persisted index -> option exn;
  unlink_json : persisted json_doc -> option exn
}.

Context {F : FileSystem}.

(** *** The store and its operations *)

Record store : Type := {
  embedding_model : pystr;
  ollama_host : pystr;
  _index : option index;
  _chunks : list pystr;
  _metadatas : list metadata;
  index_file : persisted index;
  meta_file : persisted json_doc
}.

(** A method of the store: it may change the object and the files, and
    returns a value or raises. *)
Definition M (A : Type) : Type := store -> result A * store.

#[local] Instance M_ret : MRet M := fun A a s => (Ok a, s).
#[local] Instance M_bind : MBind M := fun A C k m s =>
  match m s with
  | (Ok a, s') => k a s'
  | (Raise e, s') => (Raise e, s')
  end.

Definition get : M store := fun s => (Ok s, s).
Definition put (s : store) : M unit := fun _ => (Ok tt, s).
Definition lift {A} (r : result A) : M A := fun s => (r, s).

Definition exists_ {A} (f : persisted A) : bool :=
  match f with
  | Absent => false
  | _ => true
  end.

Definition read_index (f : persisted index) : result index :=
  match f with
  | Readable ix => Ok ix
  | Unreadable => Raise RuntimeError
  | Absent => Raise RuntimeError
  end.

Definition json_load (f : persisted json_doc) : result json_doc :=
  match f with
  | Readable j => Ok j
  | Unreadable => Raise JSONDecodeError
  | Absent => Raise OSError
  end.

Definition _load : M unit :=
  s ← get;
  if exists_ (index_file s) && exists_ (meta_file s)
  then
    ix ← lift (read_index (index_file s));
    put {| embedding_model := embedding_model s; ollama_host := ollama_host s;
           _index := Some ix; _chunks := _chunks s;
           _metadatas := _metadatas s;
           index_file := index_file s; meta_file := meta_file s |};;
    data ← lift (json_load (meta_file s));
    match data with
    | JObject chunks metadatas =>
        put {| embedding_model := embedding_model s;
               ollama_host := ollama_host s;
               _index := Some ix;
               _chunks := default [] chunks;
               _metadatas := default [] metadatas;
               index_file := index_file s; meta_file := meta_file s |}
    | JNotObject => lift (Raise AttributeError)
    end
  else
    put {| embedding_model := embedding_model s; ollama_host := ollama_host s;
           _index := None; _chunks := []; _metadatas := [];
           index_file := index_file s; meta_file := meta_file s |}.

(** [VectorStore(persist_dir, ...)] on a directory holding the two
    given files: the new object, or the exception of [_load]. *)
Definition __init__ (model host : pystr)
    (index_path : persisted index) (meta_path : persisted json_doc)
  : result store :=
  let s := {| embedding_model := model; ollama_host := host;
              _index := None; _chunks := []; _metadatas := [];
              index_file := index_path; meta_file := meta_path |} in
  match _load s with
  | (Ok _, s') => Ok s'
  | (Raise e, _) => Raise e
  end.

Definition _embed (texts : list pystr) : M (list vec) :=
  s ← get;
  lift (ollama_embed (ollama_host s) (embedding_model s) texts).

(** The two files of the store are replaced one at a time. *)
Definition set_index_file (f : persisted index) : M unit :=
  s ← get;
  put {| embedding_model := embedding_model s; ollama_host := ollama_host s;
         _index := _index s; _chunks := _chunks s;
         _metadatas := _metadatas s;
         index_file := f; meta_file := meta_file s |}.

Definition set_meta_file (f : persisted json_doc) : M unit :=
  s ← get;
  put {| embedding_model := embedding_model s; ollama_host := ollama_host s;
         _index := _index s; _chunks := _chunks s;
         _metadatas := _metadatas s;
         index_file := index_file s; meta_file := f |}.

Definition _save : M unit :=
  s ← get;
  match _index s with
  | Some ix =>
      match write_index (index_file s) ix with
      | None => set_index_file (Readable ix)
      | Some (e, remains) => set_index_file remains;; lift (Raise e)
      end
  | None => mret tt
  end;;
  let doc := JObject (Some (_chunks s)) (Some (_metadatas s)) in
  match write_json (meta_file s) doc with
  | None => set_meta_file (Readable doc)
  | Some (e, remains) => set_meta_file remains;; lift (Raise e)
  end.

(** The embedding loop of [add_chunks], one request per batch. *)
Fixpoint embed_batches (chunks : list pystr) (batch_size : Z)
    (starts : list Z) (all_embeddings : list vec) : M (list vec) :=
  match starts with
  | [] => mret all_embeddings
  | i :: starts' =>
      let batch := slice chunks i (i + batch_size) in
      emb ← _embed batch;
      embed_batches chunks batch_size starts' (all_embeddings ++ emb)
  end.

Definition add_chunks (chunks : list pystr) (metadatas : list metadata)
    (batch_size : Z) : M Z :=
  if negb (truthy chunks) then mret 0
  else
    let clean_metadatas := clean_metadata <$> metadatas in
    starts ← lift (py_range 0 (len chunks) batch_size);
    all_embeddings ← embed_batches chunks batch_size starts [];
    vectors ← lift (np_array all_embeddings);
    let vectors := _normalize vectors in
    let dim := ncols vectors in
    s ← get;
    let ix0 := match _index s with
               | None => IndexFlatIP dim
               | Some ix => ix
               end in
    ix ← lift (index_add ix0 vectors);
    put {| embedding_model := embedding_model s; ollama_host := ollama_host s;
           _index := Some ix;
           _chunks := _chunks s ++ chunks;
           _metadatas := _metadatas s ++ clean_metadatas;
           index_file := index_file s; meta_file := meta_file s |};;
    _save;;
    mret (len chunks).

Definition clear : M unit :=
  s ← get;
  put {| embedding_model := embedding_model s; ollama_host := ollama_host s;
         _index := None; _chunks := []; _metadatas := [];
         index_file := index_file s; meta_file := meta_file s |};;
  (if exists_ (index_file s)
   then match unlink_index (index_file s) with
        | None => set_index_file Absent
        | Some e => lift (Raise e)
        end
   else mret tt);;
  (if exists_ (meta_file s)
   then match unlink_json (meta_file s) with
        | None => set_meta_file Absent
        | Some e => lift (Raise e)
        end
   else mret tt).

Record hit : Type := {
  content : pystr;
  metadata_of : metadata;
  distance : float
}.

(** The result loop of [search] over the candidates not yet visited. *)
Fixpoint collect (s : store) (top_k : Z) (include_doc_types : list pystr)
    (cands : list (Z * float)) (output : list hit) : result (list hit) :=
  match cands with
  | [] => Ok output
  | (idx, score) :: cands' =>
      if (idx <? 0) || (len (_chunks s) <=? idx)
      then collect s top_k include_doc_types cands' output
      else
        meta ← at_index (_metadatas s) idx;
        if truthy include_doc_types
           && negb (val_in (meta !! py "doc_type") include_doc_types)
        then collect s top_k include_doc_types cands' output
        else
          chunk ← at_index (_chunks s) idx;
          let output' := output ++ [{| content := chunk;
                                       metadata_of := meta;
                                       distance := f_sub f_one score |}] in
          if top_k <=? len output' then Ok output'
          else collect s top_k include_doc_types cands' output'
  end.

(** The number of candidates [search] asks the index for. *)
Definition fetch_k (top_k : Z) (include_doc_types : list pystr)
    (index_size : Z) : Z :=
  let k := if truthy include_doc_types then top_k * 4 else top_k in
  Z.min k index_size.

(** [include_doc_types] is a list, [None] being the empty one: the
    code only tests its truth value before using it as a list. *)
Definition search (query : pystr) (top_k : Z)
    (include_doc_types : option (list pystr)) : M (list hit) :=
  s ← get;
  match _index s with
  | None => mret []
  | Some ix =>
      if len (_chunks s) =? 0 then mret []
      else
        let filter := default [] include_doc_types in
        emb ← _embed [query];
        query_embedding ← lift (np_array emb);
        let query_embedding := _normalize query_embedding in
        let k := fetch_k top_k filter (ntotal ix) in
        found ← lift (index_search ix query_embedding k);
        row ← lift (at_index found 0);
        lift (collect s top_k filter row [])
  end.

Definition count : M Z :=
  s ← get;
  match _index s with
  | None => mret 0
  | Some ix => mret (ntotal ix)
  end.

(** The three collections of a store hold the same number of entries. *)
Definition aligned (s : store) : Prop :=
  len (_chunks s) = len (_metadatas s) /\
  len (_chunks s) = match _index s with
                    | Some ix => ntotal ix
                    | None => 0
                    end.

End WithBackend.
End VectorStore.

(** A stand-in for the collaborators, with exact integers in place of
    floating-point numbers: a text is embedded as the one-dimensional
    vector of its length, and the ranking lists the stored vectors in
    their order with the product as score. *)
Definition demo_backend : Backend := {|
  float := Z;
  f_one := 1;
  f_is_zero := fun x => x =? 0;
  f_div := Z.div;
  f_sub := Z.sub;
  f_pad := -1;
  l2_norm := fun v => Z.sqrt (foldr (fun x acc => x * x + acc) 0 v);
  ollama_embed := fun _ _ texts => Ok ((fun t => [len t]) <$> texts);
  ip_ranking := fun xs q =>
    imap (fun i x => (Z.of_nat i, foldr Z.add 0 (zip_with Z.mul x q))) xs
|}.

(** A file system on which every write and every removal succeeds. *)
Definition sound_disk (B : Backend) : VectorStore.FileSystem (B := B) := {|
  VectorStore.write_index := fun _ _ => None;
  VectorStore.write_json := fun _ _ => None;
  VectorStore.unlink_index := fun _ => None;
  VectorStore.unlink_json := fun _ => None
|}.

(** A file system on which the index file is written and the metadata
    file is not: the disk is full, and the file is left truncated. *)
Definition full_disk (B : Backend) : VectorStore.FileSystem (B := B) := {|
  VectorStore.write_index := fun _ _ => None;
  VectorStore.write_json := fun _ _ => Some (OSError, VectorStore.Unreadable);
  VectorStore.unlink_index := fun _ => None;
  VectorStore.unlink_json := fun _ => None
|}.

(** A file system on which files cannot be removed. *)
Definition locked_disk (B : Backend) : VectorStore.FileSystem (B := B) := {|
  VectorStore.write_index := fun _ _ => None;
  VectorStore.write_json := fun _ _ => None;
  VectorStore.unlink_index := fun _ => Some OSError;
  VectorStore.unlink_json := fun _ => Some OSError
|}.

#[global] Instance demo_files : VectorStore.FileSystem (B := demo_backend) :=
  sound_disk demo_backend.

Module Demo.
Import VectorStore.

Definition empty_store : store (B := demo_backend) :=
  {| embedding_model := py "nomic-embed-text";
     ollama_host := py "http://localhost:11434";
     _index := None; _chunks := []; _metadatas := [];
     index_file := Absent; meta_file := Absent |}.

Definition meta_of (source doc_type : string) : gmap (list ascii) pyval :=
  <[py "source" := PStr (py source)]>
    (<[py "doc_type" := PStr (py doc_type)]> ∅).

End Demo.

Module VectorStoreSpec.
Section WithBackend.
Context {B : Backend}.
Import VectorStore.

(** The embedding service returns one vector per input text. *)
Definition embed_contract : Prop :=
  forall host model texts vs,
    ollama_embed host model texts = Ok vs -> length vs = length texts.

(** The vectors held by the index of a store. *)
Definition stored_vectors (s : store) : list (list float) :=
  match _index s with
  | Some ix => xb ix
  | None => []
  end.

(** A search result passes the doc-type filter [filt]. *)
Definition admitted_by (filt : list pystr) (h : hit) : Prop :=
  exists t, metadata_of h !! py "doc_type" = Some (PStr t) /\ t ∈ filt.

(** The store a constructor call leaves when nothing is loaded. *)
Definition fresh (model host : pystr) (index_path : persisted index)
    (meta_path : persisted json_doc) : store :=
  {| embedding_model := model; ollama_host := host;
     _index := None; _chunks := []; _metadatas := [];
     index_file := index_path; meta_file := meta_path |}.

End WithBackend.
End VectorStoreSpec.

Module DemoData.
Import VectorStore Demo.

Definition two_chunks : list pystr := [py "a"; py "bb"].

Definition two_metadatas : list (gmap (list ascii) pyval) :=
  [meta_of "r.txt" "resume"; meta_of "e.txt" "experience"].

(** A store holding a resume chunk, an experience chunk and a second
    resume chunk. *)
Definition three_entries : store (B := demo_backend) :=
  snd (add_chunks [py "a"; py "bb"; py "ccc"]
         [meta_of "r.txt" "resume"; meta_of "e.txt" "experience";
          meta_of "r.txt" "resume"] 2 empty_store).

Definition paragraphs : pystr :=
  py "aaa" ++ [LF; LF] ++ py "bbb" ++ [LF; LF] ++ py "ccc".

End DemoData.

(** ** Regular expressions ([re])

    The fragment of Python's [re] syntax used by the sanitizer and by the
    keyword extraction, with the flags resolved when a pattern is
    written down: a letter matched under [IGNORECASE] is the class
    [CCharI], and [^] and [$] under [MULTILINE] are [BolM] and [EolM]. *)

Module Regex.

(** [\w] on one character. *)
Definition is_word (c : ascii) : bool :=
  code_in 48 57 c || code_in 65 90 c || (code c =? 95)%N || code_in 97 122 c
  || (code c =? 170)%N || code_in 178 179 c || (code c =? 181)%N
  || code_in 185 186 c || code_in 188 190 c
  || code_in 192 214 c || code_in 216 246 c || code_in 248 255 c.

Inductive cls : Set :=
| CAny                      (* [.]: any character but a line feed *)
| CSpace                    (* [\s] *)
| CWord                     (* [\w] *)
| CNotWord                  (* [\W] *)
| CChar (c : ascii)         (* a literal character *)
| CCharI (c : ascii)        (* a literal character under IGNORECASE *)
| CNotChar (c : ascii)      (* [[^c]] *)
| CRange (lo hi : ascii)    (* [[lo-hi]] *)
| COneOf (cs : list ascii). (* [[...]] of literal characters *)

Definition cls_matches (k : cls) (x : ascii) : bool :=
  match k with
  | CAny => negb (bool_decide (x = LF))
  | CSpace => is_space x
  | CWord => is_word x
  | CNotWord => negb (is_word x)
  | CChar c => bool_decide (x = c)
  | CCharI c => bool_decide (lower_char x = lower_char c)
  | CNotChar c => negb (bool_decide (x = c))
  | CRange lo hi => code_in (code lo) (code hi) x
  | COneOf cs => bool_decide (x ∈ cs)
  end.

Inductive regex : Set :=
| Eps
| Cls (k : cls)
| Seq (a b : regex)
| Alt (a b : regex)
| Star (a : regex)          (* [a*] *)
| StarLazy (a : regex)      (* [a*?] *)
| Group (a : regex)         (* [(a)], the group 1 of the pattern *)
| Bol                       (* [^] *)
| Eol                       (* [$] *)
| BolM                      (* [^] under MULTILINE *)
| EolM                      (* [$] under MULTILINE *)
| WordB.                    (* [\b] *)

Definition seq (rs : list regex) : regex := foldr Seq Eps rs.
Definition alt (r : regex) (rs : list regex) : regex := foldl Alt r rs.
Definition opt (a : regex) : regex := Alt a Eps.
Definition plus (a : regex) : regex := Seq a (Star a).
Definition plus_lazy (a : regex) : regex := Seq a (StarLazy a).
Definition chr (c : ascii) : regex := Cls (CChar c).
Definition lit (s : string) : regex := seq (chr <$> py s).
Definition lit_i (s : string) : regex := seq ((fun c => Cls (CCharI c)) <$> py s).
Definition spaces : regex := Star (Cls CSpace).
Definition any_text : regex := Star (Cls CAny).

#[global] Instance cls_eq_dec : EqDecision cls.
Proof. solve_decision. Defined.
#[global] Instance regex_eq_dec : EqDecision regex.
Proof. solve_decision. Defined.

(** *** Whether a pattern matches at the start of a text

    The matcher follows all the ways of matching at once.  A way is a
    stack of patterns still to be matched in sequence; between two
    characters it remembers what kind of character came before. *)

Inductive prev_class : Set :=
| AtStart
| AfterWord
| AfterNewline
| AfterOther.

#[global] Instance prev_class_eq_dec : EqDecision prev_class.
Proof. solve_decision. Defined.

Definition class_of (c : ascii) : prev_class :=
  if is_word c then AfterWord
  else if bool_decide (c = LF) then AfterNewline
  else AfterOther.

(** The position of a match attempt: the kind of the character before,
    the next character, and whether that one is the last. *)
Record context : Set := {
  before : prev_class;
  next : option ascii;
  next_is_last : bool
}.

Definition at_word_boundary (cx : context) : bool :=
  xorb (bool_decide (before cx = AfterWord))
       (match next cx with
        | Some c => is_word c
        | None => false
        end).

(** Whether [r] can match the empty text at this position. *)
Fixpoint null (cx : context) (r : regex) : bool :=
  match r with
  | Eps => true
  | Cls _ => false
  | Seq a b => null cx a && null cx b
  | Alt a b => null cx a || null cx b
  | Star _ | StarLazy _ => true
  | Group a => null cx a
  | Bol => bool_decide (before cx = AtStart)
  | BolM => bool_decide (before cx = AtStart)
            || bool_decide (before cx = AfterNewline)
  | Eol => match next cx with
           | None => true
           | Some c => bool_decide (c = LF) && next_is_last cx
           end
  | EolM => match next cx with
            | None => true
            | Some c => bool_decide (c = LF)
            end
  | WordB => at_word_boundary cx
  end.

(** The character classes [r] can start with at this position, each
    with the stack left to match after it; [k] is what follows [r]. *)
Fixpoint first (cx : context) (r : regex) (k : list regex)
  : list (cls * list regex) :=
  match r with
  | Eps | Bol | Eol | BolM | EolM | WordB => []
  | Cls c => [(c, k)]
  | Seq a b =>
      first cx a (b :: k) ++ (if null cx a then first cx b k else [])
  | Alt a b => first cx a k ++ first cx b k
  | Star a => first cx a (Star a :: k)
  | StarLazy a => first cx a (StarLazy a :: k)
  | Group a => first cx a k
  end.

Fixpoint firsts (cx : context) (k : list regex) : list (cls * list regex) :=
  match k with
  | [] => []
  | r :: k' => first cx r k' ++ (if null cx r then firsts cx k' else [])
  end.

Record state : Set := {
  stacks : list (list regex);
  prev : prev_class
}.

#[global] Instance state_eq_dec : EqDecision state.
Proof. solve_decision. Defined.

Definition context_of (q : state) (nxt : option ascii) (last : bool)
  : context :=
  {| before := prev q; next := nxt; next_is_last := last |}.

(** Some way of matching is complete at this position. *)
Definition accepts (q : state) (nxt : option ascii) (last : bool) : bool :=
  existsb (forallb (null (context_of q nxt last))) (stacks q).

(** The ways of matching after the character [c]. *)
Definition advance (q : state) (c : ascii) (last : bool) : state :=
  let cx := context_of q (Some c) last in
  {| stacks :=
       remove_dups
         (flat_map (fun k => snd <$> List.filter
                               (fun ck => cls_matches (fst ck) c)
                               (firsts cx k))
                   (stacks q));
     prev := class_of c |}.

Fixpoint run (q : state) (s : pystr) : bool :=
  match s with
  | [] => accepts q None false
  | c :: s' =>
      accepts q (Some c) (is_nil s') || run (advance q c (is_nil s')) s'
  end.

Definition start (r : regex) : state :=
  {| stacks := [[r]]; prev := AtStart |}.

(** [bool(re.compile(r).match(s))] *)
Definition re_match (r : regex) (s : pystr) : bool := run (start r) s.

(** *** Searching with backtracking

    [bt r k p g] tries the ways of matching [r] at the position [p] in
    the order of [re] (the left alternative first, a greedy repetition
    longest first, a lazy one shortest first) and returns the result of
    the first way that the continuation [k] accepts; [g] is the text of
    group 1 so far. *)

Definition pos : Set := option ascii * pystr.

Definition pos_context (p : pos) : context :=
  {| before := match p.1 with
               | None => AtStart
               | Some c => class_of c
               end;
     next := head p.2;
     next_is_last := is_nil (tail p.2) |}.

Definition found : Set := option pystr * pos.

Fixpoint bt (r : regex) (k : pos -> option pystr -> option found)
    (p : pos) (g : option pystr) {struct r} : option found :=
  match r with
  | Eps => k p g
  | Cls c =>
      match p.2 with
      | x :: rest => if cls_matches c x then k (Some x, rest) g else None
      | [] => None
      end
  | Seq a b => bt a (bt b k) p g
  | Alt a b =>
      match bt a k p g with
      | Some m => Some m
      | None => bt b k p g
      end
  | Star a =>
      (fix loop (fuel : nat) (p : pos) (g : option pystr) : option found :=
         match fuel with
         | O => k p g
         | S fuel' =>
             match bt a (fun p' g' =>
                           if (length p'.2 <? length p.2)%nat
                           then loop fuel' p' g' else None) p g with
             | Some m => Some m
             | None => k p g
             end
         end) (length p.2) p g
  | StarLazy a =>
      (fix loop (fuel : nat) (p : pos) (g : option pystr) : option found :=
         match k p g with
         | Some m => Some m
         | None =>
             match fuel with
             | O => None
             | S fuel' =>
                 bt a (fun p' g' =>
                         if (length p'.2 <? length p.2)%nat
                         then loop fuel' p' g' else None) p g
             end
         end) (length p.2) p g
  | Group a =>
      bt a (fun p' _ =>
              k p' (Some (take (length p.2 - length p'.2) p.2))) p g
  | Bol | Eol | BolM | EolM | WordB =>
      if null (pos_context p) r then k p g else None
  end.

(** One attempt at the position [p]: group 1 and the position after
    the match. *)
Definition match_at (r : regex) (p : pos) : option found :=
  bt r (fun p' g => Some (g, p')) p None.

Definition step_over (p : pos) : pos :=
  match p.2 with
  | [] => p
  | c :: rest => (Some c, rest)
  end.

(** [[m.group(1) for m in re.finditer(r, s)]]: the matches are looked
    for from left to right, each search starting where the match before
    ended (one character further after an empty match). *)
Fixpoint finditer_go (r : regex) (fuel : nat) (p : pos) : list pystr :=
  match fuel with
  | O => []
  | S fuel' =>
      match match_at r p with
      | Some (g, p') =>
          default [] g ::
            (if (length p'.2 <? length p.2)%nat
             then finditer_go r fuel' p'
             else if is_nil p.2 then []
                  else finditer_go r fuel' (step_over p))
      | None =>
          if is_nil p.2 then [] else finditer_go r fuel' (step_over p)
      end
  end.

Definition finditer_group1 (r : regex) (s : pystr) : list pystr :=
  finditer_go r (S (length s)) (None, s).

(** [re.split(r"\W+", s)]: the pieces between the maximal runs of
    characters that are not word characters. *)
Fixpoint split_nonword_go (cur : pystr) (in_run : bool) (s : pystr)
  : list pystr :=
  match s with
  | [] => [rev cur]
  | c :: s' =>
      if is_word c then split_nonword_go (c :: cur) false s'
      else if in_run then split_nonword_go cur true s'
           else rev cur :: split_nonword_go [] true s'
  end.

Definition split_nonword (s : pystr) : list pystr :=
  split_nonword_go [] false s.

End Regex.

(** ** Sanitizer ([app/ingestion/sanitizer.py]) *)

Module Sanitizer.
Import Regex.

Definition star_char : regex := chr "*".

(** [^\s*\*\*?\s*TITLE\s*:?\s*\*?\*?\s*$] and [^\s*TITLE\s*:?\s*$],
    compiled with IGNORECASE. *)
Definition starred_header (title : string) : regex :=
  seq [Bol; spaces; star_char; opt star_char; spaces; lit_i title; spaces;
       opt (chr ":"); spaces; opt star_char; opt star_char; spaces; Eol].

Definition plain_header (title : string) : regex :=
  seq [Bol; spaces; lit_i title; spaces; opt (chr ":"); spaces; Eol].

Definition _CUT_SECTION_HEADERS : list regex :=
  [starred_header "Changes Made";
   starred_header "Workspace Suggestions";
   plain_header "Changes Made";
   plain_header "Workspace Suggestions"].

(** [^\s*PHRASE\b.*$] *)
Definition opening (phrase : list regex) : regex :=
  seq ([Bol; spaces] ++ phrase ++ [WordB; any_text; Eol]).

Definition office : regex :=
  alt (lit_i "Office of") [lit_i "Assemblymember"; lit_i "Senator"].

Definition _DROP_LINE_PATTERNS : list regex :=
  [opening [lit_i "Based on the provided resume"];
   opening [lit_i "Here is "; Alt (Seq (lit_i "a") (opt (lit_i "n"))) (lit_i "the");
            WordB; any_text; Alt (lit_i "resume") (lit_i "cover letter")];
   opening [lit_i "I've made the necessary changes"];
   opening [lit_i "Here's the optimized resume"];
   opening [lit_i "This "; Alt (lit_i "directory") (lit_i "file");
            lit_i " contains"];
   opening [lit_i "I am excited to apply for"];
   opening [lit_i "I am applying for"];
   opening [lit_i "optimized it for"; WordB; any_text; WordB; office];
   opening [lit_i "optimized resume"; WordB; any_text; WordB; office]].

(** [^\s*\*\*WORD\*\*\s*:\s*$] and [^\s*WORD\s*:\s*$] *)
Definition bold_section (word : string) : regex :=
  seq [Bol; spaces; lit "**"; lit_i word; lit "**"; spaces; chr ":"; spaces;
       Eol].

Definition plain_section (word : string) : regex :=
  seq [Bol; spaces; lit_i word; spaces; chr ":"; spaces; Eol].

Definition _SECTION_START_HINTS : list regex :=
  [bold_section "Summary"; plain_section "Summary";
   bold_section "Experience"; plain_section "Experience";
   bold_section "Education"; plain_section "Education";
   bold_section "Skills"; plain_section "Skills"].

(** [^\s*\*\*[^*]{3,}\*\*\s*$] *)
Definition bold_name : regex :=
  let x := Cls (CNotChar "*") in
  seq [Bol; spaces; lit "**"; x; x; x; Star x; lit "**"; spaces; Eol].

Definition cut_re : regex :=
  match _CUT_SECTION_HEADERS with
  | [] => Eps
  | r :: rs => alt r rs
  end.

Definition is_cut (line : pystr) : bool := re_match cut_re line.

Definition is_dropped (line : pystr) : bool :=
  existsb (fun r => re_match r line) _DROP_LINE_PATTERNS.

Definition is_section_start (line : pystr) : bool :=
  existsb (fun r => re_match r line) _SECTION_START_HINTS.

Definition is_bold_name (line : pystr) : bool := re_match bold_name line.

(** The scan for the first likely section, over the lines from index
    [i] on; 0 when none is found. *)
Fixpoint find_start (i : Z) (lines : list pystr) : Z :=
  match lines with
  | [] => 0
  | line :: rest =>
      if is_section_start line then Z.max 0 (i - 2)
      else if is_bold_name line then i
      else find_start (i + 1) rest
  end.

(** The whitespace normalization, [blank_run] counting the blank lines
    just passed. *)
Fixpoint squeeze (blank_run : Z) (lines : list pystr) : list pystr :=
  match lines with
  | [] => []
  | line :: rest =>
      if negb (truthy (strip line))
      then
        let blank_run := blank_run + 1 in
        (if blank_run <=? 2 then [[]] else []) ++ squeeze blank_run rest
      else rstrip line :: squeeze 0 rest
  end.

(** The lines left by steps 1 and 2. *)
Definition filtered_lines (text : pystr) : list pystr :=
  let lines := splitlines text in
  let kept := take_while (fun line => negb (is_cut line)) lines in
  List.filter (fun line => negb (is_dropped line)) kept.

Definition sanitize_resume_text (text : pystr) : pystr :=
  if negb (truthy text) then []
  else
    let filtered := filtered_lines text in
    let start_idx := find_start 0 (slice_to filtered 60) in
    let filtered := slice_from filtered start_idx in
    let out := squeeze 0 filtered in
    strip (join [LF] out).

End Sanitizer.

(** ** Loaders ([app/ingestion/loaders.py]) *)

Module Loaders.
Import VectorStore Sanitizer.

(** A path below the sources directory, with what the libraries that
    read it return: [rel] holds the components of the path relative to
    the sources directory ([None] when [relative_to] fails); the three
    readers are [pypdf] (the text of each page), [python-docx] (the
    text of each paragraph) and [Path.read_text]. *)
Record path : Type := {
  name : pystr;
  rel : option (list pystr);
  is_file : bool;
  pdf_pages : result (list pystr);
  docx_paragraphs : result (list pystr);
  read_text : result pystr
}.

(** [str.rfind(".")]: [cur] is the index of the character read and
    [best] the last index found so far. *)
Fixpoint rfind_dot (cur best : Z) (s : pystr) : Z :=
  match s with
  | [] => best
  | c :: s' => rfind_dot (cur + 1)
                 (if bool_decide (c = "."%char) then cur else best) s'
  end.

(** [PurePath.suffix] of a file name. *)
Definition suffix (name : pystr) : pystr :=
  let i := rfind_dot 0 (-1) name in
  if (0 <? i) && (i <? len name - 1) then slice_from name i else [].

Definition _load_pdf (file_path : path) : result pystr :=
  pages ← pdf_pages file_path;
  Ok (join [LF; LF] (List.filter truthy pages)).

Definition _load_docx (file_path : path) : result pystr :=
  paragraphs ← docx_paragraphs file_path;
  Ok (join [LF] (List.filter (fun t => truthy (strip t)) paragraphs)).

Definition _load_txt (file_path : path) : result pystr :=
  read_text file_path.

Definition load_document (file_path : path) (doc_type : pystr)
  : result (pystr * gmap (list ascii) pyval) :=
  let sfx := lower (suffix (name file_path)) in
  text ←
    (if bool_decide (sfx = py ".pdf") then _load_pdf file_path
     else if bool_decide (sfx ∈ [py ".docx"; py ".doc"])
          then _load_docx file_path
     else if bool_decide (sfx ∈ [py ".txt"; py ".md"; py ".markdown"])
          then _load_txt file_path
     else Raise ValueError);
  let metadata : gmap (list ascii) pyval :=
    <[py "doc_type" := PStr doc_type]>
      (<[py "source" := PStr (name file_path)]> ∅) in
  let cleaned := strip text in
  if bool_decide (doc_type = py "resume")
  then Ok (sanitize_resume_text cleaned,
           <[py "sanitized" := PBool true]> metadata)
  else Ok (cleaned, metadata).

Definition _infer_doc_type (file_path : path) : pystr :=
  match rel file_path with
  | Some (folder :: _) =>
      let folder := lower folder in
      if bool_decide (folder = py "resumes") then py "resume"
      else if bool_decide (folder = py "experiences") then py "experience"
      else if bool_decide (folder = py "books") then py "book"
      else py "experience"
  | _ => py "experience"
  end.

Definition supported : list pystr :=
  [py ".pdf"; py ".docx"; py ".doc"; py ".txt"; py ".md"; py ".markdown"].

(** What the scan produces: the pairs yielded and the warnings
    printed, a warning naming the file and the exception. *)
Record scanned : Type := {
  yielded : list (pystr * gmap (list ascii) pyval);
  printed : list (pystr * exn)
}.

Definition nothing : scanned := {| yielded := []; printed := [] |}.

Definition scanned_app (a b : scanned) : scanned :=
  {| yielded := yielded a ++ yielded b; printed := printed a ++ printed b |}.

(** One turn of the loop of [load_documents_from_dir]. *)
Definition scan_path (file_path : path) : scanned :=
  if is_file file_path
     && bool_decide (lower (suffix (name file_path)) ∈ supported)
  then
    let doc_type := _infer_doc_type file_path in
    match load_document file_path doc_type with
    | Ok (text, metadata) =>
        if truthy text
        then {| yielded := [(text, metadata)]; printed := [] |}
        else nothing
    | Raise e => {| yielded := []; printed := [(name file_path, e)] |}
    end
  else nothing.

(** [sources_dir.rglob("*")] is the list of paths found, [None] when
    the directory does not exist. *)
Definition load_documents_from_dir (sources_dir : option (list path))
  : scanned :=
  match sources_dir with
  | None => nothing
  | Some paths =>
      foldl (fun acc file_path => scanned_app acc (scan_path file_path))
            nothing paths
  end.

End Loaders.

(** ** Retrieval ([app/retrieval/rag.py]) *)

Module Rag.
Import Regex.

Definition CA_LEG_KEYWORDS : list pystr :=
  py <$> ["legislative"; "constituent"; "policy"; "committee"; "hearing";
          "briefing"; "assembly"; "senate"; "district"; "campaign";
          "constituency"; "bill"; "amendment"; "stakeholder";
          "appropriations"; "budget"; "analysis"; "communications";
          "outreach"; "scheduling"; "correspondence"]%string.

(** [^[\*\-]\s*(.+?)(?:\n|$)] with MULTILINE and IGNORECASE *)
Definition bullet_re : regex :=
  seq [BolM; Cls (COneOf ["*"; "-"]%char); spaces;
       Group (plus_lazy (Cls CAny)); Alt (chr LF) EolM].

Definition upper_az : regex := Cls (CRange "A" "Z").
Definition lower_az : regex := Cls (CRange "a" "z").

(** [\b([A-Z][a-z]+(?:\s+[A-Z][a-z]+)+)\b] *)
Definition capitalized_re : regex :=
  seq [WordB;
       Group (seq [upper_az; plus lower_az;
                   plus (seq [plus (Cls CSpace); upper_az; plus lower_az])]);
       WordB].

(** [\b([a-z]{4,})\b] *)
Definition word_re : regex :=
  seq [WordB;
       Group (seq [lower_az; lower_az; lower_az; lower_az; Star lower_az]);
       WordB].

Definition stop : gset (list ascii) :=
  list_to_set (py <$> ["that"; "this"; "with"; "from"; "have"; "will";
                       "your"; "they"; "when"; "what"]%string).

(** The set [seen] and the list [keywords]. *)
Definition collected : Type := gset (list ascii) * list pystr.

(** [keywords.append(w); seen.add(w)] *)
Definition add (st : collected) (w : pystr) : collected :=
  ({[w]} ∪ st.1, st.2 ++ [w]).

Definition add_term (text_lower : pystr) (st : collected) (term : pystr)
  : collected :=
  if contains term text_lower && negb (bool_decide (term ∈ st.1))
  then add st term else st.

Definition add_bullet_word (st : collected) (w : pystr) : collected :=
  let wl := lower w in
  if negb (bool_decide (wl ∈ st.1)) && (2 <? len wl) then add st wl else st.

Definition add_bullet (st : collected) (group1 : pystr) : collected :=
  let phrase := slice_to (strip group1) 60 in
  let words :=
    slice_to (List.filter (fun w => 2 <? len w) (split_nonword phrase)) 5 in
  foldl add_bullet_word st words.

Definition add_capitalized (st : collected) (group1 : pystr) : collected :=
  let phrase := lower group1 in
  if negb (bool_decide (phrase ∈ st.1))
     && (3 <=? len phrase) && (len phrase <=? 40)
  then add st phrase else st.

Definition add_word (st : collected) (w : pystr) : collected :=
  if negb (bool_decide (w ∈ st.1)) && negb (bool_decide (w ∈ stop))
  then add st w else st.

(** The set [seen] and the list [keywords] before the final slice. *)
Definition collect_keywords (text : pystr) : collected :=
  let text_lower := lower text in
  let st := foldl (add_term text_lower) (∅, []) CA_LEG_KEYWORDS in
  let st := foldl add_bullet st (finditer_group1 bullet_re text) in
  let st := foldl add_capitalized st (finditer_group1 capitalized_re text) in
  foldl add_word st (finditer_group1 word_re text_lower).

Definition extract_keywords (text : pystr) (max_keywords : Z) : list pystr :=
  if negb (truthy text) || negb (truthy (strip text)) then []
  else slice_to (collect_keywords text).2 max_keywords.

End Rag.

Module DemoFiles.
Import VectorStore Loaders.

(** A text whose only section header lies beyond the first 60 lines:
    [x], 60 blank lines, then [a], [b], [c] and [Summary:]. *)
Definition late_header : pystr :=
  py "x" ++ replicate 61 LF ++ py "a" ++ [LF] ++ py "b" ++ [LF] ++ py "c"
     ++ [LF] ++ py "Summary:".

(** [resumes/r.txt], holding only a meta section. *)
Definition meta_only_resume : path :=
  {| name := py "r.txt";
     rel := Some [py "resumes"; py "r.txt"];
     is_file := true;
     pdf_pages := Raise ValueError;
     docx_paragraphs := Raise ValueError;
     read_text := Ok (py "Changes Made:" ++ [LF] ++ py "tightened the summary") |}.

(** [experiences/e.txt] *)
Definition experience_note : path :=
  {| name := py "e.txt";
     rel := Some [py "experiences"; py "e.txt"];
     is_file := true;
     pdf_pages := Raise ValueError;
     docx_paragraphs := Raise ValueError;
     read_text := Ok (py "Drafted bill analyses.") |}.

Definition job_text : pystr :=
  py "We seek a Legislative Assistant." ++ [LF]
     ++ py "- Draft correspondence for the Senator".

End DemoFiles.

Module RagSpec.
Import Rag.

(** Every keyword collected is in [seen], and no keyword is collected
    twice. *)
Definition tidy (st : collected) : Prop :=
  NoDup st.2 /\ forall w, w ∈ st.2 -> w ∈ st.1.

End RagSpec.

(** ** The states a match can reach on a line

    A decision procedure for facts about [re_match] on every line: the
    states the matcher can reach are computed once for a pattern, over
    one character of each kind the pattern can tell apart, and a fact is
    checked on each of them. *)

Module MatchStates.
Import Regex.

(** The characters of a line: every character but the line feed. *)
Definition line_chars : list ascii :=
  List.filter (fun c => negb (bool_decide (c = LF)))
    (ascii_of_nat <$> List.seq 0 256).

Fixpoint classes (r : regex) : list cls :=
  match r with
  | Cls k => [k]
  | Seq a b | Alt a b => classes a ++ classes b
  | Star a | StarLazy a | Group a => classes a
  | Eps | Bol | Eol | BolM | EolM | WordB => []
  end.

(** The classes a pattern tells characters apart by, whitespace first. *)
Definition distinctions (r : regex) : list cls :=
  CSpace :: remove_dups (classes r).

(** What a matcher whose classes are [ks] sees of a character. *)
Definition signature (ks : list cls) (c : ascii) : bool * list bool :=
  (is_word c, (fun k => cls_matches k c) <$> ks).

(** One character of each signature. *)
Fixpoint one_of_each (ks : list cls) (seen : list (bool * list bool))
    (cs : list ascii) : list ascii :=
  match cs with
  | [] => []
  | c :: cs' =>
      let sg := signature ks c in
      if bool_decide (sg ∈ seen) then one_of_each ks seen cs'
      else c :: one_of_each ks (sg :: seen) cs'
  end.

Definition alphabet (r : regex) : list ascii :=
  one_of_each (distinctions r) [] line_chars.

Definition covers (ks : list cls) (A : list ascii) : bool :=
  let sigs := signature ks <$> A in
  forallb (fun c => bool_decide (signature ks c ∈ sigs)) line_chars.

Definition successors (A : list ascii) (q : state) : list state :=
  remove_dups ((fun c => advance q c false) <$> A).

(** The states reachable from those of [todo], added to [seen]. *)
Fixpoint saturate (A : list ascii) (fuel : nat) (seen todo : list state)
  : list state :=
  match fuel with
  | O => seen
  | S fuel' =>
      match todo with
      | [] => seen
      | q :: todo' =>
          let new := List.filter (fun q' => negb (bool_decide (q' ∈ seen)))
                       (successors A q) in
          saturate A fuel' (seen ++ new) (todo' ++ new)
      end
  end.

Definition states_of (r : regex) : list state :=
  saturate (alphabet r) 1000 [start r] [start r].

(** [Q] holds the start state and is closed under the characters of
    [A], and its stacks are made of the classes [ks]. *)
Definition closed (r : regex) (ks : list cls) (A : list ascii)
    (Q : list state) : bool :=
  bool_decide (start r ∈ Q)
  && forallb (fun q =>
                forallb (fun k => forallb (fun r' =>
                           forallb (fun c => bool_decide (c ∈ ks))
                                   (classes r')) k) (stacks q)
                && forallb (fun c => bool_decide (advance q c false ∈ Q)) A)
             Q.

(** No state of [Q] accepts before the end of a line. *)
Definition ends_only (A : list ascii) (Q : list state) : bool :=
  forallb (fun q => forallb (fun c => negb (accepts q (Some c) false)) A) Q.

(** Acceptance at the end is the same after one more whitespace
    character. *)
Definition trailing_blind (A : list ascii) (Q : list state) : bool :=
  forallb (fun q =>
             forallb (fun c =>
                        bool_decide (accepts (advance q c false) None false
                                     = accepts q None false))
                     (List.filter is_space A)) Q.

(** After a leading whitespace character the match goes on as from the
    start. *)
Definition leading_blind (r : regex) (A : list ascii) : bool :=
  forallb (fun c =>
             bool_decide (accepts (advance (start r) c false) None false
                          = accepts (start r) None false)
             && forallb (fun d =>
                           bool_decide
                             (advance (advance (start r) c false) d false
                              = advance (start r) d false)) A)
          (List.filter is_space A).

(** The classes of the stacks of [q] are among [ks]. *)
Definition made_of (ks : list cls) (q : state) : Prop :=
  forall k r cl, k ∈ stacks q -> r ∈ k -> cl ∈ classes r -> cl ∈ ks.

(** One more character of a line. *)
Definition after (q : state) (c : ascii) : state := advance q c false.

(** The checks that make a pattern blind to whitespace at the ends of a
    line, for the classes [ks], the alphabet [A] and the states [Q]. *)
Definition certificate (r : regex) (ks : list cls) (A : list ascii)
    (Q : list state) : bool :=
  bool_decide (CSpace ∈ ks)
  && forallb (fun c => negb (bool_decide (c = LF))) A
  && covers ks A && closed r ks A Q && ends_only A Q
  && trailing_blind A Q && leading_blind r A.

(** The pattern [r] cannot tell a line from the line with whitespace
    added or removed at its ends. *)
Abbreviation certified r :=
  (certificate r (distinctions r) (alphabet r) (states_of r)).

End MatchStates.

(** ** What the sanitizer leaves *)

Module SanitizerSpec.
Import Sanitizer.

(** A text that does not start, or does not end, with whitespace. *)
Definition starts_dark (s : pystr) : Prop :=
  match s with
  | [] => True
  | c :: _ => is_space c = false
  end.

Definition ends_dark (s : pystr) : Prop := starts_dark (rev s).

(** A line holds no line boundary. *)
Definition one_line (l : pystr) : Prop :=
  Forall (fun c => is_linebreak c = false) l.

(** A line as the normalization leaves it. *)
Definition tidy_line (l : pystr) : Prop := one_line l /\ ends_dark l.

(** The lines of the text made of the lines [out] once it is trimmed:
    the empty lines at both ends are gone and the first line has lost its
    leading whitespace. *)
Definition core (out : list pystr) : list pystr :=
  match drop_while is_nil out with
  | [] => []
  | l :: rest => lstrip l :: rev (drop_while is_nil (rev rest))
  end.

(** The line stops the scan for the first section. *)
Definition hit (line : pystr) : bool :=
  is_section_start line || is_bold_name line.

(** Two lines that the four tests of the sanitizer do not tell apart. *)
Definition same_kind (l l' : pystr) : Prop :=
  is_cut l' = is_cut l /\ is_dropped l' = is_dropped l /\
  is_section_start l' = is_section_start l /\
  is_bold_name l' = is_bold_name l.

(** [thinned X Y]: the lines [X] are those of [Y], each replaced by a
    line of the same kind, some lines that do not stop the scan being
    left out. *)
Inductive thinned : list pystr -> list pystr -> Prop :=
| thinned_nil : thinned [] []
| thinned_keep l l' X Y :
    same_kind l l' -> thinned X Y -> thinned (l' :: X) (l :: Y)
| thinned_drop l X Y :
    hit l = false -> thinned X Y -> thinned X (l :: Y).

(** The scan for the first section is not cut short by its window of 60
    lines: a line that stops it lies within the first 60 lines left by
    the truncation and the line filter, or no line left stops it. *)
Definition scan_complete (text : pystr) : Prop :=
  let filtered := filtered_lines text in
  existsb hit (slice_to filtered 60) = true \/ existsb hit filtered = false.

(** The patterns of the sanitizer. *)
Definition patterns : list Regex.regex :=
  cut_re :: bold_name :: _DROP_LINE_PATTERNS ++ _SECTION_START_HINTS.

End SanitizerSpec.

(** ** Chunking documents ([app/ingestion/chunker.py]) *)

Module ChunkDocuments.
Import VectorStore Chunker.

(** [{**metadata, "chunk_index": i}] *)
Definition chunk_meta (metadata : gmap (list ascii) pyval) (i : Z)
  : gmap (list ascii) pyval :=
  <[py "chunk_index" := PInt i]> metadata.

(** [enumerate(chunks)] turned into the pairs yielded for one document. *)
Definition numbered (metadata : gmap (list ascii) pyval)
    (chunks : list pystr) : list (pystr * gmap (list ascii) pyval) :=
  imap (fun i chunk => (chunk, chunk_meta metadata (Z.of_nat i))) chunks.

(** The generator [chunk_documents], read to its end: the pairs it
    yields and the exception that ends it, if any. *)
Fixpoint chunk_documents (documents : list (pystr * gmap (list ascii) pyval))
    (chunk_size overlap : Z)
  : list (pystr * gmap (list ascii) pyval) * option exn :=
  match documents with
  | [] => ([], None)
  | (text, metadata) :: documents' =>
      match chunk_text text chunk_size overlap with
      | Raise e => ([], Some e)
      | Ok chunks =>
          let rest := chunk_documents documents' chunk_size overlap in
          (numbered metadata chunks ++ rest.1, rest.2)
      end
  end.

End ChunkDocuments.

Module VectorStoreMore.
Section WithBackend.
Context {B : Backend}.
Import VectorStore.

(** A value the store keeps as it is: [str], [int], [float] or [bool]. *)
Definition scalar (v : pyval) : Prop :=
  match v with
  | PBool _ | PInt _ | PFloat _ | PStr _ => True
  | PNone | PListOrDict _ | PObject _ _ => False
  end.

(** Every vector of the index has the dimension of the index. *)
Definition well_dimensioned (s : store) : Prop :=
  forall ix, _index s = Some ix -> Forall (fun v => len v = d ix) (xb ix).

(** A new store on the files and with the settings of [s]. *)
Definition reopen (s : store) : result store :=
  __init__ (embedding_model s) (ollama_host s) (index_file s) (meta_file s).

(** The chunk and the metadata of a search result stand at one position
    of the store. *)
Definition located (s : store) (h : hit) : Prop :=
  exists i : nat,
    _chunks s !! i = Some (content h) /\
    _metadatas s !! i = Some (metadata_of h).

(** How a metadata record is stored: the same keys, scalar values only,
    the scalar values of the record unchanged. *)
Definition stored_as (m c : gmap (list ascii) pyval) : Prop :=
  forall k,
    c !! k = clean_value <$> (m !! k) /\
    (forall v, c !! k = Some v -> scalar v) /\
    (forall v, m !! k = Some v -> scalar v -> c !! k = Some v).

End WithBackend.
End VectorStoreMore.

Module DemoStores.
Import VectorStore Demo.

(** An index holding one vector of dimension 2. *)
Definition wide_index : index (B := demo_backend) :=
  @IndexFlatIP_of demo_backend 2 [[1; 0]].

(** A store with that index, as left by an embedding model other than
    the one now configured. *)
Definition wide_store : store (B := demo_backend) :=
  {| embedding_model := py "nomic-embed-text";
     ollama_host := py "http://localhost:11434";
     _index := Some wide_index;
     _chunks := [py "a"];
     _metadatas := [meta_of "r.txt" "resume"];
     index_file := Readable wide_index;
     meta_file := Readable (JObject (Some [py "a"])
                              (Some [meta_of "r.txt" "resume"])) |}.

End DemoStores.

(** ** Uploaded files ([load_uploaded_file] of [app/ingestion/loaders.py]) *)

Module Uploads.
Import Loaders.

(** A Streamlit [UploadedFile], with what the libraries that read its
    bytes return: [name_attr] is its attribute [name], [None] when it
    has none; [decoded] is [data.decode("utf-8", errors="replace")],
    which never fails. *)
Record uploaded_file : Type := {
  name_attr : option pystr;
  upload_pdf_pages : result (list pystr);
  upload_docx_paragraphs : result (list pystr);
  decoded : pystr
}.

Definition load_uploaded_file (uploaded : uploaded_file) : result pystr :=
  let name := default (py "file") (name_attr uploaded) in
  let sfx := lower (suffix name) in
  if bool_decide (sfx = py ".pdf")
  then
    pages ← upload_pdf_pages uploaded;
    Ok (join [LF; LF] (List.filter truthy pages))
  else if bool_decide (sfx ∈ [py ".docx"; py ".doc"])
  then
    paragraphs ← upload_docx_paragraphs uploaded;
    Ok (join [LF] (List.filter (fun t => truthy (strip t)) paragraphs))
  else if bool_decide (sfx ∈ [py ".txt"; py ".md"; py ".markdown"])
  then Ok (decoded uploaded)
  else Raise ValueError.

(** A file on disk and an upload with the same name that the libraries
    read alike. *)
Definition same_file (file_path : path) (uploaded : uploaded_file) : Prop :=
  name_attr uploaded = Some (name file_path) /\
  upload_pdf_pages uploaded = pdf_pages file_path /\
  upload_docx_paragraphs uploaded = docx_paragraphs file_path /\
  read_text file_path = Ok (decoded uploaded).

End Uploads.

(** ** Retrieval ([build_augmented_query] and [retrieve_context] of
    [app/retrieval/rag.py]) *)

Module Retrieval.
Import VectorStore Rag.

Definition build_augmented_query (job_description : pystr) : pystr :=
  let keywords := extract_keywords job_description 25 in
  if negb (truthy keywords) then job_description
  else
    let kw_block := join (py " ") keywords in
    job_description ++ [LF; LF] ++ py "Keywords for matching: " ++ kw_block.

(** An entry of [chunks_for_preview]. *)
Record preview : Type := {
  preview_content : pystr;
  preview_source : pyval;
  preview_doc_type : pyval
}.

(** [metadata.get(key, "unknown")] *)
Definition get_or_unknown (m : gmap (list ascii) pyval) (key : pystr)
  : pyval :=
  default (PStr (py "unknown")) (m !! key).

Section WithBackend.
Context {B : Backend}.

(** [repr] of the float with a given bit pattern. *)
Variable float_repr : Z -> pystr.

(** A value as an f-string prints it. *)
Definition format_value (v : pyval) : pystr :=
  match v with
  | PNone => py "None"
  | PBool b => if b then py "True" else py "False"
  | PInt n => py (pretty n)
  | PFloat bits => float_repr bits
  | PStr s => s
  | PListOrDict repr => repr
  | PObject repr _ => repr
  end.

Definition to_preview (r : hit) : preview :=
  {| preview_content := content r;
     preview_source := get_or_unknown (metadata_of r) (py "source");
     preview_doc_type := get_or_unknown (metadata_of r) (py "doc_type") |}.

(** [f"[Source: {source} ({doc_type})]\n{r['content']}"] *)
Definition context_part (r : hit) : pystr :=
  let source := get_or_unknown (metadata_of r) (py "source") in
  let doc_type := get_or_unknown (metadata_of r) (py "doc_type") in
  py "[Source: " ++ format_value source ++ py " (" ++ format_value doc_type
  ++ py ")]" ++ [LF] ++ content r.

Definition retrieve_context (query : pystr) (top_k : Z)
    (include_doc_types : option (list pystr))
    (use_keyword_augmentation : bool) : M (pystr * list preview) :=
  fun s =>
    let search_query :=
      if use_keyword_augmentation then build_augmented_query query
      else query in
    match search search_query top_k include_doc_types s with
    | (Raise e, s') => (Raise e, s')
    | (Ok results, s') =>
        let chunks_for_preview := to_preview <$> results in
        let context_parts := context_part <$> results in
        let context :=
          join ([LF; LF] ++ py "---" ++ [LF; LF]) context_parts in
        (Ok (context, chunks_for_preview), s')
    end.

End WithBackend.
End Retrieval.

(** ** The indexing action ([Process & Index] of [app/main.py])

    The body of the button handler, without its calls to the user
    interface: what it reports is the [outcome]. *)

Module Indexing.
Import VectorStore Loaders ChunkDocuments.

Definition CHUNK_SIZE : Z := 800.
Definition CHUNK_OVERLAP : Z := 100.

Inductive outcome : Set :=
| ModelsRequired
| NoDocuments
| Indexed (documents added : Z)
| IndexingFailed (e : exn).

Section WithBackend.
Context {B : Backend} {F : VectorStore.FileSystem}.

(** [ok] tells whether the Ollama models were found; [sources_dir] is
    what [SOURCES_DIR.rglob("*")] lists. *)
Definition process_and_index (ok : bool) (sources_dir : option (list path))
    (s : store) : outcome * store :=
  if negb ok then (ModelsRequired, s)
  else
    let docs := yielded (load_documents_from_dir sources_dir) in
    if negb (truthy docs) then (NoDocuments, s)
    else
      match chunk_documents docs CHUNK_SIZE CHUNK_OVERLAP with
      | (_, Some e) => (IndexingFailed e, s)
      | (chunks, None) =>
          match clear s with
          | (Raise e, s1) => (IndexingFailed e, s1)
          | (Ok _, s1) =>
              let chunk_texts := fst <$> chunks in
              let chunk_metas := snd <$> chunks in
              match add_chunks chunk_texts chunk_metas 32 s1 with
              | (Ok added, s2) => (Indexed (len docs) added, s2)
              | (Raise e, s2) => (IndexingFailed e, s2)
              end
          end
      end.

End WithBackend.
End Indexing.

Module LoadersSpec.
Import VectorStore Loaders.

(** The text read from a file with a supported suffix. *)
Definition read_by_suffix (file_path : path) : result (list ascii) :=
  let sfx := lower (suffix (name file_path)) in
  if bool_decide (sfx = py ".pdf") then _load_pdf file_path
  else if bool_decide (sfx ∈ [py ".docx"; py ".doc"])
       then _load_docx file_path
       else _load_txt file_path.

(** What one document of a scan is, given the file it comes from. *)
Definition loaded_from (file_path : path)
    (doc : list ascii * gmap (list ascii) pyval) : Prop :=
  is_file file_path = true /\
  lower (suffix (name file_path)) ∈ supported /\
  load_document file_path (_infer_doc_type file_path) = Ok doc /\
  doc.1 <> [] /\ strip doc.1 = doc.1 /\
  doc.2 !! py "source" = Some (PStr (name file_path)) /\
  (exists doc_type,
      doc_type ∈ [py "resume"; py "experience"; py "book"] /\
      doc.2 !! py "doc_type" = Some (PStr doc_type) /\
      doc.2 !! py "sanitized"
      = (if bool_decide (doc_type = py "resume") then Some (PBool true)
         else None)).

(** What one warning of a scan is, given the file it is about. *)
Definition warned_about (file_path : path) (w : list ascii * exn) : Prop :=
  is_file file_path = true /\
  lower (suffix (name file_path)) ∈ supported /\
  w.1 = name file_path /\
  read_by_suffix file_path = Raise w.2.

End LoadersSpec.

Module KeywordSteps.
Import Rag.

(** A step that only appends to the list of keywords. *)
Definition appends {A} (f : collected -> A -> collected) : Prop :=
  forall st x, exists more, (f st x).2 = st.2 ++ more.

End KeywordSteps.


Module SanitizerLines.
Import Sanitizer SanitizerSpec.

(** The lines of the result: what the first pass leaves of the text. *)
Definition result_lines (text : list ascii) : list (list ascii) :=
  let filtered := filtered_lines text in
  let start_idx := find_start 0 (slice_to filtered 60) in
  core (squeeze 0 (slice_from filtered start_idx)).

End SanitizerLines.

Module DemoResumes.

(** A tailored resume as a language model returns it: a framing line,
    the resume under a bold name, and a list of the changes made. *)
Definition tailored_resume : pystr :=
  py "Here is the optimized resume:" ++ [LF]
     ++ [LF]
     ++ py "**Jane Doe**" ++ [LF]
     ++ py "Summary:" ++ [LF]
     ++ py "Drafted bill analyses.  " ++ [LF]
     ++ py "Changes Made:" ++ [LF]
     ++ py "tightened the summary".

End DemoResumes.

Module SearchOrder.
Section WithBackend.
Context {B : Backend}.
Import VectorStore.

(** The result that a candidate of the index gives under a doc-type
    filter: none for the padding position [-1], for a position beyond
    the chunks and for a doc type outside a non-empty filter; else the
    chunk and the metadata at its position, with its score turned into
    a distance. *)
Definition selected (s : store) (filt : list pystr) (cand : Z * float)
  : option hit :=
  if (cand.1 <? 0) || (len (_chunks s) <=? cand.1) then None
  else
    meta ← _metadatas s !! Z.to_nat cand.1;
    if truthy filt && negb (val_in (meta !! py "doc_type") filt) then None
    else
      chunk ← _chunks s !! Z.to_nat cand.1;
      Some {| content := chunk; metadata_of := meta;
              distance := f_sub f_one cand.2 |}.

End WithBackend.
End SearchOrder.

(** * Properties *)

(** ** Slices and ranges *)

Lemma len_app {A} (l k : list A) : len (l ++ k) = len l + len k.
Proof. unfold len. rewrite length_app. lia. Qed.

Lemma len_nonneg {A} (l : list A) : 0 <= len l.
Proof. unfold len. lia. Qed.

Lemma slice_nonneg {A} (l : list A) (a b : Z) :
  0 <= a <= b ->
  slice l a b = take (Z.to_nat (b - a)) (drop (Z.to_nat a) l).
Proof.
  intros Hab. unfold slice, slice_index, len.
  destruct (Z.ltb_spec a 0); [lia|].
  destruct (Z.ltb_spec b 0); [lia|].
  destruct (Z.le_gt_cases (Z.of_nat (length l)) a) as [Hge|Hlt].
  - rewrite !drop_ge by lia. by rewrite !take_nil.
  - rewrite (Z.min_r _ a) by lia.
    destruct (Z.le_gt_cases (Z.of_nat (length l)) b).
    + rewrite Z.min_l by lia.
      rewrite !take_ge; [done| |]; rewrite length_drop; lia.
    + by rewrite Z.min_r by lia.
Qed.

Lemma slice_from_nonneg {A} (l : list A) (a : Z) :
  0 <= a -> slice_from l a = drop (Z.to_nat a) l.
Proof.
  intros Ha. unfold slice_from, slice_index, len.
  destruct (Z.ltb_spec a 0); [lia|].
  destruct (Z.le_gt_cases (Z.of_nat (length l)) a).
  - rewrite !drop_ge; [done| |]; lia.
  - by rewrite Z.min_r by lia.
Qed.

Lemma py_range_pos (stop step : Z) :
  0 < step -> 0 <= stop ->
  py_range 0 stop step =
    Ok ((fun k => k * step) <$> seqZ 0 ((stop + step - 1) / step)).
Proof.
  intros Hstep Hstop. unfold py_range.
  destruct (Z.eqb_spec step 0); [lia|].
  destruct (Z.ltb_spec 0 step); [|lia].
  rewrite Z.max_r by (apply Z.div_pos; lia).
  f_equal. rewrite Z.sub_0_r. apply list_fmap_ext. intros _ k _. lia.
Qed.

(** The windows of length [size] taken every [size - overlap] characters
    cover the text: dropping the first [overlap] characters of each
    window after the first and concatenating gives the text back. *)
Lemma rejoin_tail_windows {A} (l : list A) (size overlap : Z) (m : nat) :
  0 <= overlap < size ->
  take (Z.to_nat size) l ++
    concat ((fun ch => slice_from ch overlap) <$>
              ((fun i => slice l i (i + size)) <$>
                 ((fun k => k * (size - overlap)) <$> seqZ 1 (Z.of_nat m))))
  = take (Z.to_nat (Z.of_nat m * (size - overlap) + size)) l.
Proof.
  intros Hso. induction m as [|m IH].
  - simpl. rewrite app_nil_r. f_equal; lia.
  - rewrite seqZ_S, !fmap_app, concat_app, app_assoc, IH. simpl.
    rewrite app_nil_r.
    rewrite slice_nonneg by nia.
    rewrite slice_from_nonneg by lia.
    replace (Z.to_nat ((1 + Z.of_nat m) * (size - overlap) + size
                       - (1 + Z.of_nat m) * (size - overlap)))
      with (Z.to_nat overlap + Z.to_nat (size - overlap))%nat by lia.
    rewrite <- take_drop_commute, drop_drop.
    replace (Z.to_nat ((1 + Z.of_nat m) * (size - overlap)) + Z.to_nat overlap)%nat
      with (Z.to_nat (Z.of_nat m * (size - overlap) + size)) by nia.
    rewrite take_take_drop. f_equal. nia.
Qed.

Lemma rejoin_windows {A} (l : list A) (size overlap : Z) (starts : list Z) :
  0 <= overlap < size ->
  py_range 0 (len l) (size - overlap) = Ok starts ->
  rejoin overlap ((fun i => slice l i (i + size)) <$> starts) = l.
Proof.
  intros Hso. rewrite py_range_pos by (pose proof (len_nonneg l); lia).
  intros [= <-].
  set (s := size - overlap). set (c := (len l + s - 1) / s).
  assert (Hs : 0 < s) by (unfold s; lia).
  assert (Hc : len l <= c * s /\ 0 <= c).
  { unfold c. pose proof (Z.div_mod (len l + s - 1) s ltac:(lia)) as Hdm.
    pose proof (Z.mod_pos_bound (len l + s - 1) s Hs).
    pose proof (len_nonneg l). split; [nia|]. apply Z.div_pos; lia. }
  clearbody c. subst s.
  destruct (Z.eq_dec c 0) as [Hc0|Hc0].
  - rewrite Hc0. simpl. destruct l; [done|]. unfold len in Hc. simpl in Hc. lia.
  - rewrite seqZ_cons by lia. rewrite !fmap_cons. unfold rejoin.
    change (Z.succ 0) with 1.
    replace (Z.pred c) with (Z.of_nat (Z.to_nat (c - 1))) by lia.
    rewrite slice_nonneg by lia. rewrite Z.mul_0_l, Z.add_0_l, Z.sub_0_r.
    change (Z.to_nat 0) with 0%nat. rewrite drop_0.
    rewrite (rejoin_tail_windows l size overlap (Z.to_nat (c - 1)) Hso).
    apply take_ge. unfold len in Hc. nia.
Qed.

Lemma rejoin_0 {A} (chunks : list (list A)) : rejoin 0 chunks = concat chunks.
Proof.
  destruct chunks as [|c rest]; [done|]. unfold rejoin.
  change (concat (c :: rest)) with (c ++ concat rest). do 2 f_equal.
  rewrite <- (list_fmap_id rest) at 2. apply list_fmap_ext.
  intros _ ch _. by rewrite slice_from_nonneg.
Qed.

Lemma py_range_neg (stop step : Z) :
  step < 0 -> 0 <= stop -> py_range 0 stop step = Ok [].
Proof.
  intros Hstep Hstop. unfold py_range.
  destruct (Z.eqb_spec step 0); [lia|].
  destruct (Z.ltb_spec 0 step); [lia|].
  rewrite Z.max_l; [done|].
  assert ((0 - stop - step - 1) / - step < 1); [|lia].
  apply Z.div_lt_upper_bound; lia.
Qed.

(** ** Vector store *)

Section VectorStoreProps.
Context {B : Backend} {F : VectorStore.FileSystem}.
Import VectorStore VectorStoreSpec.

Ltac unfold_M :=
  unfold mbind, M_bind, mret, M_ret, get, put, lift in *.

Lemma embed_batches_state chunks bs starts acc s r s' :
  embed_batches chunks bs starts acc s = (r, s') -> s' = s.
Proof.
  revert acc. induction starts as [|i starts IH]; intros acc; simpl.
  - unfold_M. by intros [= _ <-].
  - unfold _embed. unfold_M.
    destruct (ollama_embed _ _ _); [apply IH|by intros [= _ <-]].
Qed.

Lemma embed_batches_length chunks bs starts acc s embs s' :
  embed_contract ->
  embed_batches chunks bs starts acc s = (Ok embs, s') ->
  length embs =
    (length acc
     + length (concat ((fun i => slice chunks i (i + bs)) <$> starts)))%nat.
Proof.
  intros Hc. revert acc.
  induction starts as [|i starts IH]; intros acc; cbn [embed_batches].
  - unfold_M. intros [= <- _]. simpl. lia.
  - unfold _embed. unfold_M.
    destruct (ollama_embed _ _ _) as [emb|] eqn:He; [|done].
    intros H. apply IH in H.
    rewrite H, fmap_cons, concat_cons, !length_app.
    apply Hc in He. lia.
Qed.

(** What [_save] does to the store: the object is left as it is, and
    the files are written, the index file first, until a write fails. *)
Lemma _save_inv s r s' :
  _save s = (r, s') ->
  embedding_model s' = embedding_model s /\ ollama_host s' = ollama_host s /\
  _index s' = _index s /\ _chunks s' = _chunks s /\
  _metadatas s' = _metadatas s /\
  match r with
  | Ok _ =>
      index_file s' = match _index s with
                      | Some ix => Readable ix
                      | None => index_file s
                      end /\
      meta_file s' = Readable (JObject (Some (_chunks s))
                                       (Some (_metadatas s)))
  | Raise e =>
      (exists ix, _index s = Some ix /\
                  write_index (index_file s) ix = Some (e, index_file s') /\
                  meta_file s' = meta_file s) \/
      (index_file s' = match _index s with
                       | Some ix => Readable ix
                       | None => index_file s
                       end /\
       write_json (meta_file s)
         (JObject (Some (_chunks s)) (Some (_metadatas s)))
       = Some (e, meta_file s'))
  end.
Proof.
  unfold _save, set_index_file, set_meta_file. unfold_M.
  destruct (_index s) as [ix|] eqn:Hix.
  - destruct (write_index (index_file s) ix) as [[e remains]|] eqn:Hw.
    + intros [= <- <-]. cbn. split_and!; try done. left. by exists ix.
    + cbn. destruct (write_json _ _) as [[e remains]|] eqn:Hj;
        intros [= <- <-]; cbn; split_and!; try done. by right.
  - cbn. destruct (write_json _ _) as [[e remains]|] eqn:Hj;
      intros [= <- <-]; cbn; split_and!; try done. by right.
Qed.

(** What [clear] does to the store: the object is emptied first, then
    the files that exist are removed, the index file first, until a
    removal fails. *)
Lemma clear_inv s r s' :
  clear s = (r, s') ->
  embedding_model s' = embedding_model s /\ ollama_host s' = ollama_host s /\
  _index s' = None /\ _chunks s' = [] /\ _metadatas s' = [] /\
  match r with
  | Ok _ => index_file s' = Absent /\ meta_file s' = Absent
  | Raise e =>
      (exists_ (index_file s) = true /\
       unlink_index (index_file s) = Some e /\
       index_file s' = index_file s /\ meta_file s' = meta_file s) \/
      (exists_ (meta_file s) = true /\
       unlink_json (meta_file s) = Some e /\
       index_file s' = Absent /\ meta_file s' = meta_file s)
  end.
Proof.
  unfold clear, set_index_file, set_meta_file. unfold_M.
  destruct (exists_ (index_file s)) eqn:Hi.
  - destruct (unlink_index (index_file s)) as [e|] eqn:Hu.
    + intros [= <- <-]. cbn. split_and!; try done. by left.
    + cbn. destruct (exists_ (meta_file s)) eqn:Hm.
      * destruct (unlink_json (meta_file s)) as [e|] eqn:Hj;
          intros [= <- <-]; cbn; split_and!; try done. by right.
      * intros [= <- <-]. cbn. split_and!; try done.
        by destruct (meta_file s).
  - cbn. assert (index_file s = Absent) as Ha by (by destruct (index_file s)).
    destruct (exists_ (meta_file s)) eqn:Hm.
    + destruct (unlink_json (meta_file s)) as [e|] eqn:Hj;
        intros [= <- <-]; cbn; split_and!; try done. by right.
    + intros [= <- <-]. cbn. split_and!; try done.
      by destruct (meta_file s).
Qed.

(** What a call of [add_chunks] does to the store. *)
Lemma add_chunks_inv chunks metadatas bs s r s' :
  add_chunks chunks metadatas bs s = (r, s') ->
  (exists e, r = Raise e /\ s' = s) \/
  (chunks = [] /\ r = Ok 0 /\ s' = s) \/
  (exists starts embs ix,
      py_range 0 (len chunks) bs = Ok starts /\
      embed_batches chunks bs starts [] s = (Ok embs, s) /\
      embs <> [] /\
      (r = Ok (len chunks) \/ exists e, r = Raise e) /\
      _index s' = Some ix /\
      xb ix = stored_vectors s ++ (normalize_row <$> embs) /\
      _chunks s' = _chunks s ++ chunks /\
      _metadatas s' = _metadatas s ++ (clean_metadata <$> metadatas)).
Proof.
  unfold add_chunks. destruct chunks as [|c chunks]; simpl.
  { unfold_M. intros [= <- <-]. right; left; done. }
  unfold_M.
  destruct (py_range _ _ _) as [starts|e] eqn:Hr;
    [|intros [= <- <-]; left; eauto].
  destruct (embed_batches _ _ _ _ _) as [[embs|e] s1] eqn:Hb;
    pose proof (embed_batches_state _ _ _ _ _ _ _ Hb) as ->;
    [|intros [= <- <-]; left; eauto].
  destruct (np_array embs) as [vectors|e] eqn:Hv;
    [|intros [= <- <-]; left; eauto].
  destruct (index_add _ _) as [ix|e] eqn:Ha;
    [|intros [= <- <-]; left; eauto].
  destruct (_save _) as [rs s2] eqn:Hs.
  apply _save_inv in Hs as (_ & _ & Hix & Hch & Hmd & _). cbn in Hix, Hch, Hmd.
  intros Hres.
  assert (s' = s2 /\ (r = Ok (len (c :: chunks)) \/ exists e, r = Raise e))
    as [-> Hrr].
  { destruct rs; injection Hres as <- <-; eauto. }
  right; right. exists starts, embs, ix.
  assert (rows vectors = embs /\ embs <> []) as [Hrows Hne].
  { unfold np_array in Hv. destruct embs as [|e0 embs]; [done|].
    destruct (forallb _ _); [|done]. by injection Hv as <-. }
  split_and!; try done.
  unfold index_add in Ha. destruct (_ =? _); [|done].
  injection Ha as <-. simpl. rewrite Hrows. f_equal.
  unfold stored_vectors. by destruct (_index s).
Qed.

Lemma add_chunks_embedded chunks bs starts embs s :
  embed_contract ->
  py_range 0 (len chunks) bs = Ok starts ->
  embed_batches chunks bs starts [] s = (Ok embs, s) ->
  embs <> [] ->
  length embs = length chunks.
Proof.
  intros Hc Hr Hb Hne.
  apply (embed_batches_length _ _ _ _ _ _ _ Hc) in Hb. simpl in Hb.
  destruct (Z.lt_trichotomy bs 0) as [Hneg|[->|Hpos]].
  - rewrite py_range_neg in Hr by (auto using len_nonneg).
    injection Hr as <-. simpl in Hb. by destruct embs.
  - done.
  - assert (0 <= 0 < bs) as Hso by lia.
    pose proof (rejoin_windows chunks bs 0 starts Hso) as Hw.
    rewrite Z.sub_0_r, rejoin_0 in Hw. by rewrite Hb, Hw.
Qed.

Lemma count_eq s : count s = (Ok (len (stored_vectors s)), s).
Proof.
  unfold count, stored_vectors. unfold_M. by destruct (_index s).
Qed.

Lemma search_state query top_k filt s r s' :
  search query top_k filt s = (r, s') -> s' = s.
Proof.
  unfold search, _embed. unfold_M.
  destruct (_index s); [|by intros [= _ <-]].
  destruct (_ =? 0); [by intros [= _ <-]|].
  destruct (ollama_embed _ _ _); [|by intros [= _ <-]].
  destruct (np_array _); [|by intros [= _ <-]].
  destruct (index_search _ _ _); [|by intros [= _ <-]].
  destruct (at_index _ _); by intros [= _ <-].
Qed.

Lemma collect_len s top_k filt cands acc out :
  len acc < top_k ->
  collect s top_k filt cands acc = Ok out -> len out <= top_k.
Proof.
  revert acc. induction cands as [|[idx score] cands IH]; intros acc Hacc;
    cbn [collect].
  - intros [= <-]. lia.
  - destruct (_ || _); [by apply IH|].
    destruct (at_index (_metadatas s) idx) as [meta|]; [|done]. simpl.
    destruct (_ && _); [by apply IH|].
    destruct (at_index (_chunks s) idx) as [chunk|]; [|done]. simpl.
    destruct (Z.leb_spec top_k (len (acc ++ [{| content := chunk;
      metadata_of := meta; distance := f_sub f_one score |}]))) as [Hle|Hlt].
    + intros [= <-]. rewrite len_app in *. unfold len in *. simpl in *. lia.
    + by apply IH.
Qed.

Lemma collect_filter s top_k filt cands acc out :
  filt <> [] ->
  Forall (admitted_by filt) acc ->
  collect s top_k filt cands acc = Ok out ->
  Forall (admitted_by filt) out.
Proof.
  intros Hf. revert acc.
  induction cands as [|[idx score] cands IH]; intros acc Hacc; cbn [collect].
  - by intros [= <-].
  - destruct (_ || _); [by apply IH|].
    destruct (at_index (_metadatas s) idx) as [meta|]; [|done]. simpl.
    destruct filt as [|f0 filt]; [done|]. cbn [truthy andb].
    destruct (val_in _ _) eqn:Hin; cbn [negb]; [|by apply IH].
    destruct (at_index (_chunks s) idx) as [chunk|]; [|done]. simpl.
    assert (Forall (admitted_by (f0 :: filt))
              (acc ++ [{| content := chunk; metadata_of := meta;
                          distance := f_sub f_one score |}])) as Hacc'.
    { apply Forall_app. split; [done|]. apply Forall_singleton.
      unfold val_in in Hin.
      destruct (meta !! py "doc_type") as [v|] eqn:Hm; [|done].
      destruct v as [|b|n|bits|t|repr|repr truth]; try done.
      exists t. simpl. split; [done|]. by apply bool_decide_eq_true in Hin. }
    destruct (_ <=? _); [by intros [= <-]|by apply IH].
Qed.

Lemma length_pad_to {A} (k : nat) (x : A) (l : list A) :
  length (pad_to k x l) = k.
Proof.
  revert l. induction k as [|k IH]; intros l; [done|].
  destruct l; simpl; by rewrite IH.
Qed.

(** C1 (amended): [add_chunks] does not compare the lengths of its two
    arguments; when the caller passes as many metadata records as
    chunks and the embedding service returns one vector per text, every
    operation ([add_chunks], [clear], [search], [count]), whether it
    returns or raises, leaves the chunk list, the metadata list and the
    vector index with the same number of entries. *)
Theorem C1_aligned_preserved (s : store) :
  embed_contract ->
  aligned s ->
  (forall chunks metadatas batch_size r s',
      len chunks = len metadatas ->
      add_chunks chunks metadatas batch_size s = (r, s') -> aligned s') /\
  (forall r s', clear s = (r, s') -> aligned s') /\
  (forall query top_k filt r s',
      search query top_k filt s = (r, s') -> aligned s') /\
  (forall r s', count s = (r, s') -> aligned s').
Proof.
  intros Hc Hs. split_and!.
  - intros chunks metadatas bs r s' Hlen Hadd.
    apply add_chunks_inv in Hadd
      as [(e & _ & ->)|[(_ & _ & ->)|
          (starts & embs & ix & Hr & Hb & Hne & _ & Hix & Hxb & Hch & Hmd)]];
      [done|done|].
    pose proof (add_chunks_embedded _ _ _ _ _ Hc Hr Hb Hne) as Hn.
    destruct Hs as [Hs1 Hs2]. unfold aligned.
    rewrite Hix, Hch, Hmd. unfold ntotal. rewrite Hxb, !len_app.
    unfold len in *. rewrite !length_fmap.
    split; [lia|]. rewrite Hn. unfold stored_vectors.
    destruct (_index s); unfold ntotal, len in Hs2; simpl; lia.
  - intros r s' (_ & _ & Hix & Hch & Hmd & _)%clear_inv.
    unfold aligned. by rewrite Hix, Hch, Hmd.
  - intros query top_k filt r s' H. by apply search_state in H as ->.
  - intros r s'. rewrite count_eq. by intros [= _ <-].
Qed.

(** C4: a search with a non-empty doc-type filter returns only entries
    whose metadata [doc_type] is a member of the filter, returns at
    most [top_k] of them, and on a non-empty store obtains them from
    the [min (4 * top_k) ntotal] candidates it asks the index for, by
    filtering these and stopping at [top_k]. *)
Theorem C4_search_filter (s s' : store) (query : list ascii) (top_k : Z)
    (filt : list (list ascii)) (out : list hit) :
  filt <> [] ->
  0 <= top_k ->
  search query top_k (Some filt) s = (Ok out, s') ->
  Forall (admitted_by filt) out /\
  len out <= top_k /\
  (out = [] /\ (_index s = None \/ _chunks s = []) \/
   exists ix queries cands rest,
     _index s = Some ix /\
     index_search ix queries (Z.min (top_k * 4) (ntotal ix))
       = Ok (cands :: rest) /\
     length cands = Z.to_nat (Z.min (top_k * 4) (ntotal ix)) /\
     collect s top_k filt cands [] = Ok out).
Proof.
  intros Hf Hk. unfold search, _embed. unfold_M.
  destruct (_index s) as [ix|] eqn:Hix;
    [|intros [= <- _]; split_and!; [done|unfold len; simpl; lia|left; auto]].
  destruct (Z.eqb_spec (len (_chunks s)) 0) as [H0|H0].
  { intros [= <- _]. split_and!; [done|unfold len; simpl; lia|].
    left. split; [done|right]. unfold len in H0.
    destruct (_chunks s); [done|simpl in H0; lia]. }
  destruct (ollama_embed _ _ _) as [emb|]; [|done].
  destruct (np_array emb) as [q|]; [|done].
  change (default [] (Some filt)) with filt.
  destruct (index_search _ _ _) as [found|] eqn:Hsearch; [|done].
  destruct found as [|cands rest]; [done|].
  change (at_index (cands :: rest) 0) with (Ok cands).
  assert (fetch_k top_k filt (ntotal ix) = Z.min (top_k * 4) (ntotal ix))
    as Hfetch by (unfold fetch_k; by destruct filt).
  rewrite Hfetch in Hsearch.
  assert (length cands = Z.to_nat (Z.min (top_k * 4) (ntotal ix))
          /\ 0 < top_k) as [Hlen Hpos].
  { unfold index_search in Hsearch.
    destruct (negb (_ =? _)); [done|].
    destruct (Z.ltb_spec 0 (Z.min (top_k * 4) (ntotal ix))); [|done].
    simpl in Hsearch. destruct (rows _) as [|r0 rs]; [done|].
    injection Hsearch as <- _. rewrite length_pad_to. split; [done|lia]. }
  destruct (collect _ _ _ _ _) as [out'|] eqn:Hcol; [|done].
  intros [= <- _]. split_and!.
  - by eapply collect_filter.
  - eapply collect_len; [|done]. unfold len. simpl. lia.
  - right. exists ix, (_normalize q), cands, rest. done.
Qed.

(** C5 (amended): the constructor loads only when both persisted files
    are present; when one of them is missing the store starts empty,
    whatever the other holds; when both are present and one has
    content its reader refuses, the constructor raises the exception
    of the reader and no store is obtained. *)
Theorem C5_load_missing_or_unreadable (model host : list ascii)
    (f : persisted index) (g : persisted json_doc)
    (ix : index) (j : json_doc) :
  __init__ model host Absent g = Ok (fresh model host Absent g) /\
  __init__ model host f Absent = Ok (fresh model host f Absent) /\
  __init__ model host Unreadable Unreadable = Raise RuntimeError /\
  __init__ model host Unreadable (Readable j) = Raise RuntimeError /\
  __init__ model host (Readable ix) Unreadable = Raise JSONDecodeError.
Proof.
  split_and!; try done.
  by destruct f.
Qed.

(** C6: from any store state, when the embedding service returns one
    vector per text, a call of [add_chunks] that returns has added as
    many entries as it was given chunks, and [count] then reports that
    many more; after [clear], [count] returns 0 and [search] returns
    the empty list for every query, and this even when [clear] raises,
    which it does only when the removal of a file fails. *)
Theorem C6_round_trip (s : store) :
  embed_contract ->
  (forall chunks metadatas batch_size n s' c,
      add_chunks chunks metadatas batch_size s = (Ok n, s') ->
      count s = (Ok c, s) ->
      n = len chunks /\ count s' = (Ok (c + len chunks), s')) /\
  (forall r s',
      clear s = (r, s') ->
      (r = Ok () \/
       exists e, r = Raise e /\
                 (unlink_index (index_file s) = Some e \/
                  unlink_json (meta_file s) = Some e)) /\
      count s' = (Ok 0, s') /\
      forall query top_k filt, search query top_k filt s' = (Ok [], s')).
Proof.
  intros Hc. split.
  - intros chunks metadatas bs n s' c Hadd. rewrite !count_eq.
    intros [= <-].
    apply add_chunks_inv in Hadd
      as [(e & ? & _)|[(-> & [= ->] & ->)|
          (starts & embs & ix & Hr & Hb & Hne & [[= ->]|[e ?]] & Hix & Hxb
           & _)]];
      [done| | |done].
    + split; [done|]. change (len (@nil (list ascii))) with 0.
      by rewrite Z.add_0_r.
    + split; [done|]. do 2 f_equal. unfold stored_vectors at 1.
      rewrite Hix, Hxb, len_app. unfold len. rewrite length_fmap.
      by rewrite (add_chunks_embedded _ _ _ _ _ Hc Hr Hb Hne).
  - intros r s' (_ & _ & Hix & Hch & _ & Hr)%clear_inv. split_and!.
    + destruct r as [[]|e]; [by left|right]. exists e. split; [done|].
      destruct Hr as [(_ & ? & _)|(_ & ? & _)]; auto.
    + rewrite count_eq. unfold stored_vectors. by rewrite Hix.
    + intros query top_k filt. unfold search. unfold_M. by rewrite Hix.
Qed.



End VectorStoreProps.

Import VectorStore VectorStoreSpec Demo.

Lemma demo_embed_contract : embed_contract (B := demo_backend).
Proof. intros host model texts vs [= <-]. apply length_fmap. Qed.

(** C1 (as stated) fails: [add_chunks] accepts two chunks with a single
    metadata record and leaves the collections with different counts. *)
Lemma C1_counterexample :
  aligned empty_store /\
  exists s',
    add_chunks [py "a"; py "bb"] [meta_of "r.txt" "resume"] 32 empty_store
      = (Ok 2, s') /\
    len (_chunks s') = 2 /\ len (_metadatas s') = 1 /\ ~ aligned s'.
Proof.
  split; [done|].
  exists (add_chunks [py "a"; py "bb"] [meta_of "r.txt" "resume"] 32
            empty_store).2.
  split_and!.
  - apply injective_projections; [vm_compute; reflexivity|reflexivity].
  - vm_compute. reflexivity.
  - vm_compute. reflexivity.
  - intros [H _]. revert H. vm_compute. discriminate.
Qed.

Lemma C1_witness :
  aligned (snd (add_chunks [py "a"; py "bb"]
                  [meta_of "r.txt" "resume"; meta_of "e.txt" "experience"]
                  1 empty_store)).
Proof.
  apply (proj1 (C1_aligned_preserved empty_store demo_embed_contract
                  (conj eq_refl eq_refl))
           [py "a"; py "bb"]
           [meta_of "r.txt" "resume"; meta_of "e.txt" "experience"] 1
           (fst (add_chunks [py "a"; py "bb"]
                   [meta_of "r.txt" "resume"; meta_of "e.txt" "experience"]
                   1 empty_store))).
  - reflexivity.
  - apply surjective_pairing.
Defined.

Import DemoData.

Lemma C4_witness :
  exists out s',
    search (py "q") 1 (Some [py "resume"]) three_entries = (Ok out, s') /\
    Forall (admitted_by [py "resume"]) out /\
    len out <= 1.
Proof.
  destruct (search (py "q") 1 (Some [py "resume"]) three_entries).1
    as [out|e] eqn:E.
  - exists out, (search (py "q") 1 (Some [py "resume"]) three_entries).2.
    assert (search (py "q") 1 (Some [py "resume"]) three_entries
            = (Ok out, (search (py "q") 1 (Some [py "resume"])
                          three_entries).2)) as Hs.
    { rewrite <- E. apply surjective_pairing. }
    split; [exact Hs|].
    destruct (C4_search_filter three_entries
                (search (py "q") 1 (Some [py "resume"]) three_entries).2
                (py "q") 1 [py "resume"] out)
      as (Hf & Hl & _); [discriminate|lia|exact Hs|].
    split; [exact Hf|exact Hl].
  - exfalso. revert E. vm_compute. discriminate.
Defined.

(** C5 (as stated) fails: with both files present and a metadata file
    that is not valid JSON, the constructor raises instead of giving an
    empty store. *)
Lemma C5_counterexample :
  exists_ (Readable (IndexFlatIP (B := demo_backend) 1)) = true /\
  exists_ (@Unreadable json_doc) = true /\
  __init__ (B := demo_backend) (py "nomic-embed-text")
    (py "http://localhost:11434") (Readable (IndexFlatIP 1)) Unreadable
  = Raise JSONDecodeError.
Proof. split_and!; reflexivity. Qed.

Lemma C6_witness :
  exists n s',
    add_chunks two_chunks two_metadatas 1 empty_store = (Ok n, s') /\
    n = len two_chunks /\ count s' = (Ok (0 + len two_chunks), s').
Proof.
  destruct (add_chunks two_chunks two_metadatas 1 empty_store).1
    as [n|e] eqn:E.
  - exists n, (add_chunks two_chunks two_metadatas 1 empty_store).2.
    assert (add_chunks two_chunks two_metadatas 1 empty_store
            = (Ok n, (add_chunks two_chunks two_metadatas 1 empty_store).2))
      as Ha.
    { rewrite <- E. apply surjective_pairing. }
    split; [exact Ha|].
    apply (proj1 (C6_round_trip empty_store demo_embed_contract)
             two_chunks two_metadatas 1 n _ 0 Ha).
    reflexivity.
  - exfalso. revert E. vm_compute. discriminate.
Defined.


(** ** Chunker *)

Import Chunker.

(** C2 (the code departs from it): of the separators handed to
    [_recursive_split] only the first is ever consulted, so a text longer
    than the chunk size that has no paragraph break but has spaces is not
    split at the spaces; the code goes straight to the character windows,
    which cut the word [cd] in two. *)
Theorem C2_spaces_not_tried :
  (forall text sep rest size overlap,
      _recursive_split text (sep :: rest) size overlap
      = _recursive_split text [sep] size overlap) /\
  contains (py " ") (py "ab cd ef") = true /\
  4 < len (py "ab cd ef") /\
  chunk_text (py "ab cd ef") 4 0 = Ok [py "ab c"; py "d ef"] /\
  char_fallback (py "ab cd ef") 4 0 = Ok [py "ab c"; py "d ef"].
Proof. split_and!; reflexivity. Qed.


(** ** Chunk coverage *)

Section ChunkerProps.
Import Chunker.
















Lemma py_range_bounds n step starts :
  0 < step -> py_range 0 n step = Ok starts ->
  Forall (fun i => 0 <= i < n) starts.
Proof.
  intros Hstep. unfold py_range.
  destruct (Z.eqb_spec step 0); [lia|].
  destruct (Z.ltb_spec 0 step); [|lia].
  intros [= <-]. apply Forall_fmap, Forall_seqZ. intros k Hk. simpl.
  assert (k < (n - 0 + step - 1) / step) as Hlt by lia.
  pose proof (Z.mul_div_le (n - 0 + step - 1) step Hstep).
  nia.
Qed.





End ChunkerProps.


(** ** Keyword extraction *)

Section RagProps.
Import Regex Rag RagSpec.

Lemma tidy_add st w : tidy st -> w ∉ st.1 -> tidy (add st w).
Proof.
  intros [Hnd Hin] Hw. split; simpl.
  - apply NoDup_app. split_and!; [done| |apply NoDup_singleton].
    intros x Hx ->%list_elem_of_singleton. auto.
  - intros x [Hx| ->%list_elem_of_singleton]%elem_of_app; set_solver.
Qed.

Lemma tidy_foldl {A} (f : collected -> A -> collected) (l : list A) st :
  (forall st x, tidy st -> tidy (f st x)) -> tidy st -> tidy (foldl f st l).
Proof.
  intros Hf. revert st. induction l as [|x l IH]; intros st Hst; [done|].
  simpl. auto.
Qed.

Lemma tidy_add_term text_lower st term :
  tidy st -> tidy (add_term text_lower st term).
Proof.
  intros Hst. unfold add_term. destruct (contains _ _); [|done]. simpl.
  case_bool_decide; [done|]. by apply tidy_add.
Qed.

Lemma tidy_add_bullet_word st w : tidy st -> tidy (add_bullet_word st w).
Proof.
  intros Hst. unfold add_bullet_word.
  case_bool_decide; [done|]. simpl. destruct (_ <? _); [|done].
  by apply tidy_add.
Qed.

Lemma tidy_add_bullet st g : tidy st -> tidy (add_bullet st g).
Proof. intros Hst. apply tidy_foldl; auto using tidy_add_bullet_word. Qed.

Lemma tidy_add_capitalized st g : tidy st -> tidy (add_capitalized st g).
Proof.
  intros Hst. unfold add_capitalized.
  case_bool_decide; [done|]. simpl. destruct (_ && _); [|done].
  by apply tidy_add.
Qed.

Lemma tidy_add_word st w : tidy st -> tidy (add_word st w).
Proof.
  intros Hst. unfold add_word.
  case_bool_decide; [done|]. simpl. destruct (negb _); [|done].
  by apply tidy_add.
Qed.

Lemma tidy_collect_keywords text : tidy (collect_keywords text).
Proof.
  unfold collect_keywords.
  repeat (apply tidy_foldl;
          [auto using tidy_add_term, tidy_add_bullet, tidy_add_capitalized,
             tidy_add_word|]).
  split; [apply NoDup_nil_2|]. intros w Hw. by apply elem_of_nil in Hw.
Qed.

Lemma slice_to_nonneg {A} (l : list A) (n : Z) :
  0 <= n -> slice_to l n = take (Z.to_nat n) l.
Proof.
  intros Hn. unfold slice_to, slice_index, len.
  destruct (Z.ltb_spec n 0); [lia|].
  destruct (Z.le_gt_cases (Z.of_nat (length l)) n).
  - rewrite !take_ge; [done| |]; lia.
  - by rewrite Z.min_r by lia.
Qed.

Lemma slice_to_sublist {A} (l : list A) (n : Z) : sublist (slice_to l n) l.
Proof. unfold slice_to. apply sublist_take. Qed.

(** C9: for every text and every [max_keywords], the list returned by
    [extract_keywords] has no keyword twice, each keyword having been
    added only when it was not yet in [seen]; and when [max_keywords]
    is not negative the list has at most [max_keywords] entries. *)
Theorem C9_extract_keywords (text : list ascii) (max_keywords : Z) :
  NoDup (extract_keywords text max_keywords) /\
  (0 <= max_keywords ->
   len (extract_keywords text max_keywords) <= max_keywords).
Proof.
  unfold extract_keywords. destruct (_ || _).
  { split; [apply NoDup_nil_2|]. unfold len. simpl. lia. }
  split.
  - eapply sublist_NoDup; [|apply slice_to_sublist].
    apply tidy_collect_keywords.
  - intros Hn. rewrite slice_to_nonneg by done.
    unfold len. rewrite length_take. lia.
Qed.

End RagProps.

Import DemoFiles.

Lemma C9_witness :
  NoDup (Rag.extract_keywords job_text 5) /\
  len (Rag.extract_keywords job_text 5) <= 5.
Proof.
  split.
  - apply (proj1 (C9_extract_keywords job_text 5)).
  - apply (proj2 (C9_extract_keywords job_text 5)). lia.
Defined.

(** ** Loaders *)

Section LoadersProps.
Import Loaders.

Lemma scanned_app_nothing_r a : scanned_app a nothing = a.
Proof. destruct a. unfold scanned_app. simpl. by rewrite !app_nil_r. Qed.

Lemma scanned_app_nothing_l a : scanned_app nothing a = a.
Proof. by destruct a. Qed.

Lemma scanned_app_assoc a b c :
  scanned_app (scanned_app a b) c = scanned_app a (scanned_app b c).
Proof. unfold scanned_app. simpl. by rewrite !app_assoc. Qed.

Lemma scan_foldl acc paths :
  foldl (fun acc p => scanned_app acc (scan_path p)) acc paths
  = scanned_app acc
      (foldl (fun acc p => scanned_app acc (scan_path p)) nothing paths).
Proof.
  revert acc. induction paths as [|p paths IH]; intros acc; simpl.
  - by rewrite scanned_app_nothing_r.
  - rewrite IH, (IH (scanned_app nothing _)).
    by rewrite scanned_app_nothing_l, scanned_app_assoc.
Qed.

Lemma load_documents_from_dir_app l1 l2 :
  load_documents_from_dir (Some (l1 ++ l2))
  = scanned_app (load_documents_from_dir (Some l1))
                (load_documents_from_dir (Some l2)).
Proof. unfold load_documents_from_dir. by rewrite foldl_app, scan_foldl. Qed.

(** A resume whose sanitized text is empty is loaded with empty text. *)
Lemma load_document_resume_emptied file_path raw :
  lower (suffix (name file_path)) = py ".txt" ->
  read_text file_path = Ok raw ->
  Sanitizer.sanitize_resume_text (strip raw) = [] ->
  exists metadata,
    load_document file_path (py "resume") = Ok ([], metadata).
Proof.
  intros Hs Hr He. unfold load_document, _load_txt. rewrite Hs, Hr. simpl.
  rewrite He. eauto.
Qed.

(** C10: a file of the scan with a supported extension whose loading
    succeeds with empty text, as for a resume emptied by the sanitizer,
    yields no pair and prints no warning: its turn of the loop
    produces nothing, and the scan of the directory is the scan of the
    directory without the file. *)
Theorem C10_empty_text_skipped (file_path : path)
    (metadata : gmap (list ascii) VectorStore.pyval)
    (earlier later : list path) :
  is_file file_path = true ->
  lower (suffix (name file_path)) ∈ supported ->
  load_document file_path (_infer_doc_type file_path) = Ok ([], metadata) ->
  scan_path file_path = nothing /\
  load_documents_from_dir (Some (earlier ++ file_path :: later))
  = load_documents_from_dir (Some (earlier ++ later)).
Proof.
  intros Hf Hs Hl.
  assert (scan_path file_path = nothing) as Hscan.
  { unfold scan_path. rewrite Hf, Hl. by rewrite bool_decide_eq_true_2. }
  split; [done|].
  change (file_path :: later) with ([file_path] ++ later).
  rewrite !load_documents_from_dir_app. f_equal.
  unfold load_documents_from_dir at 1. simpl.
  by rewrite Hscan, !scanned_app_nothing_l.
Qed.

End LoadersProps.

Lemma C10_witness :
  Loaders.scan_path meta_only_resume = Loaders.nothing /\
  Loaders.load_documents_from_dir
    (Some ([experience_note] ++ meta_only_resume :: [experience_note]))
  = Loaders.load_documents_from_dir
      (Some ([experience_note] ++ [experience_note])).
Proof.
  destruct (load_document_resume_emptied meta_only_resume
              (py "Changes Made:" ++ [LF] ++ py "tightened the summary"))
    as [metadata Hl].
  - vm_compute. reflexivity.
  - reflexivity.
  - vm_compute. reflexivity.
  - apply (C10_empty_text_skipped meta_only_resume metadata).
    + reflexivity.
    + apply (bool_decide_unpack _). vm_compute. exact I.
    + exact Hl.
Defined.

(** ** Sanitizer *)

Import Sanitizer.

(** C7 (as stated) fails: the first pass does not see the header
    [Summary:] on line 65, beyond the 60 lines it scans, and only
    squeezes the blank lines; the second pass then finds the header on
    line 7 and drops the lines before its two lines of lead-in. *)
Lemma C7_counterexample :
  sanitize_resume_text late_header
    = py "x" ++ [LF; LF; LF] ++ py "a" ++ [LF] ++ py "b" ++ [LF] ++ py "c"
         ++ [LF] ++ py "Summary:" /\
  sanitize_resume_text (sanitize_resume_text late_header)
    = py "b" ++ [LF] ++ py "c" ++ [LF] ++ py "Summary:" /\
  sanitize_resume_text (sanitize_resume_text late_header)
    <> sanitize_resume_text late_header.
Proof. split_and!; [by vm_compute|by vm_compute|by vm_compute]. Qed.

(** ** Matching a line with whitespace at its ends *)

Section MatchStatesProps.
Import Regex MatchStates.

Lemma line_chars_complete (c : ascii) : c <> LF -> c ∈ line_chars.
Proof.
  intros Hc. unfold line_chars. apply list_elem_of_In, List.filter_In. split.
  - apply list_elem_of_In, list_elem_of_fmap. exists (nat_of_ascii c).
    split; [by rewrite ascii_nat_embedding|].
    apply list_elem_of_In, in_seq. pose proof (nat_ascii_bounded c). lia.
  - by rewrite bool_decide_eq_false_2.
Qed.

Lemma covers_sound (ks : list cls) (A : list ascii) (c : ascii) :
  covers ks A = true -> c <> LF ->
  exists a, a ∈ A /\ signature ks c = signature ks a.
Proof.
  unfold covers. rewrite forallb_forall. intros H Hc.
  specialize (H c (proj1 (list_elem_of_In _ _) (line_chars_complete c Hc))).
  apply bool_decide_eq_true, list_elem_of_fmap in H as (a & Ha & HA). eauto.
Qed.

Lemma null_next p c c' l l' r :
  c <> LF -> c' <> LF -> is_word c = is_word c' ->
  null {| before := p; next := Some c; next_is_last := l |} r
  = null {| before := p; next := Some c'; next_is_last := l' |} r.
Proof.
  intros Hc Hc' Hw.
  induction r as [|k|a IHa b IHb|a IHa b IHb|a IH|a IH|a IH| | | | |];
    simpl; try done.
  - by rewrite IHa, IHb.
  - by rewrite IHa, IHb.
  - by rewrite !bool_decide_eq_false_2.
  - by rewrite !bool_decide_eq_false_2.
  - unfold at_word_boundary. simpl. by rewrite Hw.
Qed.

Lemma first_next p c c' l l' r k :
  c <> LF -> c' <> LF -> is_word c = is_word c' ->
  first {| before := p; next := Some c; next_is_last := l |} r k
  = first {| before := p; next := Some c'; next_is_last := l' |} r k.
Proof.
  intros Hc Hc' Hw. revert k.
  induction r as [|x|a IHa b IHb|a IHa b IHb|a IH|a IH|a IH| | | | |];
    intros k; simpl; try done.
  - by rewrite IHa, IHb, (null_next p c c' l l' a).
  - by rewrite IHa, IHb.
Qed.

Lemma firsts_next p c c' l l' k :
  c <> LF -> c' <> LF -> is_word c = is_word c' ->
  firsts {| before := p; next := Some c; next_is_last := l |} k
  = firsts {| before := p; next := Some c'; next_is_last := l' |} k.
Proof.
  intros Hc Hc' Hw. induction k as [|r k IH]; simpl; [done|].
  by rewrite IH, (first_next p c c' l l' r), (null_next p c c' l l' r).
Qed.

Lemma first_classes cx r k cl k' :
  (cl, k') ∈ first cx r k -> cl ∈ classes r.
Proof.
  revert k.
  induction r as [|x|a IHa b IHb|a IHa b IHb|a IH|a IH|a IH| | | | |];
    intros k; simpl; try (by intros ?%elem_of_nil); eauto.
  - intros [= -> _]%list_elem_of_singleton. by left.
  - intros [H|H]%elem_of_app; apply elem_of_app; [left; eauto|].
    destruct (null cx a); [right; eauto|by apply elem_of_nil in H].
  - intros [H|H]%elem_of_app; apply elem_of_app; eauto.
Qed.

Lemma firsts_classes cx k cl k' :
  (cl, k') ∈ firsts cx k -> exists r, r ∈ k /\ cl ∈ classes r.
Proof.
  induction k as [|r k IH]; simpl; [by intros ?%elem_of_nil|].
  intros [H|H]%elem_of_app.
  - exists r. split; [left|by eapply first_classes].
  - destruct (null cx r); [|by apply elem_of_nil in H].
    destruct (IH H) as (r' & ? & ?). exists r'. split; [by right|done].
Qed.

Lemma signature_matches ks c c' cl :
  signature ks c = signature ks c' -> cl ∈ ks ->
  cls_matches cl c = cls_matches cl c'.
Proof.
  intros [= _ H] Hcl. induction ks as [|k ks IH]; [by apply elem_of_nil in Hcl|].
  simpl in H. injection H as H1 H2.
  apply elem_of_cons in Hcl as [->|Hcl]; auto.
Qed.

Lemma flat_map_ext_elem {A C} (f g : A -> list C) (l : list A) :
  (forall x, x ∈ l -> f x = g x) -> flat_map f l = flat_map g l.
Proof.
  induction l as [|x l IH]; intros H; simpl; [done|].
  rewrite (H x) by left. rewrite IH; [done|]. intros y Hy. apply H. by right.
Qed.

Lemma advance_ext ks q c c' l l' :
  c <> LF -> c' <> LF -> made_of ks q ->
  signature ks c = signature ks c' ->
  advance q c l = advance q c' l'.
Proof.
  intros Hc Hc' Hq Hs.
  assert (is_word c = is_word c') as Hw by (by injection Hs).
  unfold advance, context_of. f_equal.
  - f_equal. apply flat_map_ext_elem. intros k Hk.
    rewrite (firsts_next (prev q) c c' l l' k) by done. f_equal.
    apply List.filter_ext_in. intros [cl k'] Hin%list_elem_of_In. simpl.
    apply firsts_classes in Hin as (r & Hr & Hcl).
    eapply signature_matches; eauto.
  - unfold class_of. rewrite Hw.
    by rewrite !bool_decide_eq_false_2.
Qed.

Lemma accepts_ext q c c' l l' :
  c <> LF -> c' <> LF -> is_word c = is_word c' ->
  accepts q (Some c) l = accepts q (Some c') l'.
Proof.
  intros Hc Hc' Hw. unfold accepts, context_of.
  induction (stacks q) as [|k ks IH]; simpl; [done|]. rewrite IH. f_equal.
  induction k as [|r k IHk]; simpl; [done|].
  by rewrite IHk, (null_next (prev q) c c' l l' r).
Qed.

Lemma take_drop_while {A} (p : A -> bool) (l : list A) :
  take_while p l ++ drop_while p l = l /\
  Forall (fun x => p x = true) (take_while p l).
Proof.
  induction l as [|x l [IH1 IH2]]; simpl; [done|].
  destruct (p x) eqn:Hp; simpl; [|done]. rewrite IH1. split; [done|].
  by constructor.
Qed.

Lemma rstrip_split (s : list ascii) :
  exists t, s = rstrip s ++ t /\ Forall (fun c => is_space c = true) t.
Proof.
  exists (rev (take_while is_space (rev s))). unfold rstrip.
  destruct (take_drop_while is_space (rev s)) as [H1 H2]. split.
  - by rewrite <- rev_app_distr, H1, rev_involutive.
  - by apply Forall_rev.
Qed.

Lemma lstrip_split (s : list ascii) :
  exists h, s = h ++ lstrip s /\ Forall (fun c => is_space c = true) h.
Proof.
  exists (take_while is_space s). unfold lstrip.
  destruct (take_drop_while is_space s) as [H1 H2]. by rewrite H1.
Qed.

Section Certified.
Variable r : regex.
Variable ks : list cls.
Variable A : list ascii.
Variable Q : list state.
Hypothesis Hcert : certificate r ks A Q = true.

Lemma certificate_parts :
  CSpace ∈ ks /\
  forallb (fun c => negb (bool_decide (c = LF))) A = true /\
  covers ks A = true /\ closed r ks A Q = true /\ ends_only A Q = true /\
  trailing_blind A Q = true /\ leading_blind r A = true.
Proof.
  pose proof Hcert as H. unfold certificate in H.
  do 6 (apply andb_prop in H as [H ?]).
  apply bool_decide_eq_true in H. done.
Qed.

Lemma certified_alphabet a : a ∈ A -> a <> LF.
Proof.
  intros Ha%list_elem_of_In.
  destruct certificate_parts as (_ & H & _).
  rewrite forallb_forall in H. apply H in Ha.
  by apply negb_true_iff, bool_decide_eq_false in Ha.
Qed.

Lemma certified_representative c :
  c <> LF -> exists a, a ∈ A /\ a <> LF /\ signature ks c = signature ks a.
Proof.
  intros Hc. destruct certificate_parts as (_ & _ & Hcov & _).
  destruct (covers_sound _ _ c Hcov Hc) as (a & Ha & Hs).
  eauto using certified_alphabet.
Qed.

Lemma certified_start : start r ∈ Q.
Proof.
  destruct certificate_parts as (_ & _ & _ & Hcl & _). unfold closed in Hcl.
  apply andb_prop in Hcl as [Hs _]. by apply bool_decide_eq_true in Hs.
Qed.

Lemma certified_closed q a :
  q ∈ Q -> made_of ks q /\ (a ∈ A -> after q a ∈ Q).
Proof.
  intros Hq%list_elem_of_In.
  destruct certificate_parts as (_ & _ & _ & Hcl & _). unfold closed in Hcl.
  apply andb_prop in Hcl as [_ Hcl].
  rewrite forallb_forall in Hcl. apply Hcl, andb_prop in Hq as [Hm Hs].
  split.
  - intros k r' cl Hk%list_elem_of_In Hr%list_elem_of_In Hc%list_elem_of_In.
    rewrite forallb_forall in Hm. apply Hm in Hk.
    rewrite forallb_forall in Hk. apply Hk in Hr.
    rewrite forallb_forall in Hr. apply Hr in Hc.
    by apply bool_decide_eq_true in Hc.
  - intros Ha%list_elem_of_In. rewrite forallb_forall in Hs.
    apply Hs in Ha. by apply bool_decide_eq_true in Ha.
Qed.

Lemma certified_ends_only q a :
  q ∈ Q -> a ∈ A -> accepts q (Some a) false = false.
Proof.
  intros Hq%list_elem_of_In Ha%list_elem_of_In.
  destruct certificate_parts as (_ & _ & _ & _ & He & _).
  unfold ends_only in He.
  rewrite forallb_forall in He. apply He in Hq.
  rewrite forallb_forall in Hq. apply Hq in Ha. by apply negb_true_iff in Ha.
Qed.

Lemma certified_trailing q a :
  q ∈ Q -> a ∈ A -> is_space a = true ->
  accepts (after q a) None false = accepts q None false.
Proof.
  intros Hq%list_elem_of_In Ha%list_elem_of_In Hsp.
  destruct certificate_parts as (_ & _ & _ & _ & _ & Ht & _).
  unfold trailing_blind in Ht.
  rewrite forallb_forall in Ht. apply Ht in Hq.
  rewrite forallb_forall in Hq.
  assert (In a (List.filter is_space A)) as Hin by (by apply List.filter_In).
  apply Hq in Hin. by apply bool_decide_eq_true in Hin.
Qed.

Lemma certified_leading a d :
  a ∈ A -> is_space a = true ->
  accepts (after (start r) a) None false = accepts (start r) None false /\
  (d ∈ A -> after (after (start r) a) d = after (start r) d).
Proof.
  intros Ha%list_elem_of_In Hsp.
  destruct certificate_parts as (_ & _ & _ & _ & _ & _ & Hl).
  unfold leading_blind in Hl.
  rewrite forallb_forall in Hl.
  assert (In a (List.filter is_space A)) as Hin by (by apply List.filter_In).
  apply Hl, andb_prop in Hin as [H1 H2]. split.
  - by apply bool_decide_eq_true in H1.
  - intros Hd%list_elem_of_In. rewrite forallb_forall in H2.
    apply H2 in Hd. by apply bool_decide_eq_true in Hd.
Qed.

(** One character [c] of a line, whatever follows it, seen through the
    character [a] of the alphabet that stands for it: the matcher does
    not accept before it and moves to a state of [Q]. *)
Lemma line_step q c a l :
  q ∈ Q -> c <> LF -> a ∈ A -> signature ks c = signature ks a ->
  accepts q (Some c) l = false /\
  advance q c l = after q a /\
  after q a ∈ Q.
Proof.
  intros Hq Hc Ha Hs. pose proof (certified_alphabet a Ha) as HaLF.
  destruct (certified_closed q a Hq) as [Hm Hcl].
  split_and!.
  - rewrite (accepts_ext q c a l false) by (done || by injection Hs).
    by apply certified_ends_only.
  - by apply (advance_ext ks).
  - auto.
Qed.

Lemma run_line q s :
  q ∈ Q -> Forall (fun c => c <> LF) s ->
  foldl after q s ∈ Q /\
  run q s = accepts (foldl after q s) None false.
Proof.
  intros Hq Hs. revert q Hq.
  induction Hs as [|c s Hc Hs IH]; intros q Hq; [done|]. simpl.
  destruct (certified_representative c Hc) as (a & Ha & _ & Hsig).
  destruct (line_step q c a (is_nil s) Hq Hc Ha Hsig) as (-> & -> & Hin).
  destruct (line_step q c a false Hq Hc Ha Hsig) as (_ & Hadv & _).
  change (after q c) with (advance q c false). rewrite Hadv. by apply IH.
Qed.

Lemma is_space_signature c a :
  signature ks c = signature ks a -> is_space a = is_space c.
Proof.
  intros Hs. destruct certificate_parts as (Hsp & _). symmetry.
  apply (signature_matches ks c a CSpace Hs Hsp).
Qed.

Lemma re_match_snoc s c :
  Forall (fun c => c <> LF) s -> c <> LF -> is_space c = true ->
  re_match r (s ++ [c]) = re_match r s.
Proof.
  intros Hs Hc Hsp. unfold re_match.
  destruct (run_line (start r) s certified_start Hs) as [Hq ->].
  destruct (run_line (start r) (s ++ [c]) certified_start) as [_ ->].
  { apply Forall_app. by repeat constructor. }
  rewrite foldl_app. simpl.
  destruct (certified_representative c Hc) as (a & Ha & _ & Hsig).
  destruct (line_step (foldl after (start r) s) c a false Hq Hc Ha Hsig)
    as (_ & Hadv & _).
  change (after (foldl after (start r) s) c)
    with (advance (foldl after (start r) s) c false).
  rewrite Hadv. apply certified_trailing; [done|done|].
  by rewrite (is_space_signature c a).
Qed.

Lemma re_match_cons s c :
  Forall (fun c => c <> LF) s -> c <> LF -> is_space c = true ->
  re_match r (c :: s) = re_match r s.
Proof.
  intros Hs Hc Hsp. unfold re_match. cbn [run].
  destruct (certified_representative c Hc) as (a & Ha & _ & Hsig).
  destruct (line_step (start r) c a (is_nil s) certified_start Hc Ha Hsig)
    as (-> & -> & Hq1).
  assert (is_space a = true) as Hspa by (by rewrite (is_space_signature c a)).
  cbn [orb].
  destruct Hs as [|d s Hd Hs].
  - simpl. by apply (certified_leading a a).
  - cbn [run].
    destruct (certified_representative d Hd) as (b & Hb & _ & Hsigd).
    destruct (line_step (after (start r) a) d b (is_nil s) Hq1 Hd Hb Hsigd)
      as (-> & -> & _).
    destruct (line_step (start r) d b (is_nil s) certified_start Hd Hb Hsigd)
      as (-> & -> & _).
    cbn [orb]. f_equal. by apply (certified_leading a b).
Qed.

Lemma re_match_spaces_after s t :
  Forall (fun c => is_space c = true) t ->
  Forall (fun c => c <> LF) (s ++ t) ->
  re_match r (s ++ t) = re_match r s.
Proof.
  induction t as [|c t IH] using rev_ind; intros Ht Hs.
  - by rewrite app_nil_r.
  - apply Forall_app in Ht as [Ht [Hc _]%Forall_cons].
    rewrite app_assoc in Hs. apply Forall_app in Hs as [Hs [Hc' _]%Forall_cons].
    rewrite app_assoc, re_match_snoc by done. by apply IH.
Qed.

Lemma re_match_spaces_before h s :
  Forall (fun c => is_space c = true) h ->
  Forall (fun c => c <> LF) (h ++ s) ->
  re_match r (h ++ s) = re_match r s.
Proof.
  induction 1 as [|c h Hc Hh IH]; intros Hs; [done|].
  simpl in Hs. apply Forall_cons in Hs as [Hc' Hs].
  simpl. rewrite re_match_cons by done. by apply IH.
Qed.

Lemma re_match_rstrip s :
  Forall (fun c => c <> LF) s -> re_match r (rstrip s) = re_match r s.
Proof.
  intros Hs. destruct (rstrip_split s) as (t & Heq & Ht).
  rewrite Heq in Hs. rewrite Heq at 2. symmetry.
  by apply re_match_spaces_after.
Qed.

Lemma re_match_lstrip s :
  Forall (fun c => c <> LF) s -> re_match r (lstrip s) = re_match r s.
Proof.
  intros Hs. destruct (lstrip_split s) as (h & Heq & Hh).
  rewrite Heq in Hs. rewrite Heq at 2. symmetry.
  by apply re_match_spaces_before.
Qed.

End Certified.

End MatchStatesProps.

(** ** Trimming *)

Section StripProps.
Import SanitizerSpec.

Lemma starts_dark_drop_while s : starts_dark (drop_while is_space s).
Proof.
  induction s as [|c s IH]; simpl; [done|].
  destruct (is_space c) eqn:Hc; [done|]. simpl. done.
Qed.

Lemma lstrip_unique h m :
  Forall (fun c => is_space c = true) h -> starts_dark m ->
  lstrip (h ++ m) = m.
Proof.
  intros Hh Hm. unfold lstrip.
  induction Hh as [|c h Hc Hh IH]; simpl.
  - destruct m as [|c m]; [done|]. simpl in *. by rewrite Hm.
  - by rewrite Hc.
Qed.

Lemma rstrip_unique m t :
  Forall (fun c => is_space c = true) t -> ends_dark m ->
  rstrip (m ++ t) = m.
Proof.
  intros Ht Hm. unfold rstrip. rewrite rev_app_distr.
  change (drop_while is_space (rev t ++ rev m)) with (lstrip (rev t ++ rev m)).
  rewrite lstrip_unique; [apply rev_involutive|by apply Forall_rev|done].
Qed.

Lemma ends_dark_rstrip s : ends_dark (rstrip s).
Proof.
  unfold ends_dark, rstrip. rewrite rev_involutive.
  apply starts_dark_drop_while.
Qed.

Lemma starts_dark_lstrip s : starts_dark (lstrip s).
Proof. apply starts_dark_drop_while. Qed.

Lemma ends_dark_app s t : t <> [] -> ends_dark t -> ends_dark (s ++ t).
Proof.
  unfold ends_dark. intros Hne Ht. rewrite rev_app_distr.
  destruct (rev t) as [|c u] eqn:E; [|done].
  apply (f_equal (@rev _)) in E. rewrite rev_involutive in E. done.
Qed.

Lemma ends_dark_suffix h s : ends_dark (h ++ s) -> ends_dark s.
Proof.
  unfold ends_dark. rewrite rev_app_distr.
  destruct (rev s) as [|c u]; [done|]. done.
Qed.

Lemma ends_dark_lstrip s : ends_dark s -> ends_dark (lstrip s).
Proof.
  intros Hs. destruct (lstrip_split s) as (h & Heq & _).
  rewrite Heq in Hs. by apply ends_dark_suffix in Hs.
Qed.

(** A text between whitespace, itself without whitespace at its ends, is
    what [strip] returns. *)
Lemma strip_unique h m t :
  Forall (fun c => is_space c = true) h ->
  Forall (fun c => is_space c = true) t ->
  starts_dark m -> ends_dark m ->
  strip (h ++ m ++ t) = m.
Proof.
  intros Hh Ht Hs He. unfold strip.
  destruct m as [|c m].
  - simpl. rewrite <- (app_nil_r (h ++ t)), lstrip_unique; [done| |done].
    by apply Forall_app.
  - rewrite lstrip_unique; [|done|done]. by apply rstrip_unique.
Qed.

Lemma strip_dark s : starts_dark (strip s) /\ ends_dark (strip s).
Proof.
  unfold strip. split; [|apply ends_dark_rstrip].
  pose proof (starts_dark_lstrip s) as Hd.
  destruct (rstrip_split (lstrip s)) as (t & Heq & Ht).
  destruct (rstrip (lstrip s)) as [|c u]; [done|].
  rewrite Heq in Hd. done.
Qed.

Lemma strip_fixed s : starts_dark s -> ends_dark s -> strip s = s.
Proof.
  intros Hs He. rewrite <- (app_nil_r s) at 1.
  by apply (strip_unique [] s []).
Qed.

Lemma strip_strip s : strip (strip s) = strip s.
Proof. destruct (strip_dark s). by apply strip_fixed. Qed.

Lemma rstrip_rstrip s : rstrip (rstrip s) = rstrip s.
Proof.
  rewrite <- (app_nil_r (rstrip s)) at 1.
  apply rstrip_unique; [done|apply ends_dark_rstrip].
Qed.

Lemma length_drop_while {A} (p : A -> bool) (l : list A) :
  (length (drop_while p l) <= length l)%nat.
Proof.
  induction l as [|x l IH]; simpl; [done|]. destruct (p x); simpl; lia.
Qed.

Lemma length_strip s : (length (strip s) <= length s)%nat.
Proof.
  unfold strip, rstrip, lstrip. rewrite length_rev.
  etrans; [apply length_drop_while|]. rewrite length_rev.
  apply length_drop_while.
Qed.

(** A text is blank when [strip] leaves nothing of it. *)
Lemma blank_spaces s :
  truthy (strip s) = false <-> Forall (fun c => is_space c = true) s.
Proof.
  split.
  - intros H. destruct (strip s) eqn:E; [|done].
    unfold strip in E.
    destruct (rstrip_split (lstrip s)) as (t & Heq & Ht).
    destruct (lstrip_split s) as (h & Heq' & Hh).
    rewrite E in Heq. rewrite Heq' , Heq. by apply Forall_app.
  - intros H. rewrite <- (app_nil_r s), <- (app_nil_r (s ++ [])).
    rewrite <- app_assoc. by rewrite (strip_unique s [] []).
Qed.

End StripProps.
(** ** Chunker: what every chunk is, and when chunking fails *)

Section ChunkerMore.
Import Chunker SanitizerSpec.

Lemma strip_kept x :
  truthy (strip x) = true -> strip x <> [] /\ strip (strip x) = strip x.
Proof.
  intros H. split; [by destruct (strip x)|apply strip_strip].
Qed.

Lemma accumulate_trimmed sep size overlap parts st :
  Forall (fun c => c <> [] /\ strip c = c) st.1 ->
  Forall (fun c => c <> [] /\ strip c = c)
    (foldl (accumulate sep size overlap) st parts).1.
Proof.
  revert st. induction parts as [|part parts IH]; intros [chunks current] H;
    [done|]. simpl. apply IH. unfold accumulate.
  destruct (_ <=? _); [done|]. simpl.
  destruct (truthy (strip current)) eqn:Ht; [|done].
  apply Forall_app. split; [done|]. apply Forall_singleton.
  by apply strip_kept.
Qed.

Lemma close_last_trimmed st :
  Forall (fun c => c <> [] /\ strip c = c) st.1 ->
  Forall (fun c => c <> [] /\ strip c = c) (close_last st).
Proof.
  destruct st as [chunks current]. simpl. intros H.
  destruct (truthy (strip current)) eqn:Ht; [|done].
  apply Forall_app. split; [done|]. apply Forall_singleton.
  by apply strip_kept.
Qed.

Lemma keep_window_trimmed windows acc :
  Forall (fun c => c <> [] /\ strip c = c) acc ->
  Forall (fun c => c <> [] /\ strip c = c) (foldl keep_window acc windows).
Proof.
  revert acc. induction windows as [|w windows IH]; intros acc H; [done|].
  simpl. apply IH. unfold keep_window.
  destruct (truthy (strip w)) eqn:Ht; [|done].
  apply Forall_app. split; [done|]. apply Forall_singleton.
  by apply strip_kept.
Qed.

(** X1: every chunk returned by [chunk_text], on whichever path it was
    produced, is non-empty and has no whitespace at either end. *)
Theorem chunk_text_chunks_trimmed (text : list ascii) (size overlap : Z)
    (chunks : list (list ascii)) :
  chunk_text text size overlap = Ok chunks ->
  Forall (fun c => c <> [] /\ strip c = c) chunks.
Proof.
  unfold chunk_text, _recursive_split.
  destruct (negb (truthy text) || negb (truthy (strip text))).
  { by intros [= <-]. }
  destruct (len text <=? size).
  { destruct (truthy (strip text)) eqn:Ht; intros [= <-]; [|done].
    apply Forall_singleton. by apply strip_kept. }
  assert (forall cs, char_fallback text size overlap = Ok cs ->
                     Forall (fun c => c <> [] /\ strip c = c) cs) as Hfb.
  { intros cs. unfold char_fallback.
    destruct (py_range _ _ _) as [starts|]; [|done]. intros [= <-].
    by apply keep_window_trimmed. }
  destruct (truthy _); [|apply Hfb].
  destruct (str_split _ _) as [parts|]; [|done]. cbn [mbind result_bind].
  destruct (1 <? len parts); [|apply Hfb]. intros [= <-].
  by apply close_last_trimmed, accumulate_trimmed.
Qed.

Lemma split_go_some sep skip cur s : split_go sep skip cur s <> [].
Proof.
  revert skip cur. induction s as [|c s IH]; intros skip cur; simpl; [done|].
  destruct skip; [|apply IH]. destruct (starts_with sep (c :: s)); [done|].
  apply IH.
Qed.

Lemma split_go_none sep cur s :
  contains sep s = false -> split_go sep 0 cur s = [rev cur ++ s].
Proof.
  revert cur. induction s as [|c s IH]; intros cur; simpl.
  - by rewrite app_nil_r.
  - intros [Hs Hc]%orb_false_iff. simpl in Hs. rewrite Hs.
    rewrite IH by done. simpl. by rewrite <- app_assoc.
Qed.

Lemma split_go_found sep cur s :
  sep <> [] -> contains sep s = true ->
  (2 <= length (split_go sep 0 cur s))%nat.
Proof.
  intros Hne. revert cur. induction s as [|c s IH]; intros cur; simpl.
  - destruct sep; [done|]. done.
  - destruct (starts_with sep (c :: s)) eqn:Hs; simpl.
    + intros _. pose proof (split_go_some sep (length sep - 1) [] s) as Hn.
      destruct (split_go sep (length sep - 1) [] s) eqn:E; [done|].
      cbn [length]. lia.
    + intros H. by apply IH.
Qed.

Lemma py_range_nonneg n step starts :
  0 <= n -> py_range 0 n step = Ok starts -> Forall (fun i => 0 <= i) starts.
Proof.
  intros Hn Hr. destruct (Z.lt_trichotomy step 0) as [Hneg|[->|Hpos]].
  - rewrite py_range_neg in Hr by done. by injection Hr as <-.
  - done.
  - eapply Forall_impl; [apply (py_range_bounds n step starts Hpos Hr)|].
    simpl. lia.
Qed.

Lemma keep_window_bound size windows acc :
  Forall (fun c => len c <= size) acc ->
  Forall (fun c => len c <= size) windows ->
  Forall (fun c => len c <= size) (foldl keep_window acc windows).
Proof.
  intros Ha Hw. revert acc Ha.
  induction Hw as [|w windows Hw _ IH]; intros acc Ha; [done|].
  simpl. apply IH. unfold keep_window. destruct (truthy _); [|done].
  apply Forall_app. split; [done|]. apply Forall_singleton.
  pose proof (length_strip w). unfold len in *. lia.
Qed.

(** X2: a text without a paragraph break is cut into chunks of at most
    [chunk_size] characters, whatever the overlap, when [chunk_size] is
    not negative. *)
Theorem chunk_text_bound (text : list ascii) (size overlap : Z)
    (chunks : list (list ascii)) :
  contains [LF; LF] text = false ->
  0 <= size ->
  chunk_text text size overlap = Ok chunks ->
  Forall (fun c => len c <= size) chunks.
Proof.
  intros Hno Hsize. unfold chunk_text, _recursive_split.
  destruct (negb (truthy text) || negb (truthy (strip text))).
  { by intros [= <-]. }
  destruct (Z.leb_spec (len text) size).
  { destruct (truthy (strip text)); intros [= <-]; [|done].
    apply Forall_singleton. pose proof (length_strip text).
    unfold len in *. lia. }
  change (truthy match separators with
                 | [] => []
                 | s :: _ => s
                 end) with true. cbn match.
  change (match separators with
          | [] => []
          | s :: _ => s
          end) with [LF; LF].
  unfold str_split. rewrite split_go_none by done.
  cbn [mbind result_bind]. change (1 <? len [rev [] ++ text]) with false.
  cbn match. unfold char_fallback.
  destruct (py_range _ _ _) as [starts|] eqn:Hr; [|done]. intros [= <-].
  apply keep_window_bound; [done|]. apply Forall_fmap.
  eapply Forall_impl; [apply (py_range_nonneg _ _ _ (len_nonneg text) Hr)|].
  intros i Hi. simpl in Hi. unfold compose, window.
  rewrite slice_nonneg by lia. unfold len. rewrite length_take. lia.
Qed.

Lemma chunk_text_raise_iff (text : list ascii) (size overlap : Z) :
  (truthy (strip text) = true /\ size < len text /\
   contains [LF; LF] text = false /\ overlap = size
   -> chunk_text text size overlap = Raise ValueError) /\
  (forall e, chunk_text text size overlap = Raise e ->
             e = ValueError /\ truthy (strip text) = true /\
             size < len text /\ contains [LF; LF] text = false /\
             overlap = size).
Proof.
  unfold chunk_text, _recursive_split.
  assert (forall e, char_fallback text size overlap = Raise e ->
                    e = ValueError /\ overlap = size) as Hfb.
  { intros e. unfold char_fallback, py_range.
    destruct (Z.eqb_spec (size - overlap) 0); [|done].
    intros [= <-]. split; [done|lia]. }
  change (truthy match separators with
                 | [] => []
                 | s :: _ => s
                 end) with true. cbn match.
  change (match separators with
          | [] => []
          | s :: _ => s
          end) with [LF; LF].
  split.
  - intros (Ht & Hlen & Hno & ->).
    assert (truthy text = true) as ->.
    { destruct text; [done|done]. }
    rewrite Ht. simpl negb. cbn [orb].
    destruct (Z.leb_spec (len text) size); [lia|].
    unfold str_split. rewrite split_go_none by done.
    cbn [mbind result_bind]. change (1 <? len [rev [] ++ text]) with false.
    cbn match. unfold char_fallback, py_range.
    by rewrite Z.sub_diag.
  - intros e.
    destruct (truthy text) eqn:Hte; [|done].
    destruct (truthy (strip text)) eqn:Ht; [|done]. simpl negb. cbn [orb].
    destruct (Z.leb_spec (len text) size); [done|].
    destruct (contains [LF; LF] text) eqn:Hc.
    + unfold str_split. cbn [mbind result_bind].
      pose proof (split_go_found [LF; LF] [] text ltac:(done) Hc) as Hl.
      destruct (Z.ltb_spec 1 (len (split_go [LF; LF] 0 [] text))) as [|Hle];
        [done|]. unfold len in Hle. lia.
    + unfold str_split. rewrite split_go_none by done.
      cbn [mbind result_bind]. change (1 <? len [rev [] ++ text]) with false.
      cbn match. intros He. destruct (Hfb e He) as [-> ->]. done.
Qed.

(** X3: [chunk_text] raises exactly when the text is not blank, is
    longer than [chunk_size], has no paragraph break and
    [overlap = chunk_size], the stride of the character windows being
    then zero; the exception is [ValueError]. *)
Theorem chunk_text_raises (text : list ascii) (size overlap : Z) :
  (truthy (strip text) = true /\ size < len text /\
   contains [LF; LF] text = false /\ overlap = size
   -> chunk_text text size overlap = Raise ValueError) /\
  (forall e, chunk_text text size overlap = Raise e ->
             e = ValueError /\ truthy (strip text) = true /\
             size < len text /\ contains [LF; LF] text = false /\
             overlap = size).
Proof. apply chunk_text_raise_iff. Qed.

Lemma chunk_text_returns (text : list ascii) (size overlap : Z) :
  overlap <> size -> exists chunks, chunk_text text size overlap = Ok chunks.
Proof.
  intros Hne. destruct (chunk_text text size overlap) as [chunks|e] eqn:H;
    [by exists chunks|].
  by apply (proj2 (chunk_text_raise_iff text size overlap)) in H
    as (_ & _ & _ & _ & ?).
Qed.

End ChunkerMore.



Lemma chunk_text_chunks_trimmed_witness :
  exists chunks,
    Chunker.chunk_text paragraphs 6 0 = Ok chunks /\
    Forall (fun c => c <> [] /\ strip c = c) chunks.
Proof.
  destruct (Chunker.chunk_text paragraphs 6 0) as [chunks|e] eqn:E.
  - exists chunks. split; [reflexivity|].
    apply (chunk_text_chunks_trimmed paragraphs 6 0 chunks E).
  - exfalso. revert E. vm_compute. discriminate.
Defined.

Lemma chunk_text_bound_witness :
  exists chunks,
    Chunker.chunk_text (py "abcdefg") 4 2 = Ok chunks /\
    Forall (fun c => len c <= 4) chunks.
Proof.
  destruct (Chunker.chunk_text (py "abcdefg") 4 2) as [chunks|e] eqn:E.
  - exists chunks. split; [reflexivity|].
    apply (chunk_text_bound (py "abcdefg") 4 2 chunks);
      [reflexivity|lia|exact E].
  - exfalso. revert E. vm_compute. discriminate.
Defined.

Lemma chunk_text_raises_witness :
  Chunker.chunk_text (py "abcdefg") 4 4 = Raise ValueError.
Proof.
  apply (proj1 (chunk_text_raises (py "abcdefg") 4 4)).
  split_and!; reflexivity.
Defined.
(** ** Chunking a stream of documents *)

Section ChunkDocumentsProps.
Import VectorStore Chunker ChunkDocuments.

Lemma chunk_documents_app earlier later size overlap out :
  chunk_documents earlier size overlap = (out, None) ->
  chunk_documents (earlier ++ later) size overlap
  = (out ++ (chunk_documents later size overlap).1,
     (chunk_documents later size overlap).2).
Proof.
  revert out. induction earlier as [|[text metadata] earlier IH];
    intros out; cbn [chunk_documents app].
  - intros [= <-]. cbn [app]. apply surjective_pairing.
  - destruct (chunk_text text size overlap) as [chunks|e]; [|done].
    destruct (chunk_documents earlier size overlap) as [rest err] eqn:Hr.
    cbn [fst snd]. intros [= <- ->].
    rewrite (IH rest eq_refl). cbn [fst snd]. by rewrite app_assoc.
Qed.

(** X4: when [overlap] differs from [chunk_size], [chunk_documents]
    never raises, and it yields, document after document and in the
    order of [chunk_text], every chunk of a document with the metadata
    of that document and, under [chunk_index], the position of the
    chunk in its document counted from 0; a [chunk_index] already in the
    metadata is overwritten. *)
Theorem chunk_documents_numbers_chunks
    (documents : list (list ascii * gmap (list ascii) pyval))
    (size overlap : Z) :
  overlap <> size ->
  exists per_document : list (list (list ascii)),
    Forall2 (fun doc chunks => chunk_text doc.1 size overlap = Ok chunks)
      documents per_document /\
    chunk_documents documents size overlap
    = (concat
         (zip_with
            (fun doc chunks =>
               imap (fun i chunk =>
                       (chunk,
                        <[py "chunk_index" := PInt (Z.of_nat i)]> doc.2))
                 chunks)
            documents per_document),
       None).
Proof.
  intros Hne. induction documents as [|[text metadata] documents IH].
  - exists []. split; [constructor|done].
  - destruct IH as (per & Hper & Hdocs).
    destruct (chunk_text_returns text size overlap Hne) as [chunks Hc].
    exists (chunks :: per). split; [by constructor|].
    cbn [chunk_documents zip_with concat]. rewrite Hc, Hdocs. done.
Qed.

(** X5: [chunk_documents] stops at the first document on which
    [chunk_text] raises: the chunks of the documents before it have been
    yielded by then, and no document after it is looked at. *)
Theorem chunk_documents_stops_at_failure
    (earlier later : list (list ascii * gmap (list ascii) pyval))
    (text : list ascii) (metadata : gmap (list ascii) pyval)
    (size overlap : Z) (out : list (list ascii * gmap (list ascii) pyval))
    (e : exn) :
  chunk_documents earlier size overlap = (out, None) ->
  chunk_text text size overlap = Raise e ->
  chunk_documents (earlier ++ (text, metadata) :: later) size overlap
  = (out, Some e).
Proof.
  intros He Ht. rewrite (chunk_documents_app _ _ _ _ _ He).
  cbn [chunk_documents]. rewrite Ht. cbn [fst snd]. by rewrite app_nil_r.
Qed.

End ChunkDocumentsProps.

Lemma chunk_documents_numbers_chunks_witness :
  exists per_document : list (list (list ascii)),
    Forall2 (fun doc chunks => Chunker.chunk_text doc.1 6 0 = Ok chunks)
      [(paragraphs, Demo.meta_of "r.txt" "resume")] per_document /\
    ChunkDocuments.chunk_documents
      [(paragraphs, Demo.meta_of "r.txt" "resume")] 6 0
    = (concat
         (zip_with
            (fun doc chunks =>
               imap (fun i chunk =>
                       (chunk,
                        <[py "chunk_index" := VectorStore.PInt (Z.of_nat i)]>
                          doc.2))
                 chunks)
            [(paragraphs, Demo.meta_of "r.txt" "resume")] per_document),
       None).
Proof.
  apply (chunk_documents_numbers_chunks
           [(paragraphs, Demo.meta_of "r.txt" "resume")] 6 0).
  lia.
Defined.

Lemma chunk_documents_stops_at_failure_witness :
  ChunkDocuments.chunk_documents
    ([(py "ab", Demo.meta_of "e.txt" "experience")]
     ++ (py "abcdefg", Demo.meta_of "r.txt" "resume")
     :: [(py "cd", Demo.meta_of "b.txt" "book")]) 4 4
  = ([(py "ab",
       <[py "chunk_index" := VectorStore.PInt 0]>
         (Demo.meta_of "e.txt" "experience"))],
     Some ValueError).
Proof.
  apply (chunk_documents_stops_at_failure
           [(py "ab", Demo.meta_of "e.txt" "experience")]
           [(py "cd", Demo.meta_of "b.txt" "book")]
           (py "abcdefg") (Demo.meta_of "r.txt" "resume") 4 4).
  - reflexivity.
  - reflexivity.
Defined.
(** ** Vector store: failure, persistence, dimension, metadata *)

Section VectorStoreMoreProps.
Context {B : Backend} {F : VectorStore.FileSystem}.
Import VectorStore VectorStoreSpec VectorStoreMore.

Ltac unfold_M :=
  unfold mbind, M_bind, mret, M_ret, get, put, lift in *.

(** The steps of a call of [add_chunks] with chunks: it raises before
    anything is changed, or it extends the three collections and
    saves. *)
Lemma add_chunks_steps chunks metadatas bs s r s' :
  chunks <> [] ->
  add_chunks chunks metadatas bs s = (r, s') ->
  (s' = s /\ exists e, r = Raise e) \/
  exists embs vectors ix rs,
    np_array embs = Ok vectors /\
    index_add (match _index s with
               | None => IndexFlatIP (ncols (_normalize vectors))
               | Some ix0 => ix0
               end) (_normalize vectors) = Ok ix /\
    _save {| embedding_model := embedding_model s;
             ollama_host := ollama_host s;
             _index := Some ix;
             _chunks := _chunks s ++ chunks;
             _metadatas := _metadatas s ++ (clean_metadata <$> metadatas);
             index_file := index_file s; meta_file := meta_file s |}
    = (rs, s') /\
    r = (rs ≫= fun _ => Ok (len chunks)).
Proof.
  intros Hne. unfold add_chunks. destruct chunks as [|c chunks]; [done|].
  cbn [truthy negb]. unfold_M.
  destruct (py_range _ _ _) as [starts|e]; [|intros [= <- <-]; left; eauto].
  destruct (embed_batches _ _ _ _ _) as [[embs|e] s1] eqn:Hb;
    pose proof (embed_batches_state _ _ _ _ _ _ _ Hb) as ->;
    [|intros [= <- <-]; left; eauto].
  destruct (np_array embs) as [vectors|e] eqn:Hv;
    [|intros [= <- <-]; left; eauto].
  destruct (index_add _ _) as [ix|e] eqn:Ha;
    [|intros [= <- <-]; left; eauto].
  destruct (_save _) as [rs s2] eqn:Hs. intros Hres. right.
  exists embs, vectors, ix, rs.
  destruct rs; injection Hres as <- <-; done.
Qed.

(** The store a returning call of [add_chunks] with chunks leaves. *)
Lemma add_chunks_ok chunks metadatas bs s n s' :
  chunks <> [] ->
  add_chunks chunks metadatas bs s = (Ok n, s') ->
  exists embs vectors ix,
    np_array embs = Ok vectors /\
    index_add (match _index s with
               | None => IndexFlatIP (ncols (_normalize vectors))
               | Some ix0 => ix0
               end) (_normalize vectors) = Ok ix /\
    n = len chunks /\
    s' = {| embedding_model := embedding_model s;
            ollama_host := ollama_host s;
            _index := Some ix;
            _chunks := _chunks s ++ chunks;
            _metadatas := _metadatas s ++ (clean_metadata <$> metadatas);
            index_file := Readable ix;
            meta_file :=
              Readable (JObject (Some (_chunks s ++ chunks))
                          (Some (_metadatas s
                                 ++ (clean_metadata <$> metadatas)))) |}.
Proof.
  intros Hne H.
  destruct (add_chunks_steps _ _ _ _ _ _ Hne H)
    as [[_ [e ?]]|(embs & vectors & ix & rs & Hv & Ha & Hs & Hr)]; [done|].
  destruct rs as [[]|e]; [|done]. injection Hr as ->.
  apply _save_inv in Hs as (H1 & H2 & H3 & H4 & H5 & H6 & H7).
  exists embs, vectors, ix. split_and!; try done.
  destruct s'. cbn in *. by subst.
Qed.


(** X7: [search] and [count] never change the store, whether they
    return or raise. *)
Theorem search_count_read_only (s : store) (query : list ascii) (top_k : Z)
    (filt : option (list (list ascii))) :
  (search query top_k filt s).2 = s /\ (count s).2 = s.
Proof.
  split.
  - apply (search_state query top_k filt s (search query top_k filt s).1).
    apply surjective_pairing.
  - by rewrite count_eq.
Qed.

(** X8: what [add_chunks] saves is what a new store loads: after a call
    that returns having added chunks, a store opened on the same files
    is the store itself, with the same index, chunks and metadata. *)
Theorem add_chunks_then_reopen (chunks : list (list ascii))
    (metadatas : list (gmap (list ascii) pyval)) (batch_size n : Z)
    (s s' : store) :
  chunks <> [] ->
  add_chunks chunks metadatas batch_size s = (Ok n, s') ->
  reopen s' = Ok s'.
Proof.
  intros Hne H.
  destruct (add_chunks_ok _ _ _ _ _ _ Hne H) as (embs & v & ix & _ & _ & _ & ->).
  reflexivity.
Qed.

(** X9: [clear] empties the index, the chunks and the metadata of the
    object before it touches the files, so they are empty whether it
    returns or raises.  When it returns, both files are gone and a
    store opened afterwards is that empty store.  It raises only when
    the removal of a file that exists fails: if it is the index file,
    both files are still in place, and a store opened afterwards loads
    what was there before; if it is the metadata file, the index file
    is gone and a store opened afterwards is empty. *)
Theorem clear_effects (s s' : store) (r : result unit) :
  clear s = (r, s') ->
  _index s' = None /\ _chunks s' = [] /\ _metadatas s' = [] /\
  match r with
  | Ok _ =>
      index_file s' = Absent /\ meta_file s' = Absent /\ reopen s' = Ok s'
  | Raise e =>
      (exists_ (index_file s) = true /\
       unlink_index (index_file s) = Some e /\
       index_file s' = index_file s /\ meta_file s' = meta_file s /\
       reopen s' = reopen s)
      \/
      (exists_ (meta_file s) = true /\
       unlink_json (meta_file s) = Some e /\
       index_file s' = Absent /\ meta_file s' = meta_file s /\
       reopen s' = Ok s')
  end.
Proof.
  intros (H1 & H2 & H3 & H4 & H5 & H6)%clear_inv. split_and!; try done.
  destruct r as [[]|e].
  - destruct H6 as [H6 H7]. split_and!; try done.
    destruct s'. cbn in *. by subst.
  - destruct H6 as [(Ha & Hb & Hc & Hd)|(Ha & Hb & Hc & Hd)]; [left|right];
      split_and!; try done.
    + unfold reopen. by rewrite H1, H2, Hc, Hd.
    + destruct s'. cbn in *. by subst.
Qed.

Lemma length_normalize_row v : length (normalize_row v) = length v.
Proof. unfold normalize_row. apply length_fmap. Qed.

Lemma np_array_rows embs vectors :
  np_array embs = Ok vectors ->
  rows vectors = embs /\ Forall (fun v => len v = ncols vectors) embs.
Proof.
  unfold np_array. destruct embs as [|r rest]; [done|].
  destruct (forallb _ _) eqn:Hf; [|done]. intros [= <-]. simpl.
  split; [done|]. constructor; [done|].
  rewrite forallb_forall in Hf. apply Forall_forall.
  intros x Hx%list_elem_of_In. apply Hf in Hx. lia.
Qed.

(** X10: the dimension of the index is fixed by the first insertion:
    [add_chunks] keeps every stored vector of the dimension of the
    index, and never changes the dimension of an index that exists;
    vectors of another width make it raise. *)
Theorem add_chunks_keeps_dimension (chunks : list (list ascii))
    (metadatas : list (gmap (list ascii) pyval)) (batch_size : Z)
    (s s' : store) (r : result Z) :
  well_dimensioned s ->
  add_chunks chunks metadatas batch_size s = (r, s') ->
  well_dimensioned s' /\
  forall ix, _index s = Some ix ->
             exists ix', _index s' = Some ix' /\ d ix' = d ix.
Proof.
  intros Hwd H.
  destruct chunks as [|c chunks].
  { unfold add_chunks in H. simpl in H. injection H as _ <-. eauto. }
  assert (c :: chunks <> []) as Hne by done.
  destruct (add_chunks_steps _ _ _ _ _ _ Hne H)
    as [[-> _]|(embs & v & ix & rs & Hv & Ha & Hs & _)]; [eauto|].
  apply _save_inv in Hs as (_ & _ & Hix' & _). cbn in Hix'.
  unfold well_dimensioned. rewrite Hix'. clear Hix' H.
  apply np_array_rows in Hv as [Hrows Hcols].
  unfold index_add in Ha.
  destruct (Z.eqb_spec (ncols (_normalize v))
              (d match _index s with
                 | Some ix0 => ix0
                 | None => IndexFlatIP (ncols (_normalize v))
                 end)) as [Heq|]; [|done].
  injection Ha as <-. split.
  - intros ix' [= <-]. simpl. apply Forall_app. split.
    + destruct (_index s) as [ix0|] eqn:Hix; [by apply Hwd|done].
    + rewrite Hrows. apply Forall_fmap. eapply Forall_impl; [exact Hcols|].
      intros x Hx. simpl. unfold len in *.
      rewrite length_normalize_row, Hx. exact Heq.
  - intros ix0 Hix. rewrite Hix. eexists. split; [reflexivity|done].
Qed.

Lemma clean_value_scalar v : scalar (clean_value v).
Proof. by destruct v. Qed.

Lemma clean_value_kept v : scalar v -> clean_value v = v.
Proof. by destruct v. Qed.

Lemma clean_metadata_stored m : stored_as m (clean_metadata m).
Proof.
  intros k. unfold clean_metadata. rewrite lookup_fmap. split_and!.
  - done.
  - intros v. destruct (m !! k) as [w|]; [|done]. simpl.
    intros [= <-]. apply clean_value_scalar.
  - intros v -> Hv. simpl. by rewrite clean_value_kept.
Qed.

(** X11: the metadata records appended by a returning [add_chunks] are
    the records given, in order, each stored with the same keys and
    with scalar values only: a scalar value is kept as it is and any
    other value is replaced by a string. *)
Theorem add_chunks_stores_scalars (chunks : list (list ascii))
    (metadatas : list (gmap (list ascii) pyval)) (batch_size n : Z)
    (s s' : store) :
  chunks <> [] ->
  add_chunks chunks metadatas batch_size s = (Ok n, s') ->
  exists added,
    _metadatas s' = _metadatas s ++ added /\
    Forall2 stored_as metadatas added.
Proof.
  intros Hne H.
  destruct (add_chunks_ok _ _ _ _ _ _ Hne H) as (embs & v & ix & _ & _ & _ & ->).
  exists (clean_metadata <$> metadatas). split; [done|].
  apply Forall2_fmap_r, Forall_Forall2_diag, Forall_forall.
  intros m _. apply clean_metadata_stored.
Qed.

Lemma at_index_lookup {A} (l : list A) idx x :
  at_index l idx = Ok x -> l !! Z.to_nat idx = Some x.
Proof. unfold at_index. by destruct (l !! Z.to_nat idx); intros [= ->]. Qed.

Lemma collect_located s top_k filt cands acc out :
  Forall (located s) acc ->
  collect s top_k filt cands acc = Ok out ->
  Forall (located s) out.
Proof.
  revert acc. induction cands as [|[idx score] cands IH]; intros acc Hacc;
    cbn [collect].
  - by intros [= <-].
  - destruct (_ || _); [by apply IH|].
    destruct (at_index (_metadatas s) idx) as [meta|] eqn:Hm; [|done].
    cbn [mbind result_bind].
    destruct (_ && _); [by apply IH|].
    destruct (at_index (_chunks s) idx) as [chunk|] eqn:Hc; [|done].
    cbn [mbind result_bind].
    assert (Forall (located s)
              (acc ++ [{| content := chunk; metadata_of := meta;
                          distance := f_sub f_one score |}])) as Hacc'.
    { apply Forall_app. split; [done|]. apply Forall_singleton.
      exists (Z.to_nat idx). simpl.
      split; by apply at_index_lookup. }
    destruct (_ <=? _); [by intros [= <-]|by apply IH].
Qed.

Lemma collect_returns s top_k filt cands acc :
  len (_chunks s) <= len (_metadatas s) ->
  exists out, collect s top_k filt cands acc = Ok out.
Proof.
  intros Hlen. revert acc.
  induction cands as [|[idx score] cands IH]; intros acc; cbn [collect];
    [eauto|].
  destruct (Z.ltb_spec idx 0); [apply IH|].
  destruct (Z.leb_spec (len (_chunks s)) idx); [apply IH|]. cbn [orb].
  unfold at_index.
  destruct (lookup_lt_is_Some_2 (_metadatas s) (Z.to_nat idx)) as [meta ->].
  { unfold len in *. lia. }
  destruct (lookup_lt_is_Some_2 (_chunks s) (Z.to_nat idx)) as [chunk ->].
  { unfold len in *. lia. }
  cbn [mbind result_bind].
  destruct (_ && _); [apply IH|]. destruct (_ <=? _); eauto.
Qed.

(** X12: every result of [search] pairs the chunk and the metadata
    that stand at one position of the store. *)
Theorem search_results_located (s s' : store) (query : list ascii)
    (top_k : Z) (filt : option (list (list ascii))) (out : list hit) :
  search query top_k filt s = (Ok out, s') ->
  Forall (located s) out.
Proof.
  unfold search, _embed. unfold_M.
  destruct (_index s); [|by intros [= <- _]].
  destruct (_ =? 0); [by intros [= <- _]|].
  destruct (ollama_embed _ _ _); [|done].
  destruct (np_array _); [|done].
  destruct (index_search _ _ _); [|done].
  destruct (at_index _ _); [|done].
  destruct (collect _ _ _ _ _) eqn:Hc; [|done]. intros [= <- _].
  by apply (collect_located _ _ _ _ _ _ (Forall_nil_2 _) Hc).
Qed.

(** X13: on a store with a metadata record for each chunk, [search]
    raises only what the embedding service, the conversion of its
    answer to an array or the index search raise: reading the rows of
    the answer adds no failure. *)
Theorem search_raises_only_upstream (s s' : store) (query : list ascii)
    (top_k : Z) (filt : option (list (list ascii))) (e : exn) :
  len (_chunks s) <= len (_metadatas s) ->
  search query top_k filt s = (Raise e, s') ->
  exists ix, _index s = Some ix /\ _chunks s <> [] /\
    (ollama_embed (ollama_host s) (embedding_model s) [query] = Raise e \/
     exists emb,
       ollama_embed (ollama_host s) (embedding_model s) [query] = Ok emb /\
       (np_array emb = Raise e \/
        exists q,
          np_array emb = Ok q /\
          index_search ix (_normalize q)
            (fetch_k top_k (default [] filt) (ntotal ix)) = Raise e)).
Proof.
  intros Hlen. unfold search, _embed. unfold_M.
  destruct (_index s) as [ix|]; [|done].
  destruct (Z.eqb_spec (len (_chunks s)) 0) as [|Hne]; [done|].
  intros H. exists ix. split; [done|]. split.
  { intros Hnil. by rewrite Hnil in Hne. }
  destruct (ollama_embed _ _ _) as [emb|e0]; [|left; congruence].
  right. exists emb. split; [done|].
  destruct (np_array emb) as [q|e0] eqn:Hq; [|left; congruence].
  right. exists q. split; [done|].
  destruct (index_search _ _ _) as [found|e0] eqn:Hs; [|congruence].
  exfalso. destruct (at_index found 0) as [row|e1] eqn:Hrow.
  - destruct (collect_returns s top_k (default [] filt) row [] Hlen)
      as [out Hout].
    rewrite Hout in H. done.
  - unfold index_search in Hs.
    destruct (negb (_ =? _)); [done|]. destruct (negb (_ <? _)); [done|].
    injection Hs as <-.
    pose proof (np_array_rows _ _ Hq) as [Hrows _].
    unfold _normalize in Hrow. cbn [rows] in Hrow. rewrite Hrows in Hrow.
    destruct emb; [discriminate Hq|discriminate Hrow].
Qed.

End VectorStoreMoreProps.

Import DemoStores.


Lemma clear_effects_witness :
  VectorStore._index
    (VectorStore.clear (F := locked_disk demo_backend) wide_store).2 = None /\
  VectorStore._chunks
    (VectorStore.clear (F := locked_disk demo_backend) wide_store).2 = [] /\
  VectorStore._metadatas
    (VectorStore.clear (F := locked_disk demo_backend) wide_store).2 = [] /\
  (VectorStore.exists_ (VectorStore.index_file wide_store) = true /\
   VectorStore.unlink_index (FileSystem := locked_disk demo_backend)
     (VectorStore.index_file wide_store) = Some OSError /\
   VectorStore.index_file
     (VectorStore.clear (F := locked_disk demo_backend) wide_store).2
   = VectorStore.index_file wide_store /\
   VectorStore.meta_file
     (VectorStore.clear (F := locked_disk demo_backend) wide_store).2
   = VectorStore.meta_file wide_store /\
   VectorStoreMore.reopen
     (VectorStore.clear (F := locked_disk demo_backend) wide_store).2
   = VectorStoreMore.reopen wide_store
   \/
   VectorStore.exists_ (VectorStore.meta_file wide_store) = true /\
   VectorStore.unlink_json (FileSystem := locked_disk demo_backend)
     (VectorStore.meta_file wide_store) = Some OSError /\
   VectorStore.index_file
     (VectorStore.clear (F := locked_disk demo_backend) wide_store).2
   = VectorStore.Absent /\
   VectorStore.meta_file
     (VectorStore.clear (F := locked_disk demo_backend) wide_store).2
   = VectorStore.meta_file wide_store /\
   VectorStoreMore.reopen
     (VectorStore.clear (F := locked_disk demo_backend) wide_store).2
   = Ok (VectorStore.clear (F := locked_disk demo_backend) wide_store).2).
Proof.
  apply (clear_effects (F := locked_disk demo_backend) wide_store _
           (Raise OSError)).
  apply injective_projections; reflexivity.
Defined.

Lemma add_chunks_then_reopen_witness :
  VectorStoreMore.reopen
    (VectorStore.add_chunks two_chunks two_metadatas 1 empty_store).2
  = Ok (VectorStore.add_chunks two_chunks two_metadatas 1 empty_store).2.
Proof.
  apply (add_chunks_then_reopen two_chunks two_metadatas 1 2 empty_store).
  - discriminate.
  - apply injective_projections; [|reflexivity].
    vm_compute. reflexivity.
Defined.

Lemma add_chunks_keeps_dimension_witness :
  VectorStoreMore.well_dimensioned
    (VectorStore.add_chunks two_chunks two_metadatas 1 empty_store).2.
Proof.
  apply (add_chunks_keeps_dimension two_chunks two_metadatas 1 empty_store
           _ (VectorStore.add_chunks two_chunks two_metadatas 1 empty_store).1).
  - intros ix. discriminate.
  - apply surjective_pairing.
Defined.

Lemma add_chunks_stores_scalars_witness :
  exists added,
    VectorStore._metadatas
      (VectorStore.add_chunks two_chunks two_metadatas 1 empty_store).2 = [] ++ added /\
    Forall2 VectorStoreMore.stored_as two_metadatas added.
Proof.
  apply (add_chunks_stores_scalars two_chunks two_metadatas 1 2 empty_store).
  - discriminate.
  - apply injective_projections; [|reflexivity].
    vm_compute. reflexivity.
Defined.

Lemma search_results_located_witness :
  exists out,
    (VectorStore.search (py "q") 1 (Some [py "resume"]) three_entries).1
      = Ok out /\
    Forall (VectorStoreMore.located three_entries) out.
Proof.
  destruct (VectorStore.search (py "q") 1 (Some [py "resume"])
              three_entries).1 as [out|e] eqn:E.
  - exists out. split; [reflexivity|].
    apply (search_results_located three_entries
             (VectorStore.search (py "q") 1 (Some [py "resume"])
                three_entries).2 (py "q") 1 (Some [py "resume"]) out).
    rewrite <- E. apply surjective_pairing.
  - exfalso. revert E. vm_compute. discriminate.
Defined.

Lemma search_raises_only_upstream_witness :
  exists ix, VectorStore._index wide_store = Some ix /\
    VectorStore._chunks wide_store <> [] /\
    (ollama_embed (Backend := demo_backend) (VectorStore.ollama_host wide_store)
       (VectorStore.embedding_model wide_store) [py "q"]
       = Raise AssertionError \/
     exists emb,
       ollama_embed (Backend := demo_backend) (VectorStore.ollama_host wide_store)
         (VectorStore.embedding_model wide_store) [py "q"] = Ok emb /\
       (VectorStore.np_array emb = Raise AssertionError \/
        exists q,
          VectorStore.np_array emb = Ok q /\
          VectorStore.index_search ix (VectorStore._normalize q)
            (VectorStore.fetch_k 3 (default [] None) (VectorStore.ntotal ix))
          = Raise AssertionError)).
Proof.
  apply (search_raises_only_upstream wide_store wide_store (py "q") 3 None
           AssertionError).
  - vm_compute. discriminate.
  - apply injective_projections; vm_compute; reflexivity.
Defined.

(** ** Loaders: what a scan yields, what it prints, what it ignores *)

Section LoadersMore.
Import VectorStore Loaders LoadersSpec Uploads Sanitizer.

Lemma sanitize_resume_text_trimmed text :
  strip (sanitize_resume_text text) = sanitize_resume_text text.
Proof.
  unfold sanitize_resume_text. destruct (negb (truthy text)); [done|].
  apply strip_strip.
Qed.

Lemma load_document_inv file_path doc_type r :
  load_document file_path doc_type = r ->
  lower (suffix (name file_path)) ∈ supported ->
  match r with
  | Raise e => read_by_suffix file_path = Raise e
  | Ok (text, metadata) =>
      strip text = text /\
      metadata !! py "source" = Some (PStr (name file_path)) /\
      metadata !! py "doc_type" = Some (PStr doc_type) /\
      metadata !! py "sanitized"
      = (if bool_decide (doc_type = py "resume") then Some (PBool true)
         else None)
  end.
Proof.
  intros <- Hs. unfold load_document, read_by_suffix.
  assert (forall t : result (list ascii),
    match
      (text ← t;
       if bool_decide (doc_type = py "resume")
       then Ok (sanitize_resume_text (strip text),
                <[py "sanitized" := PBool true]>
                  (<[py "doc_type" := PStr doc_type]>
                     (<[py "source" := PStr (name file_path)]> ∅)))
       else Ok (strip text,
                <[py "doc_type" := PStr doc_type]>
                  (<[py "source" := PStr (name file_path)]>
                     (∅ : gmap (list ascii) pyval))))
    with
    | Raise e => t = Raise e
    | Ok (text, metadata) =>
        strip text = text /\
        metadata !! py "source" = Some (PStr (name file_path)) /\
        metadata !! py "doc_type" = Some (PStr doc_type) /\
        metadata !! py "sanitized"
        = (if bool_decide (doc_type = py "resume") then Some (PBool true)
           else None)
    end) as Hgen.
  { intros [text|e]; [|done]. cbn [mbind result_bind].
    case_bool_decide.
    - split; [apply sanitize_resume_text_trimmed|]. split_and!.
      + rewrite lookup_insert_ne by (vm_compute; discriminate).
        rewrite lookup_insert_ne by (vm_compute; discriminate).
        by rewrite lookup_insert_eq.
      + rewrite lookup_insert_ne by (vm_compute; discriminate).
        by rewrite lookup_insert_eq.
      + by rewrite lookup_insert_eq.
    - split; [apply strip_strip|]. split_and!.
      + rewrite lookup_insert_ne by (vm_compute; discriminate).
        by rewrite lookup_insert_eq.
      + by rewrite lookup_insert_eq.
      + rewrite lookup_insert_ne by (vm_compute; discriminate).
        rewrite lookup_insert_ne by (vm_compute; discriminate).
        done. }
  destruct (bool_decide (lower (suffix (name file_path)) = py ".pdf")) eqn:E1;
    [apply Hgen|].
  destruct (bool_decide (lower (suffix (name file_path))
                         ∈ [py ".docx"; py ".doc"])) eqn:E2; [apply Hgen|].
  destruct (bool_decide (lower (suffix (name file_path))
                         ∈ [py ".txt"; py ".md"; py ".markdown"])) eqn:E3;
    [apply Hgen|].
  exfalso. apply bool_decide_eq_false in E1, E2, E3. unfold supported in Hs.
  repeat (apply elem_of_cons in Hs as [Hs|Hs]);
    try (by apply elem_of_nil in Hs); set_solver.
Qed.

Lemma _infer_doc_type_values file_path :
  _infer_doc_type file_path ∈ [py "resume"; py "experience"; py "book"].
Proof.
  unfold _infer_doc_type. destruct (rel file_path) as [[|folder ?]|];
    [set_solver| |set_solver].
  repeat case_bool_decide; set_solver.
Qed.

Lemma scan_path_inv file_path :
  (scan_path file_path = nothing) \/
  (exists doc, scan_path file_path = {| yielded := [doc]; printed := [] |} /\
               loaded_from file_path doc) \/
  (exists w, scan_path file_path = {| yielded := []; printed := [w] |} /\
             warned_about file_path w).
Proof.
  unfold scan_path. destruct (is_file file_path) eqn:Hf; [|by left].
  cbn [andb]. case_bool_decide as Hs; [|by left].
  pose proof (load_document_inv file_path (_infer_doc_type file_path) _
                eq_refl Hs) as Hl.
  destruct (load_document _ _) as [[text metadata]|e] eqn:Hd.
  - destruct text as [|c text]; [by left|]. right. left.
    exists (c :: text, metadata). split; [done|].
    destruct Hl as (Ht & Hsrc & Hty & Hsan).
    split_and!; try done.
    exists (_infer_doc_type file_path).
    split; [apply _infer_doc_type_values|done].
  - right. right. exists (name file_path, e). split; [done|].
    by split_and!.
Qed.

Lemma scan_unfold file_path paths :
  load_documents_from_dir (Some (file_path :: paths))
  = scanned_app (scan_path file_path) (load_documents_from_dir (Some paths)).
Proof.
  change (file_path :: paths) with ([file_path] ++ paths).
  rewrite load_documents_from_dir_app. f_equal.
Qed.

(** X14: every pair yielded by [load_documents_from_dir] comes from a
    regular file of the directory with a supported suffix: its text is
    not empty and has no whitespace at either end, its [source] is the
    name of the file, its [doc_type] is [resume], [experience] or
    [book], and it carries [sanitized = True] exactly when it is a
    resume. *)
Theorem load_documents_from_dir_yields (sources_dir : option (list path)) :
  Forall (fun doc => exists file_path,
                       file_path ∈ default [] sources_dir /\
                       loaded_from file_path doc)
    (yielded (load_documents_from_dir sources_dir)).
Proof.
  destruct sources_dir as [paths|]; [|constructor].
  induction paths as [|p paths IH]; [constructor|].
  rewrite scan_unfold. cbn [yielded scanned_app]. apply Forall_app. split.
  - destruct (scan_path_inv p) as [->|[(doc & -> & Hd)|(w & -> & _)]];
      [constructor| |constructor].
    apply Forall_singleton. exists p. split; [set_solver|done].
  - eapply Forall_impl; [exact IH|]. intros doc (q & Hq & Hd).
    exists q. split; [|done]. simpl in *. set_solver.
Qed.

(** X15: every warning printed by [load_documents_from_dir] names a
    regular file of the directory with a supported suffix whose reader
    raised the exception reported; and a file gives at most one pair or
    one warning, never both. *)
Theorem load_documents_from_dir_warnings (sources_dir : option (list path)) :
  Forall (fun w => exists file_path,
                     file_path ∈ default [] sources_dir /\
                     warned_about file_path w)
    (printed (load_documents_from_dir sources_dir)) /\
  len (yielded (load_documents_from_dir sources_dir))
  + len (printed (load_documents_from_dir sources_dir))
  <= len (default [] sources_dir).
Proof.
  destruct sources_dir as [paths|]; [|split; [constructor|done]].
  induction paths as [|p paths [IH1 IH2]]; [split; [constructor|done]|].
  rewrite scan_unfold. cbn [yielded printed scanned_app default] in *.
  split.
  - apply Forall_app. split.
    + destruct (scan_path_inv p) as [->|[(doc & -> & _)|(w & -> & Hw)]];
        [constructor|constructor|].
      apply Forall_singleton. exists p. split; [set_solver|done].
    + eapply Forall_impl; [exact IH1|]. intros w (q & Hq & Hw).
      exists q. split; [|done]. set_solver.
  - rewrite !len_app.
    destruct (scan_path_inv p) as [->|[(doc & -> & _)|(w & -> & _)]];
      cbn [yielded printed]; unfold len, id, nothing in *;
      cbn [length yielded printed]; lia.
Qed.

(** X16: directories and files with another suffix leave no trace: the
    scan of a directory is the scan of its regular files with a
    supported suffix. *)
Theorem load_documents_from_dir_ignores (paths : list path) :
  load_documents_from_dir (Some paths)
  = load_documents_from_dir
      (Some (List.filter
               (fun p => is_file p
                         && bool_decide (lower (suffix (name p)) ∈ supported))
               paths)).
Proof.
  induction paths as [|p paths IH]; [done|].
  cbn [List.filter].
  destruct (is_file p && bool_decide (lower (suffix (name p)) ∈ supported))
    eqn:Hp.
  - by rewrite !scan_unfold, IH.
  - rewrite scan_unfold, IH. unfold scan_path. rewrite Hp.
    apply scanned_app_nothing_l.
Qed.

(** X17: a file read from disk and the same file uploaded give the
    same text: [load_document] returns the text of
    [load_uploaded_file] with the whitespace at its ends removed, and
    sanitized for a resume, and the one raises when the other does. *)
Theorem load_document_as_uploaded (file_path : path)
    (uploaded : uploaded_file) (doc_type : list ascii) :
  same_file file_path uploaded ->
  (doc ← load_document file_path doc_type; Ok doc.1)
  = (text ← load_uploaded_file uploaded;
     Ok (if bool_decide (doc_type = py "resume")
         then sanitize_resume_text (strip text)
         else strip text)).
Proof.
  intros (Hn & Hp & Hd & Ht).
  unfold load_document, load_uploaded_file, _load_pdf, _load_docx, _load_txt.
  rewrite Hn, Hp, Hd, Ht. cbn [default].
  repeat case_bool_decide; try done;
    repeat match goal with
           | |- context [pdf_pages file_path] =>
               destruct (pdf_pages file_path); [|done]
           | |- context [docx_paragraphs file_path] =>
               destruct (docx_paragraphs file_path); [|done]
           end; cbn [mbind result_bind]; try done;
    by case_bool_decide.
Qed.

End LoadersMore.

Lemma load_document_as_uploaded_witness :
  (doc ← Loaders.load_document experience_note (py "experience"); Ok doc.1)
  = (text ← Uploads.load_uploaded_file
              {| Uploads.name_attr := Some (py "e.txt");
                 Uploads.upload_pdf_pages := Raise ValueError;
                 Uploads.upload_docx_paragraphs := Raise ValueError;
                 Uploads.decoded := py "Drafted bill analyses." |};
     Ok (if bool_decide (py "experience" = py "resume")
         then Sanitizer.sanitize_resume_text (strip text)
         else strip text)).
Proof.
  apply (load_document_as_uploaded experience_note).
  split_and!; reflexivity.
Defined.
(** ** Keyword extraction and retrieval *)

Section RagMore.
Import Regex Rag RagSpec KeywordSteps.

Lemma add_term_vocabulary text_lower terms st :
  NoDup terms ->
  (forall t, t ∈ terms -> t ∉ st.1) ->
  (foldl (add_term text_lower) st terms).2
  = st.2 ++ List.filter (fun t => contains t text_lower) terms.
Proof.
  revert st. induction terms as [|t terms IH]; intros st Hnd Hfresh.
  { simpl. by rewrite app_nil_r. }
  apply NoDup_cons in Hnd as [Ht Hnd]. cbn [foldl List.filter].
  unfold add_term at 2.
  rewrite (bool_decide_eq_false_2 (t ∈ st.1)) by (apply Hfresh; set_solver).
  rewrite andb_true_r. destruct (contains t text_lower).
  - rewrite IH; [|done|].
    + cbn [add snd]. by rewrite <- app_assoc.
    + intros t' Ht'. cbn [add fst].
      assert (t' <> t) by (intros Heq; by rewrite Heq in Ht').
      assert (t' ∉ st.1) by (apply Hfresh; set_solver).
      apply not_elem_of_union. split; [|done].
      by apply not_elem_of_singleton.
  - apply IH; [done|]. intros t' Ht'. apply Hfresh. set_solver.
Qed.

Lemma appends_foldl {A} (f : collected -> A -> collected) l st :
  appends f -> exists more, (foldl f st l).2 = st.2 ++ more.
Proof.
  intros Hf. revert st. induction l as [|x l IH]; intros st.
  { exists []. simpl. by rewrite app_nil_r. }
  simpl. destruct (IH (f st x)) as [m1 ->]. destruct (Hf st x) as [m2 ->].
  exists (m2 ++ m1). by rewrite app_assoc.
Qed.

Lemma appends_add_bullet_word : appends add_bullet_word.
Proof.
  intros st w. unfold add_bullet_word. destruct (_ && _).
  - by exists [lower w].
  - exists []. by rewrite app_nil_r.
Qed.

Lemma appends_add_bullet : appends add_bullet.
Proof.
  intros st g. unfold add_bullet. apply appends_foldl, appends_add_bullet_word.
Qed.

Lemma appends_add_capitalized : appends add_capitalized.
Proof.
  intros st g. unfold add_capitalized. destruct (_ && _ && _).
  - by exists [lower g].
  - exists []. by rewrite app_nil_r.
Qed.

Lemma appends_add_word : appends add_word.
Proof.
  intros st w. unfold add_word. destruct (_ && _).
  - by exists [w].
  - exists []. by rewrite app_nil_r.
Qed.

Lemma CA_LEG_KEYWORDS_NoDup : NoDup CA_LEG_KEYWORDS.
Proof. apply (bool_decide_unpack _). vm_compute. exact I. Qed.

Lemma collect_vocabulary_first tl (l1 l2 l3 : list (list ascii)) :
  exists others,
    (foldl add_word
       (foldl add_capitalized
          (foldl add_bullet
             (foldl (add_term tl) (∅, []) CA_LEG_KEYWORDS) l1) l2) l3).2
    = List.filter (fun term => contains term tl) CA_LEG_KEYWORDS ++ others.
Proof.
  pose proof (add_term_vocabulary tl CA_LEG_KEYWORDS (∅, [])
                CA_LEG_KEYWORDS_NoDup) as H0.
  generalize dependent (foldl (add_term tl) (∅, []) CA_LEG_KEYWORDS).
  intros st0 H0.
  destruct (appends_foldl add_bullet l1 st0 appends_add_bullet) as [m1 H1].
  generalize dependent (foldl add_bullet st0 l1). intros st1 H1.
  destruct (appends_foldl add_capitalized l2 st1 appends_add_capitalized)
    as [m2 H2].
  generalize dependent (foldl add_capitalized st1 l2). intros st2 H2.
  destruct (appends_foldl add_word l3 st2 appends_add_word) as [m3 H3].
  exists (m1 ++ m2 ++ m3). rewrite H3, H2, H1, H0.
  - cbn [snd app]. by rewrite <- !app_assoc.
  - intros t _. cbn [fst]. apply not_elem_of_empty.
Qed.

(** X18: the terms of the vocabulary that occur in the lowercased text
    come first in the result of [extract_keywords], in the order of the
    vocabulary; what the bullet lines, the capitalized phrases and the
    words add comes after them. *)
Theorem extract_keywords_vocabulary_first (text : list ascii) :
  truthy (strip text) = true ->
  exists others,
    forall max_keywords,
      extract_keywords text max_keywords
      = slice_to
          (List.filter (fun term => contains term (lower text))
             CA_LEG_KEYWORDS ++ others)
          max_keywords.
Proof.
  intros Ht. unfold extract_keywords, collect_keywords.
  assert (truthy text = true) as -> by (by destruct text).
  rewrite Ht. cbn [negb orb].
  destruct (collect_vocabulary_first (lower text)
              (finditer_group1 bullet_re text)
              (finditer_group1 capitalized_re text)
              (finditer_group1 word_re (lower text))) as [others Ho].
  exists others. intros max_keywords. by rewrite Ho.
Qed.

(** X19: raising [max_keywords] only adds keywords at the end: for
    [0 <= m <= m'], [extract_keywords text m] is a prefix of
    [extract_keywords text m']. *)
Theorem extract_keywords_prefix (text : list ascii) (m m' : Z) :
  0 <= m <= m' ->
  extract_keywords text m `prefix_of` extract_keywords text m'.
Proof.
  intros Hm. unfold extract_keywords. destruct (_ || _); [done|].
  rewrite !slice_to_nonneg by lia.
  exists (drop (Z.to_nat m) (take (Z.to_nat m') (collect_keywords text).2)).
  rewrite <- (take_drop (Z.to_nat m)
                (take (Z.to_nat m') (collect_keywords text).2)) at 1.
  f_equal. rewrite take_take. f_equal. lia.
Qed.

End RagMore.

Lemma extract_keywords_vocabulary_first_witness :
  exists others,
    forall max_keywords,
      Rag.extract_keywords job_text max_keywords
      = slice_to
          (List.filter (fun term => contains term (lower job_text))
             Rag.CA_LEG_KEYWORDS ++ others)
          max_keywords.
Proof.
  apply (extract_keywords_vocabulary_first job_text). reflexivity.
Defined.

Lemma extract_keywords_prefix_witness :
  Rag.extract_keywords job_text 3 `prefix_of` Rag.extract_keywords job_text 5.
Proof. apply (extract_keywords_prefix job_text 3 5). lia. Defined.

Section RetrievalProps.
Context {B : Backend}.
Variable float_repr : Z -> list ascii.
Import VectorStore VectorStoreSpec VectorStoreMore Retrieval.

Ltac unfold_M :=
  unfold mbind, M_bind, mret, M_ret, get, put, lift in *.

(** What a call of [search] that returns has gone through. *)
Lemma search_ok_inv query top_k filt s out s' :
  search query top_k filt s = (Ok out, s') ->
  out = [] \/
  0 < top_k /\ _chunks s <> [] /\
  exists cands, collect s top_k (default [] filt) cands [] = Ok out.
Proof.
  unfold search, _embed. unfold_M.
  destruct (_index s) as [ix|]; [|intros [= <- _]; by left].
  destruct (Z.eqb_spec (len (_chunks s)) 0) as [|Hne];
    [intros [= <- _]; by left|].
  destruct (ollama_embed _ _ _); [|done].
  destruct (np_array _); [|done].
  destruct (index_search _ _ _) as [found|] eqn:Hs; [|done].
  destruct (at_index found 0) as [row|]; [|done].
  destruct (collect _ _ _ _ _) as [res|] eqn:Hc; [|done].
  intros [= <- _]. right. split_and!.
  - unfold index_search in Hs. destruct (negb (_ =? _)); [done|].
    destruct (Z.ltb_spec 0 (fetch_k top_k (default [] filt) (ntotal ix)))
      as [Hk|]; [|done].
    unfold fetch_k in Hk. destruct (truthy _); lia.
  - intros Hnil. by rewrite Hnil in Hne.
  - by exists row.
Qed.

(** X20: [retrieve_context] leaves the store as it is, and what it
    returns when the search returns obeys the search: every preview
    shows a chunk of the store, there are at most [top_k] previews,
    and with a doc-type filter every preview has a [doc_type] of the
    filter, so none is labelled [unknown]. *)
Theorem retrieve_context_previews (s s' : store) (query : list ascii)
    (top_k : Z) (include_doc_types : option (list (list ascii)))
    (use_keyword_augmentation : bool) (context : list ascii)
    (previews : list preview) :
  retrieve_context float_repr query top_k include_doc_types
    use_keyword_augmentation s = (Ok (context, previews), s') ->
  s' = s /\
  Forall (fun p => preview_content p ∈ _chunks s) previews /\
  (0 <= top_k -> len previews <= top_k) /\
  (forall types, include_doc_types = Some types -> types <> [] ->
     Forall (fun p => exists t, t ∈ types /\ preview_doc_type p = PStr t)
       previews).
Proof.
  unfold retrieve_context.
  destruct (search _ _ _ _) as [[results|e] s1] eqn:Hs; [|done].
  intros [= <- <- <-].
  pose proof (search_state _ _ _ _ _ _ Hs) as ->. split; [done|].
  destruct (search_ok_inv _ _ _ _ _ _ Hs) as [->|(Hk & _ & cands & Hc)].
  { split_and!; [constructor|unfold len; simpl; lia|constructor]. }
  split_and!.
  - apply Forall_fmap.
    eapply Forall_impl;
      [exact (collect_located _ _ _ _ _ _ (Forall_nil_2 _) Hc)|].
    intros h (i & Hi & _). simpl. by eapply list_elem_of_lookup_2.
  - intros _. unfold len. rewrite length_fmap.
    apply (collect_len _ _ _ _ [] _ Hk Hc).
  - intros types -> Hne. apply Forall_fmap.
    eapply Forall_impl;
      [exact (collect_filter _ _ _ _ _ _ Hne (Forall_nil_2 _) Hc)|].
    intros h (t & Ht & Hin). exists t. split; [done|].
    simpl. unfold get_or_unknown. by rewrite Ht.
Qed.

(** X21: on a store without an index or without chunks,
    [retrieve_context] returns the empty context and no preview for
    every query, and does so without calling the embedding service. *)
Theorem retrieve_context_empty_store (s : store) (query : list ascii)
    (top_k : Z) (include_doc_types : option (list (list ascii)))
    (use_keyword_augmentation : bool) :
  _index s = None \/ _chunks s = [] ->
  retrieve_context float_repr query top_k include_doc_types
    use_keyword_augmentation s = (Ok ([], []), s).
Proof.
  intros Hs. unfold retrieve_context, search. unfold_M.
  destruct (_index s) as [ix|]; [|done].
  destruct Hs as [?| ->]; done.
Qed.

End RetrievalProps.

Lemma retrieve_context_previews_witness :
  exists context previews,
    (Retrieval.retrieve_context (B := demo_backend) (fun _ => [])
       (py "q") 1 (Some [py "resume"]) true three_entries).1
    = Ok (context, previews) /\
    Forall (fun p => Retrieval.preview_content p
                     ∈ VectorStore._chunks three_entries) previews /\
    len previews <= 1.
Proof.
  destruct (Retrieval.retrieve_context (B := demo_backend) (fun _ => [])
              (py "q") 1 (Some [py "resume"]) true three_entries).1
    as [[context previews]|e] eqn:E.
  - exists context, previews. split; [reflexivity|].
    destruct (retrieve_context_previews (fun _ => []) three_entries
                (Retrieval.retrieve_context (B := demo_backend) (fun _ => [])
                   (py "q") 1 (Some [py "resume"]) true three_entries).2
                (py "q") 1 (Some [py "resume"]) true context previews)
      as (_ & Hc & Hl & _).
    + rewrite <- E. apply surjective_pairing.
    + split; [exact Hc|]. apply Hl. lia.
  - exfalso. revert E. vm_compute. discriminate.
Defined.

Lemma retrieve_context_empty_store_witness :
  Retrieval.retrieve_context (B := demo_backend) (fun _ => [])
    (py "q") 12 None true empty_store
  = (Ok ([], []), empty_store).
Proof.
  apply (retrieve_context_empty_store (fun _ => []) empty_store).
  left. reflexivity.
Defined.
(** ** The indexing action *)

Section IndexingProps.
Context {B : Backend} {F : VectorStore.FileSystem}.
Import VectorStore Loaders Chunker ChunkDocuments Indexing.

Lemma chunk_documents_returns documents size overlap :
  overlap <> size -> (chunk_documents documents size overlap).2 = None.
Proof.
  intros Hne. induction documents as [|[text metadata] documents IH];
    [done|].
  cbn [chunk_documents].
  destruct (chunk_text_returns text size overlap Hne) as [chunks ->].
  exact IH.
Qed.

(** X22: when the indexing action reports success, the store holds
    exactly the chunks of the documents just loaded, in order, with
    their cleaned metadata, whatever it held before, and the number
    reported is the number of these chunks. *)
Theorem process_and_index_indexed (ok : bool)
    (sources_dir : option (list path)) (s s' : store)
    (documents added : Z) :
  process_and_index ok sources_dir s = (Indexed documents added, s') ->
  exists chunks,
    chunk_documents (yielded (load_documents_from_dir sources_dir))
      CHUNK_SIZE CHUNK_OVERLAP = (chunks, None) /\
    documents = len (yielded (load_documents_from_dir sources_dir)) /\
    added = len chunks /\
    _chunks s' = chunks.*1 /\
    _metadatas s' = clean_metadata <$> chunks.*2.
Proof.
  unfold process_and_index. destruct (negb ok); [done|].
  destruct (negb (truthy _)); [done|].
  destruct (chunk_documents _ _ _) as [chunks [e|]] eqn:Hc; [done|].
  destruct (clear s) as [[[]|e] s1] eqn:Hcl; [|done].
  apply clear_inv in Hcl as (_ & _ & _ & Hch & Hmd & _).
  destruct (add_chunks chunks.*1 chunks.*2 32 s1) as [[n|e] s2] eqn:Ha;
    [|done].
  intros [= <- <- <-]. exists chunks. split; [done|]. split; [done|].
  destruct chunks as [|c chunks].
  - unfold add_chunks in Ha. cbn in Ha. by injection Ha as <- <-.
  - assert (((c :: chunks).*1 : list (list ascii)) <> []) as Hne by done.
    destruct (add_chunks_ok _ _ _ _ _ _ Hne Ha)
      as (embs & v & ix & _ & _ & -> & ->).
    cbn [_chunks _metadatas]. rewrite Hch, Hmd.
    split_and!; [|done|done].
    unfold len. by rewrite length_fmap.
Qed.

(** X23: when the indexing action reports a failure, what the store
    held before is gone from the object, there being no rollback: the
    chunking cannot fail with the configured sizes, so the failure is
    one of [clear] or of [add_chunks], and the object is empty (the
    removal of a file, the embedding, numpy or the index failed) or
    holds exactly the chunks of the documents just loaded (a write
    failed while saving).  When it reports that models are required or
    that there is no document, the store is untouched. *)
Theorem process_and_index_not_indexed (ok : bool)
    (sources_dir : option (list path)) (s s' : store) (o : outcome) :
  process_and_index ok sources_dir s = (o, s') ->
  match o with
  | IndexingFailed _ =>
      (_index s' = None /\ _chunks s' = [] /\ _metadatas s' = []) \/
      (exists chunks ix,
          chunk_documents (yielded (load_documents_from_dir sources_dir))
            CHUNK_SIZE CHUNK_OVERLAP = (chunks, None) /\
          _index s' = Some ix /\
          _chunks s' = chunks.*1 /\
          _metadatas s' = clean_metadata <$> chunks.*2)
  | ModelsRequired | NoDocuments => s' = s
  | Indexed _ _ => True
  end.
Proof.
  unfold process_and_index. destruct (negb ok); [by intros [= <- <-]|].
  destruct (negb (truthy _)); [by intros [= <- <-]|].
  pose proof (chunk_documents_returns
                (yielded (load_documents_from_dir sources_dir))
                CHUNK_SIZE CHUNK_OVERLAP) as Hr.
  destruct (chunk_documents _ _ _) as [chunks [e|]] eqn:Hc.
  { by specialize (Hr ltac:(done)). }
  destruct (clear s) as [[[]|e] s1] eqn:Hcl;
    apply clear_inv in Hcl as (_ & _ & Hix & Hch & Hmd & _);
    [|intros [= <- <-]; by left].
  destruct (add_chunks chunks.*1 chunks.*2 32 s1) as [[n|e] s2] eqn:Ha;
    intros [= <- <-]; [done|].
  apply add_chunks_inv in Ha
    as [(e' & _ & ->)|[(_ & ? & _)|
        (starts & embs & ix & _ & _ & _ & _ & Hix' & _ & Hch' & Hmd')]];
    [by left|done|].
  right. exists chunks, ix. rewrite Hch', Hmd', Hch, Hmd. done.
Qed.

End IndexingProps.

Lemma process_and_index_indexed_witness :
  exists chunks,
    ChunkDocuments.chunk_documents
      (Loaders.yielded
         (Loaders.load_documents_from_dir (Some [experience_note])))
      Indexing.CHUNK_SIZE Indexing.CHUNK_OVERLAP = (chunks, None) /\
    1 = len (Loaders.yielded
               (Loaders.load_documents_from_dir (Some [experience_note]))) /\
    1 = len chunks /\
    VectorStore._chunks
      (Indexing.process_and_index true (Some [experience_note])
         DemoStores.wide_store).2 = chunks.*1 /\
    VectorStore._metadatas
      (Indexing.process_and_index true (Some [experience_note])
         DemoStores.wide_store).2
    = VectorStore.clean_metadata <$> chunks.*2.
Proof.
  apply (process_and_index_indexed true (Some [experience_note])
           DemoStores.wide_store).
  apply injective_projections; [|reflexivity].
  vm_compute. reflexivity.
Defined.

Lemma process_and_index_not_indexed_witness :
  (VectorStore._index
     (Indexing.process_and_index (F := full_disk demo_backend) true
        (Some [experience_note]) DemoStores.wide_store).2 = None /\
   VectorStore._chunks
     (Indexing.process_and_index (F := full_disk demo_backend) true
        (Some [experience_note]) DemoStores.wide_store).2 = [] /\
   VectorStore._metadatas
     (Indexing.process_and_index (F := full_disk demo_backend) true
        (Some [experience_note]) DemoStores.wide_store).2 = [])
  \/
  (exists chunks ix,
      ChunkDocuments.chunk_documents
        (Loaders.yielded
           (Loaders.load_documents_from_dir (Some [experience_note])))
        Indexing.CHUNK_SIZE Indexing.CHUNK_OVERLAP = (chunks, None) /\
      VectorStore._index
        (Indexing.process_and_index (F := full_disk demo_backend) true
           (Some [experience_note]) DemoStores.wide_store).2 = Some ix /\
      VectorStore._chunks
        (Indexing.process_and_index (F := full_disk demo_backend) true
           (Some [experience_note]) DemoStores.wide_store).2 = chunks.*1 /\
      VectorStore._metadatas
        (Indexing.process_and_index (F := full_disk demo_backend) true
           (Some [experience_note]) DemoStores.wide_store).2
      = VectorStore.clean_metadata <$> chunks.*2).
Proof.
  apply (process_and_index_not_indexed (F := full_disk demo_backend) true
           (Some [experience_note]) DemoStores.wide_store _
           (Indexing.IndexingFailed OSError)).
  apply injective_projections; [|reflexivity].
  vm_compute. reflexivity.
Defined.

(** ** Sanitizer: the kinds of lines *)

Section SanitizerKinds.
Import Regex MatchStates Sanitizer SanitizerSpec.

Lemma patterns_certified :
  forallb (fun r => certified r) patterns = true.
Proof. vm_cast_no_check (eq_refl true). Qed.

Lemma pattern_certified r : r ∈ patterns -> certified r = true.
Proof.
  intros Hr%list_elem_of_In. pose proof patterns_certified as H.
  rewrite forallb_forall in H. exact (H r Hr).
Qed.

Lemma linebreak_LF c : is_linebreak c = false -> c <> LF.
Proof. by intros H ->. Qed.

Lemma one_line_no_LF l : one_line l -> Forall (fun c => c <> LF) l.
Proof.
  intros H. eapply Forall_impl; [exact H|]. intros c. apply linebreak_LF.
Qed.

Lemma pattern_rstrip r l :
  r ∈ patterns -> one_line l -> re_match r (rstrip l) = re_match r l.
Proof.
  intros Hr Hl.
  apply (re_match_rstrip r (distinctions r) (alphabet r) (states_of r)
           (pattern_certified r Hr)).
  by apply one_line_no_LF.
Qed.

Lemma pattern_lstrip r l :
  r ∈ patterns -> one_line l -> re_match r (lstrip l) = re_match r l.
Proof.
  intros Hr Hl.
  apply (re_match_lstrip r (distinctions r) (alphabet r) (states_of r)
           (pattern_certified r Hr)).
  by apply one_line_no_LF.
Qed.

Lemma existsb_ext_elem {A} (f g : A -> bool) (l : list A) :
  (forall x, x ∈ l -> f x = g x) -> existsb f l = existsb g l.
Proof.
  induction l as [|x l IH]; intros H; simpl; [done|].
  rewrite (H x) by left. rewrite IH; [done|]. intros y Hy. apply H. by right.
Qed.

Lemma drop_patterns_in r : r ∈ _DROP_LINE_PATTERNS -> r ∈ patterns.
Proof. intros H. unfold patterns. do 2 right. apply elem_of_app. by left. Qed.

Lemma section_patterns_in r : r ∈ _SECTION_START_HINTS -> r ∈ patterns.
Proof. intros H. unfold patterns. do 2 right. apply elem_of_app. by right. Qed.

Lemma same_kind_rstrip l : one_line l -> same_kind l (rstrip l).
Proof.
  intros Hl. unfold same_kind, is_cut, is_dropped, is_section_start,
    is_bold_name. split_and!.
  - apply pattern_rstrip; [left|done].
  - apply existsb_ext_elem. intros r Hr.
    apply pattern_rstrip; [by apply drop_patterns_in|done].
  - apply existsb_ext_elem. intros r Hr.
    apply pattern_rstrip; [by apply section_patterns_in|done].
  - apply pattern_rstrip; [right; left|done].
Qed.

Lemma same_kind_lstrip l : one_line l -> same_kind l (lstrip l).
Proof.
  intros Hl. unfold same_kind, is_cut, is_dropped, is_section_start,
    is_bold_name. split_and!.
  - apply pattern_lstrip; [left|done].
  - apply existsb_ext_elem. intros r Hr.
    apply pattern_lstrip; [by apply drop_patterns_in|done].
  - apply existsb_ext_elem. intros r Hr.
    apply pattern_lstrip; [by apply section_patterns_in|done].
  - apply pattern_lstrip; [right; left|done].
Qed.

Lemma same_kind_refl l : same_kind l l.
Proof. by unfold same_kind. Qed.

Lemma same_kind_trans l1 l2 l3 :
  same_kind l1 l2 -> same_kind l2 l3 -> same_kind l1 l3.
Proof.
  unfold same_kind. intros (?&?&?&?) (?&?&?&?). split_and!; congruence.
Qed.

Lemma same_kind_hit l l' : same_kind l l' -> hit l' = hit l.
Proof. unfold same_kind, hit. intros (_&_&->&->). done. Qed.

End SanitizerKinds.

(** ** Sanitizer: lines and texts *)

Section LinesProps.
Import Sanitizer SanitizerSpec.

Lemma join_cons sep l rest :
  rest <> [] -> join sep (l :: rest) = l ++ sep ++ join sep rest.
Proof. by destruct rest. Qed.

Lemma join_snoc sep X l :
  X <> [] -> join sep (X ++ [l]) = join sep X ++ sep ++ l.
Proof.
  induction X as [|x X IH]; [done|]. intros _.
  destruct X as [|y X]; [reflexivity|].
  change ((x :: y :: X) ++ [l]) with (x :: ((y :: X) ++ [l])).
  rewrite (join_cons sep x ((y :: X) ++ [l])) by done.
  rewrite IH by done. rewrite (join_cons sep x (y :: X)) by done.
  by rewrite <- !app_assoc.
Qed.

Lemma splitlines_go_line cur l s :
  one_line l ->
  splitlines_go false cur (l ++ s) = splitlines_go false (rev l ++ cur) s.
Proof.
  intros Hl. revert cur. induction Hl as [|c l Hc Hl IH]; intros cur; [done|].
  cbn [app splitlines_go andb]. rewrite Hc, IH. cbn [rev].
  by rewrite <- app_assoc.
Qed.

(** Lines without a line boundary, the last of them not empty, are the
    lines of their join. *)
Lemma splitlines_join X :
  Forall one_line X -> last X <> Some [] ->
  splitlines (join [LF] X) = X.
Proof.
  unfold splitlines. destruct X as [|l X]; [done|]. revert l.
  induction X as [|l' X IH]; intros l HX Hlast.
  - cbn [join]. rewrite <- (app_nil_r l) at 1.
    rewrite splitlines_go_line by (by apply Forall_cons in HX as [? _]).
    rewrite app_nil_r. cbn [splitlines_go].
    destruct (rev l) as [|c u] eqn:E.
    + apply (f_equal (@rev _)) in E. rewrite rev_involutive in E.
      by subst l.
    + by rewrite <- E, rev_involutive.
  - apply Forall_cons in HX as [Hl HX].
    rewrite join_cons by done.
    rewrite splitlines_go_line by done. rewrite app_nil_r.
    cbn [app splitlines_go andb]. change (is_linebreak LF) with true.
    cbv iota. rewrite rev_involutive. f_equal.
    change (bool_decide (LF = CR)) with false.
    apply IH; [done|]. by rewrite last_cons_cons in Hlast.
Qed.

Lemma splitlines_go_one_line after_cr cur s :
  one_line cur -> Forall one_line (splitlines_go after_cr cur s).
Proof.
  revert after_cr cur. induction s as [|c s IH]; intros after_cr cur Hcur.
  - cbn [splitlines_go]. destruct cur; [constructor|].
    apply Forall_singleton. by apply Forall_rev.
  - cbn [splitlines_go]. destruct (after_cr && bool_decide (c = LF)).
    { by apply IH. }
    destruct (is_linebreak c) eqn:Hc.
    + constructor; [by apply Forall_rev|]. apply IH. constructor.
    + apply IH. by constructor.
Qed.

Lemma splitlines_one_line s : Forall one_line (splitlines s).
Proof. apply splitlines_go_one_line. constructor. Qed.

Lemma tidy_lstrip_nonempty l : l <> [] -> ends_dark l -> lstrip l <> [].
Proof.
  intros Hne Hd Hl. destruct (lstrip_split l) as (h & Heq & Hh).
  rewrite Hl, app_nil_r in Heq. subst h.
  unfold ends_dark in Hd. apply Forall_rev in Hh.
  destruct (rev l) as [|c u] eqn:E.
  - apply (f_equal (@rev _)) in E. by rewrite rev_involutive in E.
  - apply Forall_cons in Hh as [Hc _]. simpl in Hd. congruence.
Qed.

Lemma one_line_lstrip l : one_line l -> one_line (lstrip l).
Proof.
  intros Hl. destruct (lstrip_split l) as (h & Heq & _).
  rewrite Heq in Hl. by apply Forall_app in Hl as [_ ?].
Qed.

Lemma one_line_rstrip l : one_line l -> one_line (rstrip l).
Proof.
  intros Hl. destruct (rstrip_split l) as (h & Heq & _).
  rewrite Heq in Hl. by apply Forall_app in Hl as [? _].
Qed.

Lemma is_nil_true {A} (l : list A) : is_nil l = true <-> l = [].
Proof. by destruct l. Qed.

Lemma drop_nils_head (out : list (list ascii)) :
  match drop_while is_nil out with
  | [] => True
  | l :: _ => l <> []
  end.
Proof.
  induction out as [|l out IH]; [done|].
  cbn [drop_while]. by destruct l.
Qed.

(** The lines left once the empty lines at the end are removed. *)
Lemma trim_end_split (X : list (list ascii)) :
  exists t, X = rev (drop_while is_nil (rev X)) ++ t /\
            Forall (fun l => l = []) t.
Proof.
  exists (rev (take_while is_nil (rev X))).
  destruct (take_drop_while is_nil (rev X)) as [H1 H2]. split.
  - by rewrite <- rev_app_distr, H1, rev_involutive.
  - apply Forall_rev. eapply Forall_impl; [exact H2|].
    intros l. apply is_nil_true.
Qed.

Lemma last_rev_head {A} (l : list A) : last (rev l) = head l.
Proof. destruct l as [|x l]; [done|]. simpl. apply last_snoc. Qed.

Lemma trim_end_last (X : list (list ascii)) :
  last (rev (drop_while is_nil (rev X))) <> Some [].
Proof.
  rewrite last_rev_head.
  induction (rev X) as [|l Y IH]; [done|].
  cbn [drop_while]. destruct l; [exact IH|done].
Qed.

Lemma join_blanks_space (t : list (list ascii)) :
  Forall (fun l => l = []) t ->
  Forall (fun c => is_space c = true) (join [LF] t).
Proof.
  induction 1 as [|l t -> Ht IH]; [constructor|].
  destruct t as [|l' t]; [constructor|].
  rewrite join_cons by done. by constructor.
Qed.

Lemma join_app_blanks X (t : list (list ascii)) :
  Forall (fun l => l = []) t ->
  exists ws, join [LF] (X ++ t) = join [LF] X ++ ws /\
             Forall (fun c => is_space c = true) ws.
Proof.
  induction t as [|l t IH] using rev_ind; intros Ht.
  - exists []. by rewrite !app_nil_r.
  - apply Forall_app in Ht as [Ht [-> _]%Forall_cons].
    destruct (IH Ht) as (ws & Heq & Hws). rewrite app_assoc.
    destruct (decide (X ++ t = [])) as [Hnil|Hne].
    + apply app_eq_nil in Hnil as [-> ->]. exists []. done.
    + rewrite join_snoc by done. rewrite Heq. exists (ws ++ [LF]).
      rewrite app_nil_r, <- app_assoc. split; [done|].
      apply Forall_app. split; [done|]. by constructor.
Qed.

Lemma join_blanks_app (X : list (list ascii)) :
  exists ws, join [LF] X = ws ++ join [LF] (drop_while is_nil X) /\
             Forall (fun c => is_space c = true) ws.
Proof.
  induction X as [|l X (ws & Heq & Hws)]; [by exists []|].
  cbn [drop_while]. destruct l as [|c l]; cbn [is_nil]; [|by exists []].
  destruct X as [|l' X]; [by exists []|].
  rewrite join_cons by done. rewrite Heq. exists (LF :: ws).
  split; [done|]. by constructor.
Qed.

Lemma drop_while_snoc {A} (p : A -> bool) (l : list A) (x : A) :
  p x = false -> drop_while p (l ++ [x]) = drop_while p l ++ [x].
Proof.
  intros Hx. induction l as [|y l IH]; simpl; [by rewrite Hx|].
  by destruct (p y).
Qed.

Lemma ends_dark_join (X : list (list ascii)) l :
  Forall tidy_line (l :: X) -> last (l :: X) <> Some [] ->
  ends_dark (join [LF] (l :: X)).
Proof.
  intros HX Hlast.
  destruct (decide (X = [])) as [->|Hne].
  - apply Forall_cons in HX as [[_ ?] _]. done.
  - destruct X as [|x X _] using rev_ind; [done|].
    change (l :: X ++ [x]) with ((l :: X) ++ [x]) in *.
    rewrite join_snoc by done.
    rewrite last_snoc in Hlast.
    apply Forall_app in HX as [_ [[_ Hx] _]%Forall_cons].
    rewrite app_assoc. apply ends_dark_app; [|done].
    intros ->. done.
Qed.

(** J1: the text made of tidy lines, trimmed, is the text made of their
    core. *)
Lemma strip_join out :
  Forall tidy_line out -> strip (join [LF] out) = join [LF] (core out).
Proof.
  intros Hout.
  destruct (join_blanks_app out) as (ws1 & Heq1 & Hws1).
  assert (Forall tidy_line (drop_while is_nil out)) as HZ.
  { destruct (take_drop_while is_nil out) as [H _].
    rewrite <- H in Hout. by apply Forall_app in Hout as [_ ?]. }
  unfold core. rewrite Heq1.
  pose proof (drop_nils_head out) as Hhead.
  destruct (drop_while is_nil out) as [|l rest] eqn:EZ.
  { exact (strip_unique ws1 [] [] Hws1 (Forall_nil_2 _) I I). }
  apply Forall_cons in HZ as [[Hl1 Hl2] Hrest].
  destruct (trim_end_split rest) as (t & Hsplit & Ht).
  pose proof (trim_end_last rest) as Hlast.
  set (M := rev (drop_while is_nil (rev rest))) in *.
  assert (Forall tidy_line M) as HM.
  { rewrite Hsplit in Hrest. by apply Forall_app in Hrest as [? _]. }
  destruct (join_app_blanks (l :: M) t Ht) as (ws2 & Heq2 & Hws2).
  rewrite Hsplit at 1. change (l :: M ++ t) with ((l :: M) ++ t).
  rewrite Heq2.
  destruct (lstrip_split l) as (h & Hl & Hh).
  assert (join [LF] (l :: M) = h ++ join [LF] (lstrip l :: M)) as ->.
  { destruct M as [|m M'].
    - cbn [join]. exact Hl.
    - rewrite !join_cons by done. rewrite Hl at 1. by rewrite <- app_assoc. }
  rewrite <- (app_assoc h), (app_assoc ws1 h).
  apply strip_unique; [by apply Forall_app|done| |].
  - pose proof (tidy_lstrip_nonempty l Hhead Hl2) as Hne.
    pose proof (starts_dark_lstrip l) as Hs.
    destruct (lstrip l) as [|c u]; [done|].
    destruct M; [done|]. by rewrite join_cons.
  - apply ends_dark_join.
    + constructor; [|done].
      split; [by apply one_line_lstrip|by apply ends_dark_lstrip].
    + destruct (decide (M = [])) as [->|Hne].
      * cbn [last]. intros [= H]. by apply (tidy_lstrip_nonempty l).
      * destruct M as [|m M']; [done|]. by rewrite last_cons_cons.
Qed.

End LinesProps.
(** ** Sanitizer: the blank-line normalization and the section scan *)

Section SqueezeProps.
Import Sanitizer SanitizerSpec.

Lemma length_squeeze b X : (length (squeeze b X) <= length X)%nat.
Proof.
  revert b. induction X as [|l X IH]; intros b; [done|].
  cbn [squeeze]. destruct (negb (truthy (strip l))).
  - rewrite length_app. specialize (IH (b + 1)).
    destruct (b + 1 <=? 2); simpl; lia.
  - simpl. specialize (IH 0). lia.
Qed.

Lemma strip_rstrip l : strip (rstrip l) = strip l.
Proof.
  destruct (rstrip_split l) as (t & Hl & Ht).
  destruct (lstrip_split (rstrip l)) as (h & Hr & Hh).
  pose proof (ends_dark_lstrip _ (ends_dark_rstrip l)) as He.
  pose proof (starts_dark_lstrip (rstrip l)) as Hs.
  revert Hl Hr He Hs. generalize (lstrip (rstrip l)) as m.
  generalize (rstrip l) as r. intros r m -> -> He Hs.
  pose proof (strip_unique h m [] Hh (Forall_nil_2 _) Hs He) as E1.
  rewrite app_nil_r in E1.
  pose proof (strip_unique h m t Hh Ht Hs He) as E2.
  rewrite app_assoc in E2. by rewrite E1, E2.
Qed.

Lemma strip_lstrip l : strip (lstrip l) = strip l.
Proof.
  unfold strip. f_equal. rewrite <- (app_nil_l (lstrip l)) at 1.
  apply lstrip_unique; [constructor|apply starts_dark_lstrip].
Qed.

Lemma rstrip_fixed l : ends_dark l -> rstrip l = l.
Proof.
  intros Hl. rewrite <- (app_nil_r l) at 1. by apply rstrip_unique.
Qed.

Lemma blank_rstrip l : truthy (strip l) = false -> rstrip l = [].
Proof.
  intros Hl%blank_spaces. rewrite <- (app_nil_l l).
  by apply rstrip_unique.
Qed.

(** A list of lines that the normalization leaves as it is, entered
    with a count of blank lines, is left as it is with a lower count. *)
Lemma squeeze_stable_mono Y b b' :
  0 <= b' <= b -> squeeze b Y = Y -> squeeze b' Y = Y.
Proof.
  revert b b'. induction Y as [|l Y IH]; intros b b' Hb; [done|].
  cbn [squeeze]. destruct (negb (truthy (strip l))); [|done].
  destruct (Z.leb_spec (b + 1) 2) as [Hle|Hgt].
  - intros [= <- HY]. destruct (Z.leb_spec (b' + 1) 2); [|lia].
    cbn [app]. f_equal. apply (IH (b + 1)); [lia|done].
  - cbn [app]. intros HY. exfalso.
    pose proof (length_squeeze (b + 1) Y) as Hlen.
    rewrite HY in Hlen. simpl in Hlen. lia.
Qed.

Lemma squeeze_idem X b :
  0 <= b -> squeeze b (squeeze b X) = squeeze b X.
Proof.
  revert b. induction X as [|l X IH]; intros b Hb; [done|].
  cbn [squeeze]. destruct (negb (truthy (strip l))) eqn:Hl.
  - destruct (Z.leb_spec (b + 1) 2) as [Hle|Hgt]; cbn [app].
    + cbn [squeeze]. change (negb (truthy (strip []))) with true. cbv iota.
      destruct (Z.leb_spec (b + 1) 2); [|lia]. cbn [app]. f_equal.
      apply IH. lia.
    + apply (squeeze_stable_mono _ (b + 1)); [lia|]. apply IH. lia.
  - cbn [squeeze]. rewrite strip_rstrip, Hl, rstrip_rstrip. f_equal.
    by apply IH.
Qed.

Lemma squeeze_stable_prefix Y1 Y2 b :
  squeeze b (Y1 ++ Y2) = Y1 ++ Y2 -> squeeze b Y1 = Y1.
Proof.
  revert b. induction Y1 as [|l Y1 IH]; intros b; [done|].
  cbn [squeeze app]. destruct (negb (truthy (strip l))).
  - destruct (Z.leb_spec (b + 1) 2) as [Hle|Hgt]; cbn [app].
    + intros [= <- HY]. f_equal. by apply IH.
    + intros HY. exfalso.
      pose proof (length_squeeze (b + 1) (Y1 ++ Y2)) as Hlen.
      rewrite HY in Hlen. simpl in Hlen. lia.
  - intros [= Hr HY]. rewrite Hr. f_equal. by apply IH.
Qed.

Lemma squeeze_stable_drop_nils Y :
  squeeze 0 Y = Y -> squeeze 0 (drop_while is_nil Y) = drop_while is_nil Y.
Proof.
  induction Y as [|l Y IH]; [done|]. intros HY.
  cbn [drop_while]. destruct l as [|c l]; [|done]. cbn [is_nil].
  apply IH. revert HY. cbn [squeeze].
  change (negb (truthy (strip []))) with true. cbv iota.
  change (0 + 1 <=? 2) with true. cbv iota. cbn [app].
  intros [= HY]. by apply (squeeze_stable_mono _ (0 + 1)).
Qed.

(** The lines of the trimmed text are left as they are by the
    normalization when those of the text are. *)
Lemma squeeze_stable_core Y :
  squeeze 0 Y = Y -> squeeze 0 (core Y) = core Y.
Proof.
  intros HY%squeeze_stable_drop_nils. unfold core.
  pose proof (drop_nils_head Y) as Hhead.
  destruct (drop_while is_nil Y) as [|l rest]; [done|].
  revert HY. cbn [squeeze].
  destruct (negb (truthy (strip l))) eqn:Hl.
  { change (0 + 1 <=? 2) with true. cbv iota. cbn [app].
    intros [= <- _]. done. }
  intros [= Hr Hrest].
  rewrite strip_lstrip, Hl. f_equal.
  - apply rstrip_fixed, ends_dark_lstrip. rewrite <- Hr.
    apply ends_dark_rstrip.
  - destruct (trim_end_split rest) as (t & Hsplit & _).
    rewrite Hsplit in Hrest at 1 2.
    by apply squeeze_stable_prefix in Hrest.
Qed.

Lemma squeeze_tidy b X :
  Forall one_line X -> Forall tidy_line (squeeze b X).
Proof.
  intros HX. revert b. induction HX as [|l X Hl HX IH]; intros b;
    [constructor|].
  cbn [squeeze]. destruct (negb (truthy (strip l))).
  - apply Forall_app. split; [|apply IH].
    destruct (b + 1 <=? 2); [|constructor].
    apply Forall_singleton. split; [constructor|done].
  - constructor; [|apply IH].
    split; [by apply one_line_rstrip|apply ends_dark_rstrip].
Qed.

Lemma hit_nil : hit [] = false.
Proof. vm_compute. reflexivity. Qed.

Lemma thinned_squeeze b X : Forall one_line X -> thinned (squeeze b X) X.
Proof.
  intros HX. revert b. induction HX as [|l X Hl HX IH]; intros b;
    [constructor|].
  cbn [squeeze]. destruct (negb (truthy (strip l))) eqn:Hb.
  - apply negb_true_iff in Hb. pose proof (blank_rstrip l Hb) as Hr.
    pose proof (same_kind_rstrip l Hl) as Hk. rewrite Hr in Hk.
    destruct (b + 1 <=? 2); cbn [app].
    + by constructor.
    + apply thinned_drop; [|apply IH].
      rewrite <- (same_kind_hit _ _ Hk). apply hit_nil.
  - constructor; [by apply same_kind_rstrip|apply IH].
Qed.

Lemma thinned_refl X : thinned X X.
Proof.
  induction X; constructor; [apply same_kind_refl|done].
Qed.

Lemma thinned_nils X Y (nils : list (list ascii)) :
  Forall (fun l => l = []) nils -> thinned X Y -> thinned X (nils ++ Y).
Proof.
  induction 1 as [|l nils -> _ IH]; [done|]. intros H.
  cbn [app]. apply thinned_drop; [apply hit_nil|by apply IH].
Qed.

Lemma thinned_app_nils X (nils : list (list ascii)) :
  Forall (fun l => l = []) nils -> thinned X (X ++ nils).
Proof.
  intros Hn. induction X as [|l X IH].
  - cbn [app]. rewrite <- (app_nil_r nils).
    apply (thinned_nils [] [] nils Hn). constructor.
  - cbn [app]. constructor; [apply same_kind_refl|done].
Qed.

Lemma thinned_core Y : Forall one_line Y -> thinned (core Y) Y.
Proof.
  intros HY. destruct (take_drop_while is_nil Y) as [Hsplit Hn].
  rewrite <- Hsplit at 2. apply thinned_nils.
  { eapply Forall_impl; [exact Hn|]. intros l. apply is_nil_true. }
  rewrite <- Hsplit in HY. apply Forall_app in HY as [_ HZ].
  unfold core. destruct (drop_while is_nil Y) as [|l rest]; [constructor|].
  apply Forall_cons in HZ as [Hl _].
  constructor; [by apply same_kind_lstrip|].
  destruct (trim_end_split rest) as (t & Hrest & Ht).
  rewrite Hrest at 2. by apply thinned_app_nils.
Qed.

Lemma thinned_trans X Y Z : thinned X Y -> thinned Y Z -> thinned X Z.
Proof.
  intros H1 H2. revert X H1.
  induction H2 as [|l l' Y Z Hk H2 IH|l Y Z Hl H2 IH]; intros X H1.
  - done.
  - inversion H1 as [|l0 l'' X' Y0 Hk' H1'|l0 X0 Y0 Hl' H1']; subst.
    + constructor; [by eapply same_kind_trans|by apply IH].
    + apply thinned_drop; [|by apply IH].
      by rewrite <- (same_kind_hit _ _ Hk).
  - apply thinned_drop; [done|by apply IH].
Qed.

Lemma thinned_Forall (P : list ascii -> Prop) X Y :
  (forall l l', same_kind l l' -> P l -> P l') ->
  thinned X Y -> Forall P Y -> Forall P X.
Proof.
  intros HP. induction 1 as [|l l' X Y Hk H IH|l X Y Hl H IH]; intros HY.
  - done.
  - apply Forall_cons in HY as [Hl HY]. constructor; [by eapply HP|auto].
  - apply Forall_cons in HY as [_ HY]. auto.
Qed.

Lemma thinned_first_hit X pre h post :
  thinned X (pre ++ h :: post) ->
  Forall (fun l => hit l = false) pre -> hit h = true ->
  exists pre' h' post',
    X = pre' ++ h' :: post' /\
    Forall (fun l => hit l = false) pre' /\
    (length pre' <= length pre)%nat /\ same_kind h h'.
Proof.
  revert X. induction pre as [|p pre IH]; intros X HX Hpre Hh.
  - cbn [app] in HX.
    inversion HX as [|l0 h' X' Y0 Hk HX'|l0 X0 Y0 Hl HX']; subst.
    + exists [], h', X'. split_and!; [done|constructor|done|done].
    + congruence.
  - apply Forall_cons in Hpre as [Hp Hpre]. cbn [app] in HX.
    inversion HX as [|l0 p' X' Y0 Hk HX'|l0 X0 Y0 Hl HX']; subst.
    + destruct (IH X' HX' Hpre Hh) as (pre' & h' & post' & -> & H1 & H2 & H3).
      exists (p' :: pre'), h', post'. split_and!; [done| |simpl; lia|done].
      constructor; [|done]. by rewrite (same_kind_hit _ _ Hk).
    + destruct (IH X HX' Hpre Hh) as (pre' & h' & post' & -> & H1 & H2 & H3).
      exists pre', h', post'. split_and!; [done|done|simpl; lia|done].
Qed.

Lemma thinned_no_hit X Y :
  thinned X Y -> existsb hit Y = false -> existsb hit X = false.
Proof.
  induction 1 as [|l l' X Y Hk H IH|l X Y Hl H IH]; [done| |].
  - cbn [existsb]. intros [H1 H2]%orb_false_iff.
    rewrite (same_kind_hit _ _ Hk), H1. cbn [orb]. auto.
  - cbn [existsb]. intros [_ H2]%orb_false_iff. auto.
Qed.

Lemma find_start_skip i pre rest :
  Forall (fun l => hit l = false) pre ->
  find_start i (pre ++ rest) = find_start (i + len pre) rest.
Proof.
  intros Hpre. revert i. induction Hpre as [|l pre Hl Hpre IH]; intros i.
  - unfold len. simpl. by rewrite Z.add_0_r.
  - cbn [app find_start]. unfold hit in Hl.
    apply orb_false_iff in Hl as [-> ->]. rewrite IH. f_equal.
    unfold len. simpl length. lia.
Qed.

Lemma find_start_no_hit i X : existsb hit X = false -> find_start i X = 0.
Proof.
  revert i. induction X as [|l X IH]; intros i; [done|].
  cbn [existsb find_start]. unfold hit at 1.
  intros [[-> ->]%orb_false_iff H]%orb_false_iff. by apply IH.
Qed.

Lemma first_hit X :
  existsb hit X = true ->
  exists pre h post,
    X = pre ++ h :: post /\
    Forall (fun l => hit l = false) pre /\ hit h = true.
Proof.
  induction X as [|l X IH]; [done|]. cbn [existsb].
  destruct (hit l) eqn:Hl.
  - intros _. exists [], l, X. split_and!; [done|constructor|done].
  - cbn [orb]. intros (pre & h & post & -> & Hpre & Hh)%IH.
    exists (l :: pre), h, post. split_and!; [done| |done]. by constructor.
Qed.

End SqueezeProps.
(** ** Sanitizer: the output, and a second pass over it *)

Section SanitizerProps.
Import Sanitizer SanitizerSpec SanitizerLines.

Lemma take_while_Forall {A} (p : A -> bool) (l : list A) :
  Forall (fun x => p x = true) l -> take_while p l = l.
Proof.
  induction 1 as [|x l Hx _ IH]; [done|]. simpl. by rewrite Hx, IH.
Qed.

Lemma filter_Forall {A} (p : A -> bool) (l : list A) :
  Forall (fun x => p x = true) l -> List.filter p l = l.
Proof.
  induction 1 as [|x l Hx _ IH]; [done|]. simpl. by rewrite Hx, IH.
Qed.

Lemma take_while_prefix {A} (p : A -> bool) (l : list A) :
  exists t, l = take_while p l ++ t.
Proof.
  exists (drop_while p l). by destruct (take_drop_while p l) as [-> _].
Qed.

Lemma filter_keeps {A} (P : A -> Prop) (p : A -> bool) (l : list A) :
  Forall P l -> Forall (fun x => P x /\ p x = true) (List.filter p l).
Proof.
  induction 1 as [|x l Hx _ IH]; [constructor|]. simpl.
  destruct (p x) eqn:Hp; [by constructor|done].
Qed.

(** The lines left by the truncation and the line filter. *)
Lemma filtered_lines_kept text :
  Forall (fun l => one_line l /\ is_cut l = false /\ is_dropped l = false)
    (filtered_lines text).
Proof.
  unfold filtered_lines.
  pose proof (splitlines_one_line text) as Hl.
  destruct (take_drop_while (fun line => negb (is_cut line)) (splitlines text))
    as [Hsplit Hcut].
  rewrite <- Hsplit in Hl. apply Forall_app in Hl as [Hl _].
  assert (Forall (fun l => one_line l /\ negb (is_cut l) = true)
            (take_while (fun line => negb (is_cut line)) (splitlines text)))
    as Hboth by (by apply Forall_and).
  eapply Forall_impl;
    [exact (filter_keeps _ (fun line => negb (is_dropped line)) _ Hboth)|].
  intros l [[H1 H2] H3]. cbv beta in *.
  apply negb_true_iff in H2, H3. done.
Qed.

Lemma Forall_drop_list {A} (P : A -> Prop) n (l : list A) :
  Forall P l -> Forall P (drop n l).
Proof. intros H. rewrite <- (take_drop n l) in H. by apply Forall_app in H as [_ ?]. Qed.

Lemma core_tidy Y : Forall tidy_line Y -> Forall tidy_line (core Y).
Proof.
  intros HY. destruct (take_drop_while is_nil Y) as [Hsplit _].
  rewrite <- Hsplit in HY. apply Forall_app in HY as [_ HZ].
  unfold core. destruct (drop_while is_nil Y) as [|l rest]; [constructor|].
  apply Forall_cons in HZ as [[Hl1 Hl2] Hrest]. constructor.
  - split; [by apply one_line_lstrip|by apply ends_dark_lstrip].
  - destruct (trim_end_split rest) as (t & Hr & _).
    rewrite Hr in Hrest. by apply Forall_app in Hrest as [? _].
Qed.

Lemma core_last Y : Forall tidy_line Y -> last (core Y) <> Some [].
Proof.
  intros HY. destruct (take_drop_while is_nil Y) as [Hsplit _].
  rewrite <- Hsplit in HY. apply Forall_app in HY as [_ HZ].
  unfold core. pose proof (drop_nils_head Y) as Hhead.
  destruct (drop_while is_nil Y) as [|l rest]; [done|].
  apply Forall_cons in HZ as [[Hl1 Hl2] Hrest].
  pose proof (trim_end_last rest) as Hlast.
  destruct (rev (drop_while is_nil (rev rest))) as [|m M].
  - cbn [last]. intros [= H]. by apply (tidy_lstrip_nonempty l).
  - by rewrite last_cons_cons.
Qed.

Lemma find_start_nonneg i X : 0 <= i -> 0 <= find_start i X.
Proof.
  revert i. induction X as [|l X IH]; intros i Hi; cbn [find_start]; [done|].
  destruct (is_section_start l); [lia|].
  destruct (is_bold_name l); [done|]. apply IH. lia.
Qed.

Lemma sanitize_as_lines text :
  text <> [] ->
  sanitize_resume_text text = join [LF] (result_lines text).
Proof.
  intros Hne. unfold sanitize_resume_text, result_lines.
  destruct text; [done|]. cbn [truthy negb]. cbv iota.
  apply strip_join, squeeze_tidy.
  rewrite slice_from_nonneg by (by apply find_start_nonneg).
  apply Forall_drop_list.
  eapply Forall_impl; [apply filtered_lines_kept|]. by intros l [? _].
Qed.

Lemma result_lines_props text :
  let C := result_lines text in
  Forall tidy_line C /\ last C <> Some [] /\ squeeze 0 C = C /\
  Forall (fun l => is_cut l = false /\ is_dropped l = false) C /\
  thinned C (drop (Z.to_nat (find_start 0 (slice_to (filtered_lines text) 60)))
               (filtered_lines text)).
Proof.
  unfold result_lines. cbv zeta.
  pose proof (filtered_lines_kept text) as HF.
  rewrite slice_from_nonneg by (by apply find_start_nonneg).
  set (F' := drop _ (filtered_lines text)).
  assert (Forall (fun l => one_line l /\ is_cut l = false
                           /\ is_dropped l = false) F') as HF'.
  { by apply Forall_drop_list. }
  assert (Forall one_line F') as H1.
  { eapply Forall_impl; [exact HF'|]. by intros l [? _]. }
  assert (thinned (core (squeeze 0 F')) F') as Hth.
  { eapply thinned_trans; [|by apply thinned_squeeze].
    apply thinned_core. eapply Forall_impl; [by apply squeeze_tidy|].
    by intros l [? _]. }
  split_and!.
  - by apply core_tidy, squeeze_tidy.
  - by apply core_last, squeeze_tidy.
  - apply squeeze_stable_core. by apply squeeze_idem.
  - eapply (thinned_Forall _ _ _ _ Hth).
    eapply Forall_impl; [exact HF'|]. by intros l (_ & ? & ?).
  - exact Hth.
  Unshelve.
  intros l l' (Hc & Hd & _) [H2 H3]. cbv beta. split; congruence.
Qed.

Lemma existsb_app_false {A} (f : A -> bool) (l1 l2 : list A) :
  existsb f (l1 ++ l2) = false <-> existsb f l1 = false /\ existsb f l2 = false.
Proof. rewrite existsb_app. apply orb_false_iff. Qed.

Lemma existsb_Forall_false {A} (f : A -> bool) (l : list A) :
  existsb f l = false <-> Forall (fun x => f x = false) l.
Proof.
  induction l as [|x l IH]; simpl; [by split; [constructor|]|].
  rewrite orb_false_iff, IH, Forall_cons. done.
Qed.

(** The scan of the second pass starts at the first line. *)
Lemma second_scan F C :
  existsb hit (slice_to F 60) = true \/ existsb hit F = false ->
  thinned C (drop (Z.to_nat (find_start 0 (slice_to F 60))) F) ->
  find_start 0 (slice_to C 60) = 0.
Proof.
  rewrite !slice_to_nonneg by lia.
  change (Z.to_nat 60) with 60%nat. intros [Hhit|Hno] Hth.
  - destruct (first_hit _ Hhit) as (pre & h & post2 & Htake & Hpre & Hh).
    assert (F = pre ++ h :: (post2 ++ drop (60%nat) F)) as HF.
    { rewrite <- (take_drop (60%nat) F) at 1. rewrite Htake.
      by rewrite <- app_assoc. }
    assert (length pre < 60)%nat as Hlen.
    { pose proof (f_equal length Htake) as E.
      rewrite length_take, length_app in E. cbn [length] in E. lia. }
    rewrite Htake in Hth. rewrite find_start_skip in Hth by done.
    cbn [find_start] in Hth. rewrite Z.add_0_l in Hth.
    set (start := if is_section_start h then Z.max 0 (len pre - 2)
                  else if is_bold_name h then len pre
                       else find_start (len pre + 1) post2) in *.
    assert (0 <= start <= len pre /\
            (is_section_start h = true -> len pre - start <= 2) /\
            (is_section_start h = false -> start = len pre)) as (Hs1 & Hs2 & Hs3).
    { subst start. unfold hit in Hh. unfold len.
      destruct (is_section_start h); [split_and!; (lia || done)|].
      cbn [orb] in Hh. rewrite Hh. split_and!; (lia || done). }
    rewrite HF in Hth.
    rewrite drop_app_le in Hth by (unfold len in *; lia).
    apply thinned_first_hit in Hth
      as (pre' & h' & post' & -> & Hpre' & Hlen' & Hk);
      [|by apply Forall_drop_list|done].
    rewrite length_drop in Hlen'.
    assert (take (60%nat) (pre' ++ h' :: post')
            = pre' ++ h' :: take (60%nat - S (length pre')) post') as ->.
    { rewrite take_app, take_ge by lia. f_equal.
      replace (60%nat - length pre')%nat
        with (S (60%nat - S (length pre'))) by lia.
      done. }
    rewrite find_start_skip by done. cbn [find_start].
    destruct Hk as (_ & _ & -> & ->). unfold hit in Hh. unfold len in *.
    destruct (is_section_start h) eqn:Hsec.
    + specialize (Hs2 eq_refl). lia.
    + cbn [orb] in Hh. rewrite Hh. specialize (Hs3 eq_refl). lia.
  - apply find_start_no_hit. apply existsb_Forall_false.
    apply Forall_take. apply existsb_Forall_false.
    apply (thinned_no_hit _ _ Hth). apply existsb_Forall_false.
    apply Forall_drop_list. by apply existsb_Forall_false.
Qed.

Lemma sanitize_twice text :
  scan_complete text ->
  sanitize_resume_text (sanitize_resume_text text)
  = sanitize_resume_text text.
Proof.
  intros Hscan. destruct text as [|c text]; [done|].
  set (t := c :: text) in *.
  assert (t <> []) as Hne by done. clearbody t.
  destruct (result_lines_props t) as (Htidy & Hlast & Hst & Hkept & Hth).
  cbv zeta in *.
  pose proof (sanitize_resume_text_trimmed t) as Htrim.
  rewrite (sanitize_as_lines t Hne) in *.
  set (C := result_lines t) in *.
  destruct (join [LF] C) as [|c' r] eqn:Hj; [done|].
  rewrite <- Hj in *.
  unfold sanitize_resume_text at 1. rewrite Hj at 1. cbn [truthy negb].
  cbv iota.
  assert (filtered_lines (join [LF] C) = C) as ->.
  { unfold filtered_lines. rewrite splitlines_join; [|
      by eapply Forall_impl; [exact Htidy|]; intros l [? _] |done].
    rewrite take_while_Forall.
    - apply filter_Forall. eapply Forall_impl; [exact Hkept|].
      intros l [_ ->]. done.
    - eapply Forall_impl; [exact Hkept|]. intros l [-> _]. done. }
  rewrite (second_scan _ _ Hscan Hth).
  rewrite slice_from_nonneg by done.
  change (drop (Z.to_nat 0) C) with C. by rewrite Hst.
Qed.

Lemma squeeze_stable_tail b l Y :
  0 <= b -> squeeze b (l :: Y) = l :: Y ->
  exists b', 0 <= b' /\ squeeze b' Y = Y.
Proof.
  intros Hb. cbn [squeeze]. destruct (negb (truthy (strip l))).
  - destruct (Z.leb_spec (b + 1) 2); cbn [app].
    + intros [= _ HY]. exists (b + 1). split; [lia|done].
    + intros HY. exfalso. pose proof (length_squeeze (b + 1) Y) as Hlen.
      rewrite HY in Hlen. simpl in Hlen. lia.
  - intros [= _ HY]. by exists 0.
Qed.

Lemma squeeze_stable_blank b Y :
  squeeze b ([] :: Y) = [] :: Y -> b + 1 <= 2 /\ squeeze (b + 1) Y = Y.
Proof.
  cbn [squeeze]. change (negb (truthy (strip []))) with true. cbv iota.
  destruct (Z.leb_spec (b + 1) 2); cbn [app].
  - by intros [= HY].
  - intros HY. exfalso. pose proof (length_squeeze (b + 1) Y) as Hlen.
    rewrite HY in Hlen. simpl in Hlen. lia.
Qed.

(** Lines that the normalization leaves as they are never hold three
    empty lines in a row. *)
Lemma squeeze_stable_runs b Y pre post :
  0 <= b -> squeeze b Y = Y -> Y <> pre ++ [] :: [] :: [] :: post.
Proof.
  revert b Y. induction pre as [|p pre IH]; intros b Y Hb HY ->.
  - cbn [app] in HY.
    apply squeeze_stable_blank in HY as [H1 HY].
    apply squeeze_stable_blank in HY as [H2 HY].
    apply squeeze_stable_blank in HY as [H3 HY]. lia.
  - cbn [app] in HY.
    apply squeeze_stable_tail in HY as (b' & Hb' & HY); [|done].
    by apply (IH b' _ Hb' HY).
Qed.

Lemma splitlines_go_chars (P : ascii -> Prop) after_cr cur s :
  Forall P cur -> Forall P s ->
  Forall (Forall P) (splitlines_go after_cr cur s).
Proof.
  intros Hcur Hs. revert after_cr cur Hcur.
  induction Hs as [|c s Hc Hs IH]; intros after_cr cur Hcur.
  - cbn [splitlines_go]. destruct cur; [constructor|].
    apply Forall_singleton. by apply Forall_rev.
  - cbn [splitlines_go]. destruct (after_cr && bool_decide (c = LF)).
    { by apply IH. }
    destruct (is_linebreak c).
    + constructor; [by apply Forall_rev|]. apply IH. constructor.
    + apply IH. by constructor.
Qed.

Lemma squeeze_blanks b X :
  Forall (Forall (fun c => is_space c = true)) X ->
  Forall (fun l => l = []) (squeeze b X).
Proof.
  intros HX. revert b. induction HX as [|l X Hl HX IH]; intros b;
    [constructor|].
  cbn [squeeze]. apply blank_spaces in Hl. rewrite Hl. cbn [negb]. cbv iota.
  apply Forall_app. split; [|apply IH].
  destruct (b + 1 <=? 2); by repeat constructor.
Qed.

Lemma sanitize_blank text :
  Forall (fun c => is_space c = true) text -> sanitize_resume_text text = [].
Proof.
  intros Ht. unfold sanitize_resume_text.
  destruct (negb (truthy text)); [done|].
  assert (Forall (Forall (fun c => is_space c = true)) (filtered_lines text))
    as HF.
  { unfold filtered_lines.
    pose proof (splitlines_go_chars _ false [] text (Forall_nil_2 _) Ht)
      as Hl. fold (splitlines text) in Hl.
    destruct (take_while_prefix (fun line => negb (is_cut line))
                (splitlines text)) as [t Hsplit].
    rewrite Hsplit in Hl. apply Forall_app in Hl as [Hl _].
    eapply Forall_impl;
      [exact (filter_keeps _ (fun line => negb (is_dropped line)) _ Hl)|].
    by intros l [? _]. }
  unfold slice_from.
  pose proof (squeeze_blanks 0 _ (Forall_drop_list _
    (Z.to_nat (slice_index (len (filtered_lines text))
                 (find_start 0 (slice_to (filtered_lines text) 60))))
    _ HF)) as Hb.
  apply join_blanks_space, blank_spaces in Hb.
  by destruct (strip _).
Qed.

(** X24: for every text, the result of [sanitize_resume_text] has no
    whitespace at either end, none of its lines is a cut header or a
    line to drop, no line ends with whitespace, and it never holds
    three empty lines in a row. *)
Theorem sanitize_resume_text_output (text : list ascii) :
  strip (sanitize_resume_text text) = sanitize_resume_text text /\
  Forall (fun l => is_cut l = false /\ is_dropped l = false /\ rstrip l = l)
    (splitlines (sanitize_resume_text text)) /\
  forall pre post,
    splitlines (sanitize_resume_text text) <> pre ++ [] :: [] :: [] :: post.
Proof.
  split; [apply sanitize_resume_text_trimmed|].
  destruct text as [|c text].
  { split; [constructor|]. intros pre post. by destruct pre. }
  assert (c :: text <> []) as Hne by done.
  rewrite (sanitize_as_lines _ Hne).
  destruct (result_lines_props (c :: text)) as (Htidy & Hlast & Hst & Hkept & _).
  cbv zeta in *.
  rewrite splitlines_join;
    [|by eapply Forall_impl; [exact Htidy|]; intros l [? _] |done].
  split.
  - apply Forall_and. split; [|apply Forall_and; split].
    + eapply Forall_impl; [exact Hkept|]. by intros l [? _].
    + eapply Forall_impl; [exact Hkept|]. by intros l [_ ?].
    + eapply Forall_impl; [exact Htidy|]. intros l [_ ?].
      by apply rstrip_fixed.
  - intros pre post. by apply (squeeze_stable_runs 0).
Qed.

(** X25: a text made of whitespace only is sanitized to the empty
    string. *)
Theorem sanitize_resume_text_blank (text : list ascii) :
  Forall (fun c => is_space c = true) text ->
  sanitize_resume_text text = [].
Proof. apply sanitize_blank. Qed.

(** X26: when the scan for the first section is not cut short by its
    window of 60 lines (a line that stops it lies within the first 60
    lines kept, or no line kept stops it), sanitizing the result again
    changes nothing. *)
Theorem sanitize_resume_text_idempotent (text : list ascii) :
  scan_complete text ->
  sanitize_resume_text (sanitize_resume_text text)
  = sanitize_resume_text text.
Proof. apply sanitize_twice. Qed.

Lemma length_take_while {A} (p : A -> bool) (l : list A) :
  (length (take_while p l) <= length l)%nat.
Proof.
  induction l as [|x l IH]; simpl; [done|]. destruct (p x); simpl; lia.
Qed.

(** X27: on a text of at most 60 lines, [sanitize_resume_text] is
    idempotent: sanitizing the result again changes nothing. *)
Theorem sanitize_resume_text_idempotent_short (text : list ascii) :
  len (splitlines text) <= 60 ->
  sanitize_resume_text (sanitize_resume_text text)
  = sanitize_resume_text text.
Proof.
  intros Hlen. apply sanitize_twice. unfold scan_complete. cbv zeta.
  assert (len (filtered_lines text) <= 60) as HF.
  { unfold filtered_lines, len in *.
    pose proof (List.filter_length_le
                  (fun line => negb (is_dropped line))
                  (take_while (fun line => negb (is_cut line))
                     (splitlines text))) as H1.
    pose proof (length_take_while (fun line => negb (is_cut line))
                  (splitlines text)) as H2.
    lia. }
  rewrite slice_to_nonneg by lia. rewrite take_ge by (unfold len in HF; lia).
  destruct (existsb hit (filtered_lines text)); auto.
Qed.

End SanitizerProps.

Lemma sanitize_resume_text_blank_witness :
  sanitize_resume_text (py "  " ++ [LF] ++ py " ") = [].
Proof.
  apply (sanitize_resume_text_blank (py "  " ++ [LF] ++ py " ")).
  apply (bool_decide_unpack _). vm_compute. exact I.
Defined.

Lemma sanitize_resume_text_idempotent_witness :
  sanitize_resume_text (sanitize_resume_text DemoResumes.tailored_resume)
  = sanitize_resume_text DemoResumes.tailored_resume.
Proof.
  apply (sanitize_resume_text_idempotent DemoResumes.tailored_resume).
  left. vm_compute. reflexivity.
Defined.

Lemma sanitize_resume_text_idempotent_short_witness :
  sanitize_resume_text (sanitize_resume_text job_text)
  = sanitize_resume_text job_text.
Proof.
  apply (sanitize_resume_text_idempotent_short job_text).
  vm_compute. discriminate.
Defined.

(** C7 (amended): when the scan for the first section is not cut short
    by its window of 60 lines, that is when a section header or a bold
    name lies within the first 60 lines left by the truncation and the
    line filter, or no line left is one, applying
    [sanitize_resume_text] twice gives the same result as applying it
    once. *)
Theorem C7_idempotent_within_window (text : list ascii) :
  SanitizerSpec.scan_complete text ->
  sanitize_resume_text (sanitize_resume_text text)
  = sanitize_resume_text text.
Proof. apply sanitize_twice. Qed.

Lemma C7_witness :
  sanitize_resume_text
    (sanitize_resume_text
       (py "notes  " ++ [LF] ++ py "Experience:" ++ [LF]
           ++ py "Drafted bill analyses."))
  = sanitize_resume_text
      (py "notes  " ++ [LF] ++ py "Experience:" ++ [LF]
          ++ py "Drafted bill analyses.").
Proof.
  apply (C7_idempotent_within_window
           (py "notes  " ++ [LF] ++ py "Experience:" ++ [LF]
               ++ py "Drafted bill analyses.")).
  left. vm_compute. reflexivity.
Defined.

(** ** Search: which candidates become results *)

Section SearchOrderProps.
Context {B : Backend}.
Import VectorStore VectorStoreSpec SearchOrder.

Ltac unfold_M :=
  unfold mbind, M_bind, mret, M_ret, get, put, lift in *.

Lemma omap_cons_match {A C} (f : A -> option C) x l :
  omap f (x :: l)
  = match f x with
    | Some y => y :: omap f l
    | None => omap f l
    end.
Proof. reflexivity. Qed.

(** The result loop is a filter followed by a cut. *)
Lemma collect_exact s top_k filt cands acc out :
  len acc < top_k ->
  collect s top_k filt cands acc = Ok out ->
  out = take (Z.to_nat top_k) (acc ++ omap (selected s filt) cands).
Proof.
  revert acc. induction cands as [|[idx score] cands IH]; intros acc Hacc;
    cbn [collect].
  { intros [= <-]. cbn [omap]. rewrite app_nil_r, take_ge; [done|].
    unfold len in Hacc. lia. }
  rewrite omap_cons_match. unfold selected at 1. cbn [fst snd].
  destruct ((idx <? 0) || (len (_chunks s) <=? idx)); [by apply IH|].
  unfold at_index.
  destruct (_metadatas s !! Z.to_nat idx) as [meta|]; [|done].
  cbn [mbind result_bind option_bind].
  destruct (truthy filt && negb (val_in (meta !! py "doc_type") filt));
    [by apply IH|].
  destruct (_chunks s !! Z.to_nat idx) as [chunk|]; [|done].
  cbn [mbind result_bind option_bind].
  set (h := {| content := chunk; metadata_of := meta;
               distance := f_sub f_one score |}).
  assert (acc ++ h :: omap (selected s filt) cands
          = (acc ++ [h]) ++ omap (selected s filt) cands) as ->
    by (by rewrite <- app_assoc).
  destruct (Z.leb_spec top_k (len (acc ++ [h]))) as [Hle|Hlt].
  - intros [= <-].
    assert (Z.to_nat top_k = length (acc ++ [h])) as ->.
    { rewrite len_app in Hle. unfold len in *. rewrite length_app.
      cbn [length] in *. lia. }
    by rewrite take_app_length.
  - intros H. by rewrite (IH _ Hlt H).
Qed.

(** X28: the results of a search on a store that holds chunks are
    exactly the first [top_k] of the results that the candidates of
    the first row of the index give, in the order of that row: a
    candidate gives no result when it is the padding [-1], lies beyond
    the chunks, or has a doc type outside a non-empty filter, and no
    other candidate is left out; on a store without index or chunks
    there is no result. *)
Theorem search_results_exact (s s' : store) (query : list ascii)
    (top_k : Z) (filt : option (list (list ascii))) (out : list hit) :
  search query top_k filt s = (Ok out, s') ->
  (out = [] /\ (_index s = None \/ _chunks s = [])) \/
  exists ix emb q cands rest,
    _index s = Some ix /\ _chunks s <> [] /\
    ollama_embed (ollama_host s) (embedding_model s) [query] = Ok emb /\
    np_array emb = Ok q /\
    index_search ix (_normalize q)
      (fetch_k top_k (default [] filt) (ntotal ix)) = Ok (cands :: rest) /\
    out = take (Z.to_nat top_k) (omap (selected s (default [] filt)) cands).
Proof.
  unfold search, _embed. unfold_M.
  destruct (_index s) as [ix|]; [|intros [= <- _]; left; auto].
  destruct (Z.eqb_spec (len (_chunks s)) 0) as [H0|H0].
  { intros [= <- _]. left. split; [done|]. right.
    by destruct (_chunks s). }
  destruct (ollama_embed _ _ _) as [emb|] eqn:He; [|done].
  destruct (np_array emb) as [q|] eqn:Hq; [|done].
  destruct (index_search _ _ _) as [found|] eqn:Hs; [|done].
  destruct found as [|cands rest]; [done|].
  change (at_index (cands :: rest) 0) with (Ok cands). cbv iota.
  destruct (collect s top_k (default [] filt) cands []) as [res|] eqn:Hc;
    [|done].
  intros [= <- _]. right. exists ix, emb, q, cands, rest.
  split_and!; try done.
  { intros Hnil. by rewrite Hnil in H0. }
  apply (collect_exact _ _ _ _ [] _); [|done].
  unfold index_search in Hs. destruct (negb (_ =? _)); [done|].
  destruct (Z.ltb_spec 0 (fetch_k top_k (default [] filt) (ntotal ix)))
    as [Hk|]; [|done].
  unfold fetch_k in Hk. unfold len. cbn [length].
  destruct (truthy _); lia.
Qed.

End SearchOrderProps.

Lemma search_results_exact_witness :
  (VectorStore.search (py "q") 1 (Some [py "resume"]) three_entries).1
    = Ok [] /\
  (VectorStore._index three_entries = None \/
   VectorStore._chunks three_entries = [])
  \/
  exists out ix emb q cands rest,
    (VectorStore.search (py "q") 1 (Some [py "resume"]) three_entries).1
      = Ok out /\
    VectorStore._index three_entries = Some ix /\
    VectorStore._chunks three_entries <> [] /\
    ollama_embed (Backend := demo_backend)
      (VectorStore.ollama_host three_entries)
      (VectorStore.embedding_model three_entries) [py "q"] = Ok emb /\
    VectorStore.np_array emb = Ok q /\
    VectorStore.index_search ix (VectorStore._normalize q)
      (VectorStore.fetch_k 1 (default [] (Some [py "resume"]))
         (VectorStore.ntotal ix)) = Ok (cands :: rest) /\
    out = take (Z.to_nat 1)
            (omap (SearchOrder.selected three_entries
                     (default [] (Some [py "resume"]))) cands).
Proof.
  destruct (VectorStore.search (py "q") 1 (Some [py "resume"])
              three_entries).1 as [out|e] eqn:E.
  - destruct (search_results_exact three_entries
                (VectorStore.search (py "q") 1 (Some [py "resume"])
                   three_entries).2 (py "q") 1 (Some [py "resume"]) out)
      as [[-> H]|(ix & emb & q & cands & rest & H)].
    + rewrite <- E. apply surjective_pairing.
    + by left.
    + right. exists out, ix, emb, q, cands, rest. by split.
  - exfalso. revert E. vm_compute. discriminate.
Defined.
